(** * wireproxy-awg: AmneziaWG configuration compiler and SOCKS5 UDP relay

    A shallow embedding of [awg_config.go], of [CreateIPCRequest] and of the
    pool, DNS cache and header parser of [socks5_udp.go], with the properties
    stated by the specification.

    Conventions of the embedding:
    - a Go [string] is a Rocq [string] (a sequence of bytes);
    - Go's [int] is a 64-bit two's complement integer: a [Z] with the
      wrap-around of every addition written out ([wrap_int]);
    - a [uint32] is a [Z] in [0, 2^32);
    - a Go [error] is a value of [error]; the [nil] error is [None];
    - a pointer that may be [nil] is an [option]. *)

From Stdlib Require Import ZArith List Bool Lia Ascii Permutation.
From Stdlib.Strings Require String Byte.
From stdpp Require Import base option list gmap strings.

Local Open Scope Z_scope.

(** ** Errors *)

(** [errors.New], [*strconv.NumError] and [fmt.Errorf] (without and with a
    wrapped error, the verb [%w]); [lib_error] stands for an error value built by a library
    outside this repository (go-ini, net). *)
Inductive error : Type :=
| errors_New (msg : string)
| NumError (Func Num : string) (Err : error)
| fmt_Errorf (msg : string)
| fmt_Errorf_w (msg : string) (wrapped : error)
| lib_error (msg : string).

Definition ErrSyntax : error := errors_New "invalid syntax".
Definition ErrRange : error := errors_New "value out of range".

(** ** Machine integers *)

Definition wrap_int (z : Z) : Z := (z + 2 ^ 63) mod 2 ^ 64 - 2 ^ 63.
Definition wrap_uint64 (z : Z) : Z := z mod 2 ^ 64.
Definition maxUint64 : Z := 2 ^ 64 - 1.
Definition maxUint32 : Z := 2 ^ 32 - 1.

(** ** The parts of Go's [strconv] and [strings] the program calls *)

Module strconv.

(** The byte ['0' + d]. *)
Definition digit_char (d : Z) : ascii := ascii_of_nat (48 + Z.to_nat d).

(** [formatBits]: the digits are produced from the least significant one,
    each prepended to what is already written. A [uint64] has at most 20
    decimal digits. *)
Fixpoint formatBits (fuel : nat) (u : Z) (acc : string) : string :=
  match fuel with
  | O => acc
  | S fuel' =>
      if u <? 10 then String (digit_char u) acc
      else formatBits fuel' (u / 10) (String (digit_char (u mod 10)) acc)
  end.

(** [strconv.FormatUint(u, 10)]. *)
Definition FormatUint (u : Z) : string := formatBits 20 u "".

(** [strconv.FormatInt(i, 10)], which is what [fmt.Sprintf("%d", i)] prints
    for an [int]. *)
Definition FormatInt (i : Z) : string :=
  if i <? 0 then String "-" (FormatUint (- i)) else FormatUint i.

(** The loop of [strconv.ParseUint(s, 10, bitSize)] over the bytes of [s]:
    [n] is the value read so far. The result is the pair Go returns. *)
Fixpoint parse_loop (s0 : string) (maxVal : Z) (n : Z) (s : string)
  : Z * option error :=
  match s with
  | EmptyString => (n, None)
  | String c rest =>
      let code := Z.of_nat (nat_of_ascii c) in
      if (48 <=? code) && (code <=? 57) then
        let d := code - 48 in
        (* cutoff: the smallest number such that cutoff*10 > maxUint64 *)
        if maxUint64 / 10 + 1 <=? n then
          (maxVal, Some (NumError "ParseUint" s0 ErrRange))
        else
          let n10 := wrap_uint64 (n * 10) in
          let n1 := wrap_uint64 (n10 + d) in
          if (n1 <? n10) || (maxVal <? n1) then
            (maxVal, Some (NumError "ParseUint" s0 ErrRange))
          else parse_loop s0 maxVal n1 rest
      else (0, Some (NumError "ParseUint" s0 ErrSyntax))
  end.

(** [strconv.ParseUint(s, 10, bitSize)] for [0 < bitSize <= 64]. In base 10
    an underscore, a sign and a letter are syntax errors. *)
Definition ParseUint (s : string) (bitSize : Z) : Z * option error :=
  match s with
  | EmptyString => (0, Some (NumError "ParseUint" s ErrSyntax))
  | _ => parse_loop s (2 ^ bitSize - 1) 0 s
  end.

End strconv.

Module gostrings.

Local Open Scope N_scope.

(** The white space of [unicode.IsSpace] that is one byte long:
    tab, line feed, vertical tab, form feed, carriage return, space. *)
Definition is_space_byte (b : N) : bool :=
  ((9 <=? b) && (b <=? 13)) || (b =? 32).

(** The white space that is two bytes long in UTF-8: U+0085 and U+00A0. *)
Definition is_space_2 (b0 b1 : N) : bool :=
  (b0 =? 194) && ((b1 =? 133) || (b1 =? 160)).

(** The white space that is three bytes long in UTF-8: U+1680,
    U+2000..U+200A, U+2028, U+2029, U+202F, U+205F and U+3000. *)
Definition is_space_3 (b0 b1 b2 : N) : bool :=
  ((b0 =? 225) && (b1 =? 154) && (b2 =? 128))
  || ((b0 =? 226) && (b1 =? 128)
      && (((128 <=? b2) && (b2 <=? 138))
          || (b2 =? 168) || (b2 =? 169) || (b2 =? 175)))
  || ((b0 =? 226) && (b1 =? 129) && (b2 =? 159))
  || ((b0 =? 227) && (b1 =? 128) && (b2 =? 128)).

(** One white-space rune at the head of a string of bytes, if there is one:
    the rest of the string after it. *)
Definition strip_space_rune (l : list N) : option (list N) :=
  match l with
  | [] => None
  | b0 :: r0 =>
      if is_space_byte b0 then Some r0 else
      match r0 with
      | [] => None
      | b1 :: r1 =>
          if is_space_2 b0 b1 then Some r1 else
          match r1 with
          | [] => None
          | b2 :: r2 => if is_space_3 b0 b1 b2 then Some r2 else None
          end
      end
  end.

(** The same rune read from the end: [l] is the string reversed. *)
Definition strip_space_rune_back (l : list N) : option (list N) :=
  match l with
  | [] => None
  | b0 :: r0 =>
      if is_space_byte b0 then Some r0 else
      match r0 with
      | [] => None
      | b1 :: r1 =>
          if is_space_2 b1 b0 then Some r1 else
          match r1 with
          | [] => None
          | b2 :: r2 => if is_space_3 b2 b1 b0 then Some r2 else None
          end
      end
  end.

(** Remove runes with [strip] while it applies; a rune is at least one byte
    long, so the length of the string is enough fuel. *)
Fixpoint strip_while (strip : list N -> option (list N))
    (fuel : nat) (l : list N) : list N :=
  match fuel with
  | O => l
  | S fuel' =>
      match strip l with
      | Some r => strip_while strip fuel' r
      | None => l
      end
  end.

Definition bytes_of (s : string) : list N :=
  map N_of_ascii (String.list_ascii_of_string s).
Definition string_of (l : list N) : string :=
  String.string_of_list_ascii (map ascii_of_N l).

(** [strings.TrimSpace]: all leading and trailing white space removed. *)
Definition TrimSpace (s : string) : string :=
  let l := bytes_of s in
  let l1 := strip_while strip_space_rune (length l) l in
  let l2 := strip_while strip_space_rune_back (length l1) (rev l1) in
  string_of (rev l2).

(** [strings.Split(s, sep)] for a separator of one byte: the pieces of [s]
    between the separators, one more than there are separators. *)
Fixpoint Split (s : string) (sep : ascii) : list string :=
  match s with
  | EmptyString => [EmptyString]
  | String c rest =>
      if Ascii.eqb c sep then EmptyString :: Split rest sep
      else match Split rest sep with
           | piece :: pieces => String c piece :: pieces
           | [] => [String c EmptyString]
           end
  end.

End gostrings.

(** ** [awg_config.go] *)

(** [ASecConfigType]; [i1]..[i5] are [*string]. *)
Record ASecConfigType : Type := mkASecConfig {
  junkPacketCount : Z;
  junkPacketMinSize : Z;
  junkPacketMaxSize : Z;
  initPacketJunkSize : Z;
  responsePacketJunkSize : Z;
  cookieReplyPacketJunkSize : Z;
  transportPacketJunkSize : Z;
  initPacketMagicHeader : Z;
  initPacketMagicHeaderMax : Z;
  responsePacketMagicHeader : Z;
  responsePacketMagicHeaderMax : Z;
  underloadPacketMagicHeader : Z;
  underloadPacketMagicHeaderMax : Z;
  transportPacketMagicHeader : Z;
  transportPacketMagicHeaderMax : Z;
  hasJunkPacketCount : bool;
  hasJunkPacketMinSize : bool;
  hasJunkPacketMaxSize : bool;
  hasInitPacketJunkSize : bool;
  hasResponsePacketJunkSize : bool;
  hasCookieReplyPacketJunkSize : bool;
  hasTransportPacketJunkSize : bool;
  hasInitPacketMagicHeader : bool;
  hasResponsePacketMagicHeader : bool;
  hasUnderloadPacketMagicHeader : bool;
  hasTransportPacketMagicHeader : bool;
  i1 : option string;
  i2 : option string;
  i3 : option string;
  i4 : option string;
  i5 : option string
}.

(** [&ASecConfigType{}]: every field has the zero value of its type. *)
Definition zero_ASecConfig : ASecConfigType :=
  {| junkPacketCount := 0;
     junkPacketMinSize := 0;
     junkPacketMaxSize := 0;
     initPacketJunkSize := 0;
     responsePacketJunkSize := 0;
     cookieReplyPacketJunkSize := 0;
     transportPacketJunkSize := 0;
     initPacketMagicHeader := 0;
     initPacketMagicHeaderMax := 0;
     responsePacketMagicHeader := 0;
     responsePacketMagicHeaderMax := 0;
     underloadPacketMagicHeader := 0;
     underloadPacketMagicHeaderMax := 0;
     transportPacketMagicHeader := 0;
     transportPacketMagicHeaderMax := 0;
     hasJunkPacketCount := false;
     hasJunkPacketMinSize := false;
     hasJunkPacketMaxSize := false;
     hasInitPacketJunkSize := false;
     hasResponsePacketJunkSize := false;
     hasCookieReplyPacketJunkSize := false;
     hasTransportPacketJunkSize := false;
     hasInitPacketMagicHeader := false;
     hasResponsePacketMagicHeader := false;
     hasUnderloadPacketMagicHeader := false;
     hasTransportPacketMagicHeader := false;
     i1 := None;
     i2 := None;
     i3 := None;
     i4 := None;
     i5 := None |}.

(** [aSecConfig.junkPacketCount = value; aSecConfig.hasJunkPacketCount = true] *)
Definition set_junkPacketCount (value : Z) (c : ASecConfigType) : ASecConfigType :=
  {| junkPacketCount := value;
     junkPacketMinSize := junkPacketMinSize c;
     junkPacketMaxSize := junkPacketMaxSize c;
     initPacketJunkSize := initPacketJunkSize c;
     responsePacketJunkSize := responsePacketJunkSize c;
     cookieReplyPacketJunkSize := cookieReplyPacketJunkSize c;
     transportPacketJunkSize := transportPacketJunkSize c;
     initPacketMagicHeader := initPacketMagicHeader c;
     initPacketMagicHeaderMax := initPacketMagicHeaderMax c;
     responsePacketMagicHeader := responsePacketMagicHeader c;
     responsePacketMagicHeaderMax := responsePacketMagicHeaderMax c;
     underloadPacketMagicHeader := underloadPacketMagicHeader c;
     underloadPacketMagicHeaderMax := underloadPacketMagicHeaderMax c;
     transportPacketMagicHeader := transportPacketMagicHeader c;
     transportPacketMagicHeaderMax := transportPacketMagicHeaderMax c;
     hasJunkPacketCount := true;
     hasJunkPacketMinSize := hasJunkPacketMinSize c;
     hasJunkPacketMaxSize := hasJunkPacketMaxSize c;
     hasInitPacketJunkSize := hasInitPacketJunkSize c;
     hasResponsePacketJunkSize := hasResponsePacketJunkSize c;
     hasCookieReplyPacketJunkSize := hasCookieReplyPacketJunkSize c;
     hasTransportPacketJunkSize := hasTransportPacketJunkSize c;
     hasInitPacketMagicHeader := hasInitPacketMagicHeader c;
     hasResponsePacketMagicHeader := hasResponsePacketMagicHeader c;
     hasUnderloadPacketMagicHeader := hasUnderloadPacketMagicHeader c;
     hasTransportPacketMagicHeader := hasTransportPacketMagicHeader c;
     i1 := i1 c;
     i2 := i2 c;
     i3 := i3 c;
     i4 := i4 c;
     i5 := i5 c |}.

(** [aSecConfig.junkPacketMinSize = value; aSecConfig.hasJunkPacketMinSize = true] *)
Definition set_junkPacketMinSize (value : Z) (c : ASecConfigType) : ASecConfigType :=
  {| junkPacketCount := junkPacketCount c;
     junkPacketMinSize := value;
     junkPacketMaxSize := junkPacketMaxSize c;
     initPacketJunkSize := initPacketJunkSize c;
     responsePacketJunkSize := responsePacketJunkSize c;
     cookieReplyPacketJunkSize := cookieReplyPacketJunkSize c;
     transportPacketJunkSize := transportPacketJunkSize c;
     initPacketMagicHeader := initPacketMagicHeader c;
     initPacketMagicHeaderMax := initPacketMagicHeaderMax c;
     responsePacketMagicHeader := responsePacketMagicHeader c;
     responsePacketMagicHeaderMax := responsePacketMagicHeaderMax c;
     underloadPacketMagicHeader := underloadPacketMagicHeader c;
     underloadPacketMagicHeaderMax := underloadPacketMagicHeaderMax c;
     transportPacketMagicHeader := transportPacketMagicHeader c;
     transportPacketMagicHeaderMax := transportPacketMagicHeaderMax c;
     hasJunkPacketCount := hasJunkPacketCount c;
     hasJunkPacketMinSize := true;
     hasJunkPacketMaxSize := hasJunkPacketMaxSize c;
     hasInitPacketJunkSize := hasInitPacketJunkSize c;
     hasResponsePacketJunkSize := hasResponsePacketJunkSize c;
     hasCookieReplyPacketJunkSize := hasCookieReplyPacketJunkSize c;
     hasTransportPacketJunkSize := hasTransportPacketJunkSize c;
     hasInitPacketMagicHeader := hasInitPacketMagicHeader c;
     hasResponsePacketMagicHeader := hasResponsePacketMagicHeader c;
     hasUnderloadPacketMagicHeader := hasUnderloadPacketMagicHeader c;
     hasTransportPacketMagicHeader := hasTransportPacketMagicHeader c;
     i1 := i1 c;
     i2 := i2 c;
     i3 := i3 c;
     i4 := i4 c;
     i5 := i5 c |}.

(** [aSecConfig.junkPacketMaxSize = value; aSecConfig.hasJunkPacketMaxSize = true] *)
Definition set_junkPacketMaxSize (value : Z) (c : ASecConfigType) : ASecConfigType :=
  {| junkPacketCount := junkPacketCount c;
     junkPacketMinSize := junkPacketMinSize c;
     junkPacketMaxSize := value;
     initPacketJunkSize := initPacketJunkSize c;
     responsePacketJunkSize := responsePacketJunkSize c;
     cookieReplyPacketJunkSize := cookieReplyPacketJunkSize c;
     transportPacketJunkSize := transportPacketJunkSize c;
     initPacketMagicHeader := initPacketMagicHeader c;
     initPacketMagicHeaderMax := initPacketMagicHeaderMax c;
     responsePacketMagicHeader := responsePacketMagicHeader c;
     responsePacketMagicHeaderMax := responsePacketMagicHeaderMax c;
     underloadPacketMagicHeader := underloadPacketMagicHeader c;
     underloadPacketMagicHeaderMax := underloadPacketMagicHeaderMax c;
     transportPacketMagicHeader := transportPacketMagicHeader c;
     transportPacketMagicHeaderMax := transportPacketMagicHeaderMax c;
     hasJunkPacketCount := hasJunkPacketCount c;
     hasJunkPacketMinSize := hasJunkPacketMinSize c;
     hasJunkPacketMaxSize := true;
     hasInitPacketJunkSize := hasInitPacketJunkSize c;
     hasResponsePacketJunkSize := hasResponsePacketJunkSize c;
     hasCookieReplyPacketJunkSize := hasCookieReplyPacketJunkSize c;
     hasTransportPacketJunkSize := hasTransportPacketJunkSize c;
     hasInitPacketMagicHeader := hasInitPacketMagicHeader c;
     hasResponsePacketMagicHeader := hasResponsePacketMagicHeader c;
     hasUnderloadPacketMagicHeader := hasUnderloadPacketMagicHeader c;
     hasTransportPacketMagicHeader := hasTransportPacketMagicHeader c;
     i1 := i1 c;
     i2 := i2 c;
     i3 := i3 c;
     i4 := i4 c;
     i5 := i5 c |}.

(** [aSecConfig.initPacketJunkSize = value; aSecConfig.hasInitPacketJunkSize = true] *)
Definition set_initPacketJunkSize (value : Z) (c : ASecConfigType) : ASecConfigType :=
  {| junkPacketCount := junkPacketCount c;
     junkPacketMinSize := junkPacketMinSize c;
     junkPacketMaxSize := junkPacketMaxSize c;
     initPacketJunkSize := value;
     responsePacketJunkSize := responsePacketJunkSize c;
     cookieReplyPacketJunkSize := cookieReplyPacketJunkSize c;
     transportPacketJunkSize := transportPacketJunkSize c;
     initPacketMagicHeader := initPacketMagicHeader c;
     initPacketMagicHeaderMax := initPacketMagicHeaderMax c;
     responsePacketMagicHeader := responsePacketMagicHeader c;
     responsePacketMagicHeaderMax := responsePacketMagicHeaderMax c;
     underloadPacketMagicHeader := underloadPacketMagicHeader c;
     underloadPacketMagicHeaderMax := underloadPacketMagicHeaderMax c;
     transportPacketMagicHeader := transportPacketMagicHeader c;
     transportPacketMagicHeaderMax := transportPacketMagicHeaderMax c;
     hasJunkPacketCount := hasJunkPacketCount c;
     hasJunkPacketMinSize := hasJunkPacketMinSize c;
     hasJunkPacketMaxSize := hasJunkPacketMaxSize c;
     hasInitPacketJunkSize := true;
     hasResponsePacketJunkSize := hasResponsePacketJunkSize c;
     hasCookieReplyPacketJunkSize := hasCookieReplyPacketJunkSize c;
     hasTransportPacketJunkSize := hasTransportPacketJunkSize c;
     hasInitPacketMagicHeader := hasInitPacketMagicHeader c;
     hasResponsePacketMagicHeader := hasResponsePacketMagicHeader c;
     hasUnderloadPacketMagicHeader := hasUnderloadPacketMagicHeader c;
     hasTransportPacketMagicHeader := hasTransportPacketMagicHeader c;
     i1 := i1 c;
     i2 := i2 c;
     i3 := i3 c;
     i4 := i4 c;
     i5 := i5 c |}.

(** [aSecConfig.responsePacketJunkSize = value; aSecConfig.hasResponsePacketJunkSize = true] *)
Definition set_responsePacketJunkSize (value : Z) (c : ASecConfigType) : ASecConfigType :=
  {| junkPacketCount := junkPacketCount c;
     junkPacketMinSize := junkPacketMinSize c;
     junkPacketMaxSize := junkPacketMaxSize c;
     initPacketJunkSize := initPacketJunkSize c;
     responsePacketJunkSize := value;
     cookieReplyPacketJunkSize := cookieReplyPacketJunkSize c;
     transportPacketJunkSize := transportPacketJunkSize c;
     initPacketMagicHeader := initPacketMagicHeader c;
     initPacketMagicHeaderMax := initPacketMagicHeaderMax c;
     responsePacketMagicHeader := responsePacketMagicHeader c;
     responsePacketMagicHeaderMax := responsePacketMagicHeaderMax c;
     underloadPacketMagicHeader := underloadPacketMagicHeader c;
     underloadPacketMagicHeaderMax := underloadPacketMagicHeaderMax c;
     transportPacketMagicHeader := transportPacketMagicHeader c;
     transportPacketMagicHeaderMax := transportPacketMagicHeaderMax c;
     hasJunkPacketCount := hasJunkPacketCount c;
     hasJunkPacketMinSize := hasJunkPacketMinSize c;
     hasJunkPacketMaxSize := hasJunkPacketMaxSize c;
     hasInitPacketJunkSize := hasInitPacketJunkSize c;
     hasResponsePacketJunkSize := true;
     hasCookieReplyPacketJunkSize := hasCookieReplyPacketJunkSize c;
     hasTransportPacketJunkSize := hasTransportPacketJunkSize c;
     hasInitPacketMagicHeader := hasInitPacketMagicHeader c;
     hasResponsePacketMagicHeader := hasResponsePacketMagicHeader c;
     hasUnderloadPacketMagicHeader := hasUnderloadPacketMagicHeader c;
     hasTransportPacketMagicHeader := hasTransportPacketMagicHeader c;
     i1 := i1 c;
     i2 := i2 c;
     i3 := i3 c;
     i4 := i4 c;
     i5 := i5 c |}.

(** [aSecConfig.cookieReplyPacketJunkSize = value; aSecConfig.hasCookieReplyPacketJunkSize = true] *)
Definition set_cookieReplyPacketJunkSize (value : Z) (c : ASecConfigType) : ASecConfigType :=
  {| junkPacketCount := junkPacketCount c;
     junkPacketMinSize := junkPacketMinSize c;
     junkPacketMaxSize := junkPacketMaxSize c;
     initPacketJunkSize := initPacketJunkSize c;
     responsePacketJunkSize := responsePacketJunkSize c;
     cookieReplyPacketJunkSize := value;
     transportPacketJunkSize := transportPacketJunkSize c;
     initPacketMagicHeader := initPacketMagicHeader c;
     initPacketMagicHeaderMax := initPacketMagicHeaderMax c;
     responsePacketMagicHeader := responsePacketMagicHeader c;
     responsePacketMagicHeaderMax := responsePacketMagicHeaderMax c;
     underloadPacketMagicHeader := underloadPacketMagicHeader c;
     underloadPacketMagicHeaderMax := underloadPacketMagicHeaderMax c;
     transportPacketMagicHeader := transportPacketMagicHeader c;
     transportPacketMagicHeaderMax := transportPacketMagicHeaderMax c;
     hasJunkPacketCount := hasJunkPacketCount c;
     hasJunkPacketMinSize := hasJunkPacketMinSize c;
     hasJunkPacketMaxSize := hasJunkPacketMaxSize c;
     hasInitPacketJunkSize := hasInitPacketJunkSize c;
     hasResponsePacketJunkSize := hasResponsePacketJunkSize c;
     hasCookieReplyPacketJunkSize := true;
     hasTransportPacketJunkSize := hasTransportPacketJunkSize c;
     hasInitPacketMagicHeader := hasInitPacketMagicHeader c;
     hasResponsePacketMagicHeader := hasResponsePacketMagicHeader c;
     hasUnderloadPacketMagicHeader := hasUnderloadPacketMagicHeader c;
     hasTransportPacketMagicHeader := hasTransportPacketMagicHeader c;
     i1 := i1 c;
     i2 := i2 c;
     i3 := i3 c;
     i4 := i4 c;
     i5 := i5 c |}.

(** [aSecConfig.transportPacketJunkSize = value; aSecConfig.hasTransportPacketJunkSize = true] *)
Definition set_transportPacketJunkSize (value : Z) (c : ASecConfigType) : ASecConfigType :=
  {| junkPacketCount := junkPacketCount c;
     junkPacketMinSize := junkPacketMinSize c;
     junkPacketMaxSize := junkPacketMaxSize c;
     initPacketJunkSize := initPacketJunkSize c;
     responsePacketJunkSize := responsePacketJunkSize c;
     cookieReplyPacketJunkSize := cookieReplyPacketJunkSize c;
     transportPacketJunkSize := value;
     initPacketMagicHeader := initPacketMagicHeader c;
     initPacketMagicHeaderMax := initPacketMagicHeaderMax c;
     responsePacketMagicHeader := responsePacketMagicHeader c;
     responsePacketMagicHeaderMax := responsePacketMagicHeaderMax c;
     underloadPacketMagicHeader := underloadPacketMagicHeader c;
     underloadPacketMagicHeaderMax := underloadPacketMagicHeaderMax c;
     transportPacketMagicHeader := transportPacketMagicHeader c;
     transportPacketMagicHeaderMax := transportPacketMagicHeaderMax c;
     hasJunkPacketCount := hasJunkPacketCount c;
     hasJunkPacketMinSize := hasJunkPacketMinSize c;
     hasJunkPacketMaxSize := hasJunkPacketMaxSize c;
     hasInitPacketJunkSize := hasInitPacketJunkSize c;
     hasResponsePacketJunkSize := hasResponsePacketJunkSize c;
     hasCookieReplyPacketJunkSize := hasCookieReplyPacketJunkSize c;
     hasTransportPacketJunkSize := true;
     hasInitPacketMagicHeader := hasInitPacketMagicHeader c;
     hasResponsePacketMagicHeader := hasResponsePacketMagicHeader c;
     hasUnderloadPacketMagicHeader := hasUnderloadPacketMagicHeader c;
     hasTransportPacketMagicHeader := hasTransportPacketMagicHeader c;
     i1 := i1 c;
     i2 := i2 c;
     i3 := i3 c;
     i4 := i4 c;
     i5 := i5 c |}.

(** [aSecConfig.initPacketMagicHeader = minValue; aSecConfig.initPacketMagicHeaderMax = maxValue;
    aSecConfig.hasInitPacketMagicHeader = true] *)
Definition set_initPacketMagicHeader (minValue maxValue : Z) (c : ASecConfigType) : ASecConfigType :=
  {| junkPacketCount := junkPacketCount c;
     junkPacketMinSize := junkPacketMinSize c;
     junkPacketMaxSize := junkPacketMaxSize c;
     initPacketJunkSize := initPacketJunkSize c;
     responsePacketJunkSize := responsePacketJunkSize c;
     cookieReplyPacketJunkSize := cookieReplyPacketJunkSize c;
     transportPacketJunkSize := transportPacketJunkSize c;
     initPacketMagicHeader := minValue;
     initPacketMagicHeaderMax := maxValue;
     responsePacketMagicHeader := responsePacketMagicHeader c;
     responsePacketMagicHeaderMax := responsePacketMagicHeaderMax c;
     underloadPacketMagicHeader := underloadPacketMagicHeader c;
     underloadPacketMagicHeaderMax := underloadPacketMagicHeaderMax c;
     transportPacketMagicHeader := transportPacketMagicHeader c;
     transportPacketMagicHeaderMax := transportPacketMagicHeaderMax c;
     hasJunkPacketCount := hasJunkPacketCount c;
     hasJunkPacketMinSize := hasJunkPacketMinSize c;
     hasJunkPacketMaxSize := hasJunkPacketMaxSize c;
     hasInitPacketJunkSize := hasInitPacketJunkSize c;
     hasResponsePacketJunkSize := hasResponsePacketJunkSize c;
     hasCookieReplyPacketJunkSize := hasCookieReplyPacketJunkSize c;
     hasTransportPacketJunkSize := hasTransportPacketJunkSize c;
     hasInitPacketMagicHeader := true;
     hasResponsePacketMagicHeader := hasResponsePacketMagicHeader c;
     hasUnderloadPacketMagicHeader := hasUnderloadPacketMagicHeader c;
     hasTransportPacketMagicHeader := hasTransportPacketMagicHeader c;
     i1 := i1 c;
     i2 := i2 c;
     i3 := i3 c;
     i4 := i4 c;
     i5 := i5 c |}.

(** [aSecConfig.responsePacketMagicHeader = minValue; aSecConfig.responsePacketMagicHeaderMax = maxValue;
    aSecConfig.hasResponsePacketMagicHeader = true] *)
Definition set_responsePacketMagicHeader (minValue maxValue : Z) (c : ASecConfigType) : ASecConfigType :=
  {| junkPacketCount := junkPacketCount c;
     junkPacketMinSize := junkPacketMinSize c;
     junkPacketMaxSize := junkPacketMaxSize c;
     initPacketJunkSize := initPacketJunkSize c;
     responsePacketJunkSize := responsePacketJunkSize c;
     cookieReplyPacketJunkSize := cookieReplyPacketJunkSize c;
     transportPacketJunkSize := transportPacketJunkSize c;
     initPacketMagicHeader := initPacketMagicHeader c;
     initPacketMagicHeaderMax := initPacketMagicHeaderMax c;
     responsePacketMagicHeader := minValue;
     responsePacketMagicHeaderMax := maxValue;
     underloadPacketMagicHeader := underloadPacketMagicHeader c;
     underloadPacketMagicHeaderMax := underloadPacketMagicHeaderMax c;
     transportPacketMagicHeader := transportPacketMagicHeader c;
     transportPacketMagicHeaderMax := transportPacketMagicHeaderMax c;
     hasJunkPacketCount := hasJunkPacketCount c;
     hasJunkPacketMinSize := hasJunkPacketMinSize c;
     hasJunkPacketMaxSize := hasJunkPacketMaxSize c;
     hasInitPacketJunkSize := hasInitPacketJunkSize c;
     hasResponsePacketJunkSize := hasResponsePacketJunkSize c;
     hasCookieReplyPacketJunkSize := hasCookieReplyPacketJunkSize c;
     hasTransportPacketJunkSize := hasTransportPacketJunkSize c;
     hasInitPacketMagicHeader := hasInitPacketMagicHeader c;
     hasResponsePacketMagicHeader := true;
     hasUnderloadPacketMagicHeader := hasUnderloadPacketMagicHeader c;
     hasTransportPacketMagicHeader := hasTransportPacketMagicHeader c;
     i1 := i1 c;
     i2 := i2 c;
     i3 := i3 c;
     i4 := i4 c;
     i5 := i5 c |}.

(** [aSecConfig.underloadPacketMagicHeader = minValue; aSecConfig.underloadPacketMagicHeaderMax = maxValue;
    aSecConfig.hasUnderloadPacketMagicHeader = true] *)
Definition set_underloadPacketMagicHeader (minValue maxValue : Z) (c : ASecConfigType) : ASecConfigType :=
  {| junkPacketCount := junkPacketCount c;
     junkPacketMinSize := junkPacketMinSize c;
     junkPacketMaxSize := junkPacketMaxSize c;
     initPacketJunkSize := initPacketJunkSize c;
     responsePacketJunkSize := responsePacketJunkSize c;
     cookieReplyPacketJunkSize := cookieReplyPacketJunkSize c;
     transportPacketJunkSize := transportPacketJunkSize c;
     initPacketMagicHeader := initPacketMagicHeader c;
     initPacketMagicHeaderMax := initPacketMagicHeaderMax c;
     responsePacketMagicHeader := responsePacketMagicHeader c;
     responsePacketMagicHeaderMax := responsePacketMagicHeaderMax c;
     underloadPacketMagicHeader := minValue;
     underloadPacketMagicHeaderMax := maxValue;
     transportPacketMagicHeader := transportPacketMagicHeader c;
     transportPacketMagicHeaderMax := transportPacketMagicHeaderMax c;
     hasJunkPacketCount := hasJunkPacketCount c;
     hasJunkPacketMinSize := hasJunkPacketMinSize c;
     hasJunkPacketMaxSize := hasJunkPacketMaxSize c;
     hasInitPacketJunkSize := hasInitPacketJunkSize c;
     hasResponsePacketJunkSize := hasResponsePacketJunkSize c;
     hasCookieReplyPacketJunkSize := hasCookieReplyPacketJunkSize c;
     hasTransportPacketJunkSize := hasTransportPacketJunkSize c;
     hasInitPacketMagicHeader := hasInitPacketMagicHeader c;
     hasResponsePacketMagicHeader := hasResponsePacketMagicHeader c;
     hasUnderloadPacketMagicHeader := true;
     hasTransportPacketMagicHeader := hasTransportPacketMagicHeader c;
     i1 := i1 c;
     i2 := i2 c;
     i3 := i3 c;
     i4 := i4 c;
     i5 := i5 c |}.

(** [aSecConfig.transportPacketMagicHeader = minValue; aSecConfig.transportPacketMagicHeaderMax = maxValue;
    aSecConfig.hasTransportPacketMagicHeader = true] *)
Definition set_transportPacketMagicHeader (minValue maxValue : Z) (c : ASecConfigType) : ASecConfigType :=
  {| junkPacketCount := junkPacketCount c;
     junkPacketMinSize := junkPacketMinSize c;
     junkPacketMaxSize := junkPacketMaxSize c;
     initPacketJunkSize := initPacketJunkSize c;
     responsePacketJunkSize := responsePacketJunkSize c;
     cookieReplyPacketJunkSize := cookieReplyPacketJunkSize c;
     transportPacketJunkSize := transportPacketJunkSize c;
     initPacketMagicHeader := initPacketMagicHeader c;
     initPacketMagicHeaderMax := initPacketMagicHeaderMax c;
     responsePacketMagicHeader := responsePacketMagicHeader c;
     responsePacketMagicHeaderMax := responsePacketMagicHeaderMax c;
     underloadPacketMagicHeader := underloadPacketMagicHeader c;
     underloadPacketMagicHeaderMax := underloadPacketMagicHeaderMax c;
     transportPacketMagicHeader := minValue;
     transportPacketMagicHeaderMax := maxValue;
     hasJunkPacketCount := hasJunkPacketCount c;
     hasJunkPacketMinSize := hasJunkPacketMinSize c;
     hasJunkPacketMaxSize := hasJunkPacketMaxSize c;
     hasInitPacketJunkSize := hasInitPacketJunkSize c;
     hasResponsePacketJunkSize := hasResponsePacketJunkSize c;
     hasCookieReplyPacketJunkSize := hasCookieReplyPacketJunkSize c;
     hasTransportPacketJunkSize := hasTransportPacketJunkSize c;
     hasInitPacketMagicHeader := hasInitPacketMagicHeader c;
     hasResponsePacketMagicHeader := hasResponsePacketMagicHeader c;
     hasUnderloadPacketMagicHeader := hasUnderloadPacketMagicHeader c;
     hasTransportPacketMagicHeader := true;
     i1 := i1 c;
     i2 := i2 c;
     i3 := i3 c;
     i4 := i4 c;
     i5 := i5 c |}.

(** [aSecConfig.i1 = &value] *)
Definition set_i1 (value : string) (c : ASecConfigType) : ASecConfigType :=
  {| junkPacketCount := junkPacketCount c;
     junkPacketMinSize := junkPacketMinSize c;
     junkPacketMaxSize := junkPacketMaxSize c;
     initPacketJunkSize := initPacketJunkSize c;
     responsePacketJunkSize := responsePacketJunkSize c;
     cookieReplyPacketJunkSize := cookieReplyPacketJunkSize c;
     transportPacketJunkSize := transportPacketJunkSize c;
     initPacketMagicHeader := initPacketMagicHeader c;
     initPacketMagicHeaderMax := initPacketMagicHeaderMax c;
     responsePacketMagicHeader := responsePacketMagicHeader c;
     responsePacketMagicHeaderMax := responsePacketMagicHeaderMax c;
     underloadPacketMagicHeader := underloadPacketMagicHeader c;
     underloadPacketMagicHeaderMax := underloadPacketMagicHeaderMax c;
     transportPacketMagicHeader := transportPacketMagicHeader c;
     transportPacketMagicHeaderMax := transportPacketMagicHeaderMax c;
     hasJunkPacketCount := hasJunkPacketCount c;
     hasJunkPacketMinSize := hasJunkPacketMinSize c;
     hasJunkPacketMaxSize := hasJunkPacketMaxSize c;
     hasInitPacketJunkSize := hasInitPacketJunkSize c;
     hasResponsePacketJunkSize := hasResponsePacketJunkSize c;
     hasCookieReplyPacketJunkSize := hasCookieReplyPacketJunkSize c;
     hasTransportPacketJunkSize := hasTransportPacketJunkSize c;
     hasInitPacketMagicHeader := hasInitPacketMagicHeader c;
     hasResponsePacketMagicHeader := hasResponsePacketMagicHeader c;
     hasUnderloadPacketMagicHeader := hasUnderloadPacketMagicHeader c;
     hasTransportPacketMagicHeader := hasTransportPacketMagicHeader c;
     i1 := Some value;
     i2 := i2 c;
     i3 := i3 c;
     i4 := i4 c;
     i5 := i5 c |}.

(** [aSecConfig.i2 = &value] *)
Definition set_i2 (value : string) (c : ASecConfigType) : ASecConfigType :=
  {| junkPacketCount := junkPacketCount c;
     junkPacketMinSize := junkPacketMinSize c;
     junkPacketMaxSize := junkPacketMaxSize c;
     initPacketJunkSize := initPacketJunkSize c;
     responsePacketJunkSize := responsePacketJunkSize c;
     cookieReplyPacketJunkSize := cookieReplyPacketJunkSize c;
     transportPacketJunkSize := transportPacketJunkSize c;
     initPacketMagicHeader := initPacketMagicHeader c;
     initPacketMagicHeaderMax := initPacketMagicHeaderMax c;
     responsePacketMagicHeader := responsePacketMagicHeader c;
     responsePacketMagicHeaderMax := responsePacketMagicHeaderMax c;
     underloadPacketMagicHeader := underloadPacketMagicHeader c;
     underloadPacketMagicHeaderMax := underloadPacketMagicHeaderMax c;
     transportPacketMagicHeader := transportPacketMagicHeader c;
     transportPacketMagicHeaderMax := transportPacketMagicHeaderMax c;
     hasJunkPacketCount := hasJunkPacketCount c;
     hasJunkPacketMinSize := hasJunkPacketMinSize c;
     hasJunkPacketMaxSize := hasJunkPacketMaxSize c;
     hasInitPacketJunkSize := hasInitPacketJunkSize c;
     hasResponsePacketJunkSize := hasResponsePacketJunkSize c;
     hasCookieReplyPacketJunkSize := hasCookieReplyPacketJunkSize c;
     hasTransportPacketJunkSize := hasTransportPacketJunkSize c;
     hasInitPacketMagicHeader := hasInitPacketMagicHeader c;
     hasResponsePacketMagicHeader := hasResponsePacketMagicHeader c;
     hasUnderloadPacketMagicHeader := hasUnderloadPacketMagicHeader c;
     hasTransportPacketMagicHeader := hasTransportPacketMagicHeader c;
     i1 := i1 c;
     i2 := Some value;
     i3 := i3 c;
     i4 := i4 c;
     i5 := i5 c |}.

(** [aSecConfig.i3 = &value] *)
Definition set_i3 (value : string) (c : ASecConfigType) : ASecConfigType :=
  {| junkPacketCount := junkPacketCount c;
     junkPacketMinSize := junkPacketMinSize c;
     junkPacketMaxSize := junkPacketMaxSize c;
     initPacketJunkSize := initPacketJunkSize c;
     responsePacketJunkSize := responsePacketJunkSize c;
     cookieReplyPacketJunkSize := cookieReplyPacketJunkSize c;
     transportPacketJunkSize := transportPacketJunkSize c;
     initPacketMagicHeader := initPacketMagicHeader c;
     initPacketMagicHeaderMax := initPacketMagicHeaderMax c;
     responsePacketMagicHeader := responsePacketMagicHeader c;
     responsePacketMagicHeaderMax := responsePacketMagicHeaderMax c;
     underloadPacketMagicHeader := underloadPacketMagicHeader c;
     underloadPacketMagicHeaderMax := underloadPacketMagicHeaderMax c;
     transportPacketMagicHeader := transportPacketMagicHeader c;
     transportPacketMagicHeaderMax := transportPacketMagicHeaderMax c;
     hasJunkPacketCount := hasJunkPacketCount c;
     hasJunkPacketMinSize := hasJunkPacketMinSize c;
     hasJunkPacketMaxSize := hasJunkPacketMaxSize c;
     hasInitPacketJunkSize := hasInitPacketJunkSize c;
     hasResponsePacketJunkSize := hasResponsePacketJunkSize c;
     hasCookieReplyPacketJunkSize := hasCookieReplyPacketJunkSize c;
     hasTransportPacketJunkSize := hasTransportPacketJunkSize c;
     hasInitPacketMagicHeader := hasInitPacketMagicHeader c;
     hasResponsePacketMagicHeader := hasResponsePacketMagicHeader c;
     hasUnderloadPacketMagicHeader := hasUnderloadPacketMagicHeader c;
     hasTransportPacketMagicHeader := hasTransportPacketMagicHeader c;
     i1 := i1 c;
     i2 := i2 c;
     i3 := Some value;
     i4 := i4 c;
     i5 := i5 c |}.

(** [aSecConfig.i4 = &value] *)
Definition set_i4 (value : string) (c : ASecConfigType) : ASecConfigType :=
  {| junkPacketCount := junkPacketCount c;
     junkPacketMinSize := junkPacketMinSize c;
     junkPacketMaxSize := junkPacketMaxSize c;
     initPacketJunkSize := initPacketJunkSize c;
     responsePacketJunkSize := responsePacketJunkSize c;
     cookieReplyPacketJunkSize := cookieReplyPacketJunkSize c;
     transportPacketJunkSize := transportPacketJunkSize c;
     initPacketMagicHeader := initPacketMagicHeader c;
     initPacketMagicHeaderMax := initPacketMagicHeaderMax c;
     responsePacketMagicHeader := responsePacketMagicHeader c;
     responsePacketMagicHeaderMax := responsePacketMagicHeaderMax c;
     underloadPacketMagicHeader := underloadPacketMagicHeader c;
     underloadPacketMagicHeaderMax := underloadPacketMagicHeaderMax c;
     transportPacketMagicHeader := transportPacketMagicHeader c;
     transportPacketMagicHeaderMax := transportPacketMagicHeaderMax c;
     hasJunkPacketCount := hasJunkPacketCount c;
     hasJunkPacketMinSize := hasJunkPacketMinSize c;
     hasJunkPacketMaxSize := hasJunkPacketMaxSize c;
     hasInitPacketJunkSize := hasInitPacketJunkSize c;
     hasResponsePacketJunkSize := hasResponsePacketJunkSize c;
     hasCookieReplyPacketJunkSize := hasCookieReplyPacketJunkSize c;
     hasTransportPacketJunkSize := hasTransportPacketJunkSize c;
     hasInitPacketMagicHeader := hasInitPacketMagicHeader c;
     hasResponsePacketMagicHeader := hasResponsePacketMagicHeader c;
     hasUnderloadPacketMagicHeader := hasUnderloadPacketMagicHeader c;
     hasTransportPacketMagicHeader := hasTransportPacketMagicHeader c;
     i1 := i1 c;
     i2 := i2 c;
     i3 := i3 c;
     i4 := Some value;
     i5 := i5 c |}.

(** [aSecConfig.i5 = &value] *)
Definition set_i5 (value : string) (c : ASecConfigType) : ASecConfigType :=
  {| junkPacketCount := junkPacketCount c;
     junkPacketMinSize := junkPacketMinSize c;
     junkPacketMaxSize := junkPacketMaxSize c;
     initPacketJunkSize := initPacketJunkSize c;
     responsePacketJunkSize := responsePacketJunkSize c;
     cookieReplyPacketJunkSize := cookieReplyPacketJunkSize c;
     transportPacketJunkSize := transportPacketJunkSize c;
     initPacketMagicHeader := initPacketMagicHeader c;
     initPacketMagicHeaderMax := initPacketMagicHeaderMax c;
     responsePacketMagicHeader := responsePacketMagicHeader c;
     responsePacketMagicHeaderMax := responsePacketMagicHeaderMax c;
     underloadPacketMagicHeader := underloadPacketMagicHeader c;
     underloadPacketMagicHeaderMax := underloadPacketMagicHeaderMax c;
     transportPacketMagicHeader := transportPacketMagicHeader c;
     transportPacketMagicHeaderMax := transportPacketMagicHeaderMax c;
     hasJunkPacketCount := hasJunkPacketCount c;
     hasJunkPacketMinSize := hasJunkPacketMinSize c;
     hasJunkPacketMaxSize := hasJunkPacketMaxSize c;
     hasInitPacketJunkSize := hasInitPacketJunkSize c;
     hasResponsePacketJunkSize := hasResponsePacketJunkSize c;
     hasCookieReplyPacketJunkSize := hasCookieReplyPacketJunkSize c;
     hasTransportPacketJunkSize := hasTransportPacketJunkSize c;
     hasInitPacketMagicHeader := hasInitPacketMagicHeader c;
     hasResponsePacketMagicHeader := hasResponsePacketMagicHeader c;
     hasUnderloadPacketMagicHeader := hasUnderloadPacketMagicHeader c;
     hasTransportPacketMagicHeader := hasTransportPacketMagicHeader c;
     i1 := i1 c;
     i2 := i2 c;
     i3 := i3 c;
     i4 := i4 c;
     i5 := Some value |}.

Definition messageInitiationSize : Z := 148.
Definition messageResponseSize : Z := 92.
Definition messageCookieReplySize : Z := 64.
Definition messageTransportSize : Z := 32.

Record packetSizeCheck : Type := { isSet : bool; size : Z }.

Record headerInterval : Type := { key : string; min : Z; max : Z }.

Definition defaultInitPacketMagicHeader : Z := 1.
Definition defaultResponsePacketMagicHeader : Z := 2.
Definition defaultUnderloadPacketMagicHeader : Z := 3.
Definition defaultTransportPacketMagicHeader : Z := 4.

Definition err_Jc : error :=
  errors_New "value of the Jc field must be within the range of 1 to 128".
Definition err_Jmin : error :=
  errors_New "value of the Jmin field must be less than or equal to Jmax field value".
Definition err_Jmax : error :=
  errors_New "value of the Jmax field must be less than or equal 1280".
Definition err_size_long : error :=
  errors_New "value of the field S1 + message initiation size (148) must not equal S2 + message response size (92) + S3 + cookie reply size (64) + S4 + transport packet size (32)".
Definition err_size_short : error :=
  errors_New "value of the field S1 + message initiation size (148) must not equal S2 + message response size (92)".
Definition err_bounds : error :=
  errors_New "invalid magic header range: lower bound cannot exceed upper bound".
Definition err_unique : error :=
  errors_New "values of the H1-H4 fields must be unique".
Definition err_empty : error := errors_New "empty magic header value".
Definition err_format : error := errors_New "invalid magic header range format".

(** [collectEffectiveHeaderIntervals]. *)
Definition collectEffectiveHeaderIntervals (config : option ASecConfigType)
  : list headerInterval :=
  let effective (has : ASecConfigType -> bool) (lo hi : ASecConfigType -> Z)
                (def : Z) : Z * Z :=
    match config with
    | Some c => if has c then (lo c, hi c) else (def, def)
    | None => (def, def)
    end in
  let h1 := effective hasInitPacketMagicHeader initPacketMagicHeader
              initPacketMagicHeaderMax defaultInitPacketMagicHeader in
  let h2 := effective hasResponsePacketMagicHeader responsePacketMagicHeader
              responsePacketMagicHeaderMax defaultResponsePacketMagicHeader in
  let h3 := effective hasUnderloadPacketMagicHeader underloadPacketMagicHeader
              underloadPacketMagicHeaderMax defaultUnderloadPacketMagicHeader in
  let h4 := effective hasTransportPacketMagicHeader transportPacketMagicHeader
              transportPacketMagicHeaderMax defaultTransportPacketMagicHeader in
  [ {| key := "h1"; min := h1.1; max := h1.2 |};
    {| key := "h2"; min := h2.1; max := h2.2 |};
    {| key := "h3"; min := h3.1; max := h3.2 |};
    {| key := "h4"; min := h4.1; max := h4.2 |} ].

(** The test of the inner loop of [hasOverlappingHeaderIntervals]. *)
Definition overlaps (left_ right_ : headerInterval) : bool :=
  (min left_ <=? max right_) && (min right_ <=? max left_).

(** [hasOverlappingHeaderIntervals]: the loop over [i] is the recursion on
    the list, the loop over [j > i] is the search in its tail. *)
Fixpoint hasOverlappingHeaderIntervals (intervals : list headerInterval)
  : bool :=
  match intervals with
  | [] => false
  | left_ :: rest =>
      if existsb (overlaps left_) rest then true
      else hasOverlappingHeaderIntervals rest
  end.

(** The loop over [j] of the packet-size check, for an entry [p] that is
    set: the first later entry that is set and has the size of [p] ends the
    validation with the error [e]. *)
Fixpoint packetSize_inner (e : error) (p : packetSizeCheck)
    (rest : list packetSizeCheck) : option error :=
  match rest with
  | [] => None
  | q :: rest' =>
      if negb (isSet q) then packetSize_inner e p rest'
      else if size p =? size q then Some e
      else packetSize_inner e p rest'
  end.

(** The loop over [i] of the packet-size check. *)
Fixpoint packetSize_outer (e : error) (l : list packetSizeCheck)
  : option error :=
  match l with
  | [] => None
  | p :: rest =>
      if negb (isSet p) then packetSize_outer e rest
      else match packetSize_inner e p rest with
           | Some err => Some err
           | None => packetSize_outer e rest
           end
  end.

(** The slice [packetSizes] of [ValidateASecConfig]. *)
Definition packetSizes (config : ASecConfigType) : list packetSizeCheck :=
  [ {| isSet := hasInitPacketJunkSize config;
       size := wrap_int (messageInitiationSize + initPacketJunkSize config) |};
    {| isSet := hasResponsePacketJunkSize config;
       size := wrap_int (messageResponseSize + responsePacketJunkSize config) |};
    {| isSet := hasCookieReplyPacketJunkSize config;
       size := wrap_int (messageCookieReplySize
                         + cookieReplyPacketJunkSize config) |};
    {| isSet := hasTransportPacketJunkSize config;
       size := wrap_int (messageTransportSize
                         + transportPacketJunkSize config) |} ].

(** The error a packet-size collision is reported with. *)
Definition packetSize_error (config : ASecConfigType) : error :=
  if hasCookieReplyPacketJunkSize config || hasTransportPacketJunkSize config
  then err_size_long else err_size_short.

(** [ValidateASecConfig]; [None] is the [nil] error. *)
Definition ValidateASecConfig (config : option ASecConfigType)
  : option error :=
  match config with
  | None => None
  | Some config =>
      if hasJunkPacketCount config
         && ((junkPacketCount config <? 1) || (128 <? junkPacketCount config))
      then Some err_Jc
      else if hasJunkPacketMinSize config && hasJunkPacketMaxSize config
              && (junkPacketMaxSize config <? junkPacketMinSize config)
      then Some err_Jmin
      else if hasJunkPacketMaxSize config && (1280 <? junkPacketMaxSize config)
      then Some err_Jmax
      else
        match packetSize_outer (packetSize_error config) (packetSizes config) with
        | Some err => Some err
        | None =>
            let intervals := collectEffectiveHeaderIntervals (Some config) in
            if existsb (fun interval => max interval <? min interval) intervals
            then Some err_bounds
            else if hasOverlappingHeaderIntervals intervals
            then Some err_unique
            else None
        end
  end.

(** [parseMagicHeaderInterval]; the result is the triple Go returns. *)
Definition parseMagicHeaderInterval (value : string)
  : Z * Z * option error :=
  let trimmed := gostrings.TrimSpace value in
  if String.eqb trimmed "" then (0, 0, Some err_empty)
  else
    let parts := gostrings.Split trimmed "-" in
    match parts with
    | [] => (0, 0, Some err_format)
    | part0 :: others =>
        if (2 <? length parts)%nat || String.eqb part0 ""
        then (0, 0, Some err_format)
        else
          match strconv.ParseUint part0 32 with
          | (_, Some err) => (0, 0, Some err)
          | (minValue, None) =>
              match others with
              | [] => (minValue, minValue, None)
              | part1 :: _ =>
                  if String.eqb part1 "" then (0, 0, Some err_format)
                  else
                    match strconv.ParseUint part1 32 with
                    | (_, Some err) => (0, 0, Some err)
                    | (maxValue, None) =>
                        if maxValue <? minValue
                        then (0, 0, Some err_bounds)
                        else (minValue, maxValue, None)
                    end
              end
          end
    end.

(** [formatMagicHeaderInterval]. *)
Definition formatMagicHeaderInterval (minValue maxValue : Z) : string :=
  if minValue =? maxValue then strconv.FormatUint minValue
  else strconv.FormatUint minValue +:+ "-" +:+ strconv.FormatUint maxValue.

(** *** [ParseASecConfig] *)

Module ini.
(** A key of go-ini, known through the two methods the program calls:
    [String()] and [Int()] (the pair Go returns). *)
Record Key : Type := { Key_String : string; Key_Int : Z * option error }.
(** A section, known through [GetKey]: [None] when it returns an error. *)
Definition Section : Type := string -> option Key.
End ini.

(** [if aSecConfig == nil { aSecConfig = &ASecConfigType{} }]. *)
Definition alloc (aSecConfig : option ASecConfigType) : ASecConfigType :=
  match aSecConfig with
  | Some c => c
  | None => zero_ASecConfig
  end.

(** The state of [ParseASecConfig] between two keys is the pointer
    [aSecConfig]; a key either ends the function with an error or goes on
    with the next one. *)
Definition parse_step : Type :=
  option ASecConfigType -> error + option ASecConfigType.

Notation "x <- e ; k" :=
  (match e with inl err => inl err | inr x => k end)
  (at level 200, e at level 100, k at level 200, right associativity,
   only parsing).

(** The block of an integer key ([Jc], [Jmin], [Jmax], [S1]..[S4]). *)
Definition int_key (section : ini.Section) (name : string)
    (set : Z -> ASecConfigType -> ASecConfigType) : parse_step :=
  fun aSecConfig =>
    match section name with
    | None => inr aSecConfig
    | Some sectionKey =>
        match ini.Key_Int sectionKey with
        | (_, Some err) => inl err
        | (value, None) => inr (Some (set value (alloc aSecConfig)))
        end
    end.

(** The block of a magic header key ([H1]..[H4]). *)
Definition header_key (section : ini.Section) (name : string)
    (set : Z -> Z -> ASecConfigType -> ASecConfigType) : parse_step :=
  fun aSecConfig =>
    match section name with
    | None => inr aSecConfig
    | Some sectionKey =>
        match parseMagicHeaderInterval (ini.Key_String sectionKey) with
        | (_, _, Some err) => inl err
        | (minValue, maxValue, None) =>
            inr (Some (set minValue maxValue (alloc aSecConfig)))
        end
    end.

(** The block of a text key ([I1]..[I5]). *)
Definition string_key (section : ini.Section) (name : string)
    (set : string -> ASecConfigType -> ASecConfigType) : parse_step :=
  fun aSecConfig =>
    match section name with
    | None => inr aSecConfig
    | Some sectionKey =>
        inr (Some (set (ini.Key_String sectionKey) (alloc aSecConfig)))
    end.

(** [ParseASecConfig] up to its call of [ValidateASecConfig]. *)
Definition parseKeys (section : ini.Section)
  : error + option ASecConfigType :=
  let aSecConfig := None in
  aSecConfig <- int_key section "Jc" set_junkPacketCount aSecConfig;
  aSecConfig <- int_key section "Jmin" set_junkPacketMinSize aSecConfig;
  aSecConfig <- int_key section "Jmax" set_junkPacketMaxSize aSecConfig;
  aSecConfig <- int_key section "S1" set_initPacketJunkSize aSecConfig;
  aSecConfig <- int_key section "S2" set_responsePacketJunkSize aSecConfig;
  aSecConfig <- int_key section "S3" set_cookieReplyPacketJunkSize aSecConfig;
  aSecConfig <- int_key section "S4" set_transportPacketJunkSize aSecConfig;
  aSecConfig <- header_key section "H1" set_initPacketMagicHeader aSecConfig;
  aSecConfig <- header_key section "H2" set_responsePacketMagicHeader aSecConfig;
  aSecConfig <- header_key section "H3" set_underloadPacketMagicHeader aSecConfig;
  aSecConfig <- header_key section "H4" set_transportPacketMagicHeader aSecConfig;
  aSecConfig <- string_key section "I1" set_i1 aSecConfig;
  aSecConfig <- string_key section "I2" set_i2 aSecConfig;
  aSecConfig <- string_key section "I3" set_i3 aSecConfig;
  aSecConfig <- string_key section "I4" set_i4 aSecConfig;
  aSecConfig <- string_key section "I5" set_i5 aSecConfig;
  inr aSecConfig.

(** [ParseASecConfig]; the result is the pair Go returns. *)
Definition ParseASecConfig (section : ini.Section)
  : option ASecConfigType * option error :=
  match parseKeys section with
  | inl err => (None, Some err)
  | inr aSecConfig =>
      match ValidateASecConfig aSecConfig with
      | Some err => (None, Some err)
      | None => (aSecConfig, None)
      end
  end.

(** ** [CreateIPCRequest] *)

Module netip.
(** [netip.Addr] and [netip.Prefix], known through their method [String()]. *)
Record Addr : Type := { Addr_String : string }.
Record Prefix : Type := { Prefix_String : string }.
End netip.

(** Modelled from the spec: [PeerConfig] and [DeviceConfig] are declared in a
    file of the repository that is not among the sources; the fields are
    those [CreateIPCRequest] reads (public key, optional endpoint, preshared
    key, keepalive, allowed-IP prefixes; secret key, optional listen port,
    peers, DNS servers, device addresses, MTU, optional AmneziaWG record). *)
Record PeerConfig : Type := {
  PublicKey : string;
  PreSharedKey : string;
  Endpoint : option string;
  KeepAlive : Z;
  AllowedIPs : list netip.Prefix }.

Record DeviceConfig : Type := {
  SecretKey : string;
  conf_Endpoint : list netip.Addr;
  Peers : list PeerConfig;
  DNS : list netip.Addr;
  MTU : Z;
  ListenPort : option Z;
  ASecConfig : option ASecConfigType }.

(** [DeviceSetting]. *)
Record DeviceSetting : Type := {
  IpcRequest : string;
  setting_DNS : list netip.Addr;
  DeviceAddr : list netip.Addr;
  setting_MTU : Z }.

(** The line feed. *)
Definition nl : string := String "010" EmptyString.

(** [fmt.Sprintf("<key>=%d\n", v)] and [fmt.Sprintf("<key>=%s\n", v)], the
    key given with its [=] sign. *)
Definition Sprintf_d (key_eq : string) (v : Z) : string :=
  key_eq +:+ strconv.FormatInt v +:+ nl.
Definition Sprintf_s (key_eq : string) (v : string) : string :=
  key_eq +:+ v +:+ nl.

(** [WriteString] on a [bytes.Buffer] or a [strings.Builder]. *)
Definition WriteString (buffer : string) (s : string) : string :=
  buffer +:+ s.

(** [if cond { b.WriteString(line) }] and, for a pointer,
    [if p != nil { b.WriteString(line of its target) }]: the buffer afterwards. *)
Definition write_when (cond : bool) (line : string) (b : string) : string :=
  if cond then WriteString b line else b.
Definition write_some (p : option string) (line : string -> string)
    (b : string) : string :=
  match p with
  | Some v => WriteString b (line v)
  | None => b
  end.

(** The text written to [aSecBuilder]. *)
Definition aSecBuilder_String (aSecConfig : ASecConfigType) : string :=
  let b := EmptyString in
  let b := write_when (hasJunkPacketCount aSecConfig)
             (Sprintf_d "jc=" (junkPacketCount aSecConfig)) b in
  let b := write_when (hasJunkPacketMinSize aSecConfig)
             (Sprintf_d "jmin=" (junkPacketMinSize aSecConfig)) b in
  let b := write_when (hasJunkPacketMaxSize aSecConfig)
             (Sprintf_d "jmax=" (junkPacketMaxSize aSecConfig)) b in
  let b := write_when (hasInitPacketJunkSize aSecConfig)
             (Sprintf_d "s1=" (initPacketJunkSize aSecConfig)) b in
  let b := write_when (hasResponsePacketJunkSize aSecConfig)
             (Sprintf_d "s2=" (responsePacketJunkSize aSecConfig)) b in
  let b := write_when (hasCookieReplyPacketJunkSize aSecConfig)
             (Sprintf_d "s3=" (cookieReplyPacketJunkSize aSecConfig)) b in
  let b := write_when (hasTransportPacketJunkSize aSecConfig)
             (Sprintf_d "s4=" (transportPacketJunkSize aSecConfig)) b in
  let b := write_when (hasInitPacketMagicHeader aSecConfig)
             (Sprintf_s "h1="
                (formatMagicHeaderInterval (initPacketMagicHeader aSecConfig)
                   (initPacketMagicHeaderMax aSecConfig))) b in
  let b := write_when (hasResponsePacketMagicHeader aSecConfig)
             (Sprintf_s "h2="
                (formatMagicHeaderInterval (responsePacketMagicHeader aSecConfig)
                   (responsePacketMagicHeaderMax aSecConfig))) b in
  let b := write_when (hasUnderloadPacketMagicHeader aSecConfig)
             (Sprintf_s "h3="
                (formatMagicHeaderInterval (underloadPacketMagicHeader aSecConfig)
                   (underloadPacketMagicHeaderMax aSecConfig))) b in
  let b := write_when (hasTransportPacketMagicHeader aSecConfig)
             (Sprintf_s "h4="
                (formatMagicHeaderInterval (transportPacketMagicHeader aSecConfig)
                   (transportPacketMagicHeaderMax aSecConfig))) b in
  let b := write_some (i1 aSecConfig) (Sprintf_s "i1=") b in
  let b := write_some (i2 aSecConfig) (Sprintf_s "i2=") b in
  let b := write_some (i3 aSecConfig) (Sprintf_s "i3=") b in
  let b := write_some (i4 aSecConfig) (Sprintf_s "i4=") b in
  let b := write_some (i5 aSecConfig) (Sprintf_s "i5=") b in
  b.

(** The body of the loop over [conf.Peers]: what one peer appends to
    [request]. [heredoc.Doc] removes the first line break and the common
    indentation of its argument. *)
Definition write_peer (request : string) (peer : PeerConfig) : string :=
  let request :=
    WriteString request
      (Sprintf_s "public_key=" (PublicKey peer)
       +:+ Sprintf_d "persistent_keepalive_interval=" (KeepAlive peer)
       +:+ Sprintf_s "preshared_key=" (PreSharedKey peer)) in
  let request := write_some (Endpoint peer) (Sprintf_s "endpoint=") request in
  if (0 <? length (AllowedIPs peer))%nat then
    fold_left
      (fun request ip =>
         WriteString request (Sprintf_s "allowed_ip=" (netip.Prefix_String ip)))
      (AllowedIPs peer) request
  else
    WriteString request
      (Sprintf_s "allowed_ip=" "0.0.0.0/0" +:+ Sprintf_s "allowed_ip=" "::0/0").

(** [CreateIPCRequest]; the error it returns is always [nil]. *)
Definition CreateIPCRequest (conf : DeviceConfig)
  : DeviceSetting * option error :=
  let request := EmptyString in
  let request := WriteString request (Sprintf_s "private_key=" (SecretKey conf)) in
  let request :=
    match ListenPort conf with
    | Some port => WriteString request (Sprintf_d "listen_port=" port)
    | None => request
    end in
  let request :=
    match ASecConfig conf with
    | Some aSecConfig => WriteString request (aSecBuilder_String aSecConfig)
    | None => request
    end in
  let request := fold_left write_peer (Peers conf) request in
  ({| IpcRequest := request; setting_DNS := DNS conf;
      DeviceAddr := conf_Endpoint conf; setting_MTU := MTU conf |}, None).

(** ** [socks5_udp.go] *)

(** *** The header of a SOCKS5 UDP request *)

Section Socks5Header.

(** [net.IP.String]: the text of an address of 4 or 16 bytes. *)
Variable IP_String : list Byte.byte -> string.

(** [data[i]]; the parser reads a byte only below the length it has
    checked. *)
Definition byte_at (data : list Byte.byte) (i : nat) : Byte.byte :=
  nth i data Byte.x00.

(** [data[lo:hi]]. *)
Definition slice (data : list Byte.byte) (lo hi : nat) : list Byte.byte :=
  firstn (hi - lo) (skipn lo data).

(** [net.IPv4(a, b, c, d)]: the 16-byte form of an IPv4 address. *)
Definition net_IPv4 (a b c d : Byte.byte) : list Byte.byte :=
  repeat Byte.x00 10 ++ [Byte.xff; Byte.xff; a; b; c; d].

(** [binary.BigEndian.Uint16]. *)
Definition BigEndian_Uint16 (b : list Byte.byte) : Z :=
  Z.of_N (Byte.to_N (byte_at b 1))
  + Z.of_N (Byte.to_N (byte_at b 0)) * 256.

(** [parseSocks5HeaderFast]: host, port, headerLen, ok. *)
Definition parseSocks5HeaderFast (data : list Byte.byte)
  : string * Z * nat * bool :=
  let reject := (EmptyString, 0, 0%nat, false) in
  if (length data <? 10)%nat
     || negb (Byte.eqb (byte_at data 0) Byte.x00)
     || negb (Byte.eqb (byte_at data 1) Byte.x00)
     || negb (Byte.eqb (byte_at data 2) Byte.x00)
  then reject
  else
    match byte_at data 3 with
    | Byte.x01 =>
        if (length data <? 10)%nat then reject
        else (IP_String (net_IPv4 (byte_at data 4) (byte_at data 5)
                                  (byte_at data 6) (byte_at data 7)),
              BigEndian_Uint16 (slice data 8 10), 10%nat, true)
    | Byte.x03 =>
        let domainLen := N.to_nat (Byte.to_N (byte_at data 4)) in
        if (length data <? 7 + domainLen)%nat then reject
        else (String.string_of_list_byte (slice data 5 (5 + domainLen)),
              BigEndian_Uint16 (slice data (5 + domainLen) (5 + domainLen + 2)),
              (7 + domainLen)%nat, true)
    | Byte.x04 =>
        if (length data <? 22)%nat then reject
        else (IP_String (slice data 4 20),
              BigEndian_Uint16 (slice data 20 22), 22%nat, true)
    | _ => reject
    end.

(** [payload := data[headerLen:]] in [handleSocks5UDPPacketSync]. *)
Definition payload_of (data : list Byte.byte) (headerLen : nat)
  : list Byte.byte :=
  skipn headerLen data.

End Socks5Header.

(** *** Time *)

(** A [time.Time] is an instant in nanoseconds, a [time.Duration] a 64-bit
    count of nanoseconds; [Sub] saturates at the bounds of [Duration]. *)
Definition minDuration : Z := - 2 ^ 63.
Definition maxDuration : Z := 2 ^ 63 - 1.
Definition Time_Sub (t u : Z) : Z :=
  Z.max minDuration (Z.min maxDuration (t - u)).
Definition Time_Before (t u : Z) : bool := t <? u.

(** *** [DNSCache] *)

Record cacheEntry : Type := { ip : list Byte.byte; timestamp : Z }.

Record DNSCache : Type := { cache : gmap string cacheEntry; ttl : Z }.

(** [NewDNSCache]. *)
Definition NewDNSCache (ttl : Z) : DNSCache := {| cache := ∅; ttl := ttl |}.

(** [net.IP.To4]: the 4-byte form of an IPv4 address, [None] for [nil]. *)
Definition To4 (ip : list Byte.byte) : option (list Byte.byte) :=
  if (length ip =? 4)%nat then Some ip
  else if (length ip =? 16)%nat
          && forallb (Byte.eqb Byte.x00) (firstn 10 ip)
          && Byte.eqb (nth 10 ip Byte.x00) Byte.xff
          && Byte.eqb (nth 11 ip Byte.x00) Byte.xff
  then Some (firstn 4 (skipn 12 ip))
  else None.

(** The loop of [Resolve] over [ips]: the first candidate that has a 4-byte
    form, [None] ([nil]) when the loop ends without one. *)
Fixpoint first_IPv4 (ips : list (list Byte.byte)) : option (list Byte.byte) :=
  match ips with
  | [] => None
  | candidate :: rest =>
      match To4 candidate with
      | Some _ => Some candidate
      | None => first_IPv4 rest
      end
  end.

(** What a call of [Resolve] finds outside the cache: the clock when the
    cache is read, the answer [net.LookupIP] would give for a host, and the
    clock when the cache is written. *)
Record resolve_env : Type := {
  now_read : Z;
  LookupIP : string -> list (list Byte.byte) * option error;
  now_write : Z }.

(** What a call of [Resolve] does: the pair it returns ([None] for the [nil]
    address and for the [nil] error), the cache it leaves, and the hosts it
    called [net.LookupIP] for. *)
Record resolve_result : Type := {
  res_ip : option (list Byte.byte);
  res_err : option error;
  res_cache : DNSCache;
  res_lookups : list string }.

(** The method [Resolve] of [DNSCache]. *)
Definition Resolve (d : DNSCache) (host : string) (env : resolve_env)
  : resolve_result :=
  let fresh :=
    match cache d !! host with
    | Some entry =>
        if Time_Sub (now_read env) (timestamp entry) <? ttl d
        then Some (ip entry) else None
    | None => None
    end in
  match fresh with
  | Some cached =>
      {| res_ip := Some cached; res_err := None; res_cache := d;
         res_lookups := [] |}
  | None =>
      match LookupIP env host with
      | (_, Some err) =>
          {| res_ip := None;
             res_err := Some (fmt_Errorf_w ("DNS lookup failed for " +:+ host) err);
             res_cache := d; res_lookups := [host] |}
      | (ips, None) =>
          match ips with
          | [] =>
              {| res_ip := None;
                 res_err := Some (fmt_Errorf ("no IP found for " +:+ host));
                 res_cache := d; res_lookups := [host] |}
          | first :: _ =>
              let chosen :=
                match first_IPv4 ips with
                | Some candidate => candidate
                | None => first
                end in
              {| res_ip := Some chosen; res_err := None;
                 res_cache :=
                   {| cache := <[host := {| ip := chosen;
                                            timestamp := now_write env |}]>
                                 (cache d);
                      ttl := ttl d |};
                 res_lookups := [host] |}
          end
      end
  end.

(** *** [UDPConnectionPool] *)

(** [UDPConnection]. [conn_closed] is the state of the [net.Conn] of the
    field [conn]: whether [Close] was called on it. [readerDone] is the
    buffer of the channel, which has room for one value. *)
Record UDPConnection : Type := {
  conn : nat;
  conn_closed : bool;
  lastUsed : Z;
  client : string;
  targetAddr : string;
  resolvedIP : list Byte.byte;
  readerDone : list bool }.

(** [conn.lastUsed = now]. *)
Definition set_lastUsed (now : Z) (c : UDPConnection) : UDPConnection :=
  {| conn := conn c; conn_closed := conn_closed c; lastUsed := now;
     client := client c; targetAddr := targetAddr c;
     resolvedIP := resolvedIP c; readerDone := readerDone c |}.

(** [select { case conn.readerDone <- true: default: }] followed by
    [conn.conn.Close()]: the value is kept when the buffer has room and
    dropped when it has not. *)
Definition shut_down (c : UDPConnection) : UDPConnection :=
  {| conn := conn c; conn_closed := true; lastUsed := lastUsed c;
     client := client c; targetAddr := targetAddr c;
     resolvedIP := resolvedIP c;
     readerDone := if (length (readerDone c) <? 1)%nat
                   then readerDone c ++ [true] else readerDone c |}.

(** The pool stores pointers [*UDPConnection]: a connection lives in the
    memory [mem] at an address, and [connections] maps a key to an address,
    so that a connection reached under two keys, or kept by its reader, is
    one object. *)
Record UDPConnectionPool : Type := {
  mem : nat -> UDPConnection;
  connections : gmap string nat;
  dnsCache : DNSCache;
  maxSize : Z;
  currentSize : Z;
  mtu : Z;
  creationLock : gset string }.

Definition store (m : nat -> UDPConnection) (a : nat) (c : UDPConnection)
  : nat -> UDPConnection :=
  fun a' => if Nat.eqb a' a then c else m a'.

(** [NewUDPConnectionPool], in a memory [m]. *)
Definition NewUDPConnectionPool (m : nat -> UDPConnection)
    (maxSize mtu : Z) : UDPConnectionPool :=
  {| mem := m; connections := ∅;
     dnsCache := NewDNSCache (5 * 1000000000);
     maxSize := maxSize; currentSize := 0; mtu := mtu; creationLock := ∅ |}.

(** [Get]: the pointer found ([None] for [nil]), whether the key is there,
    and the pool afterwards. *)
Definition Get (key : string) (now : Z) (p : UDPConnectionPool)
  : option nat * bool * UDPConnectionPool :=
  match connections p !! key with
  | Some a =>
      (Some a, true,
       {| mem := store (mem p) a (set_lastUsed now (mem p a));
          connections := connections p; dnsCache := dnsCache p;
          maxSize := maxSize p; currentSize := currentSize p; mtu := mtu p;
          creationLock := creationLock p |})
  | None => (None, false, p)
  end.

(** What [Delete] does with a key under the lock, which is also the body of
    the last loop of [cleanupOldLocked] and of [cleanupOldestLocked]. *)
Definition remove_key (p : UDPConnectionPool) (key : string)
  : UDPConnectionPool :=
  match connections p !! key with
  | Some a =>
      {| mem := store (mem p) a (shut_down (mem p a));
         connections := delete key (connections p); dnsCache := dnsCache p;
         maxSize := maxSize p; currentSize := wrap_int (currentSize p - 1);
         mtu := mtu p; creationLock := creationLock p ∖ {[key]} |}
  | None =>
      {| mem := mem p; connections := connections p; dnsCache := dnsCache p;
         maxSize := maxSize p; currentSize := currentSize p; mtu := mtu p;
         creationLock := creationLock p ∖ {[key]} |}
  end.

(** [Delete]. *)
Definition Delete (key : string) (p : UDPConnectionPool) : UDPConnectionPool :=
  remove_key p key.

(** [p.connections[key].lastUsed]. In the scan of [cleanupOldestLocked] the
    key comes from the map, which the scan does not change. *)
Definition lastUsed_of (p : UDPConnectionPool) (key : string) : Z :=
  match connections p !! key with
  | Some a => lastUsed (mem p a)
  | None => 0
  end.

(** The inner loop of the scan of [cleanupOldestLocked]: the first slot of
    [oldest] that the connection of [key] was used before takes [key]. *)
Fixpoint replace_first (p : UDPConnectionPool) (key : string)
    (oldest : list string) : list string :=
  match oldest with
  | [] => []
  | oldKey :: rest =>
      if Time_Before (lastUsed_of p key) (lastUsed_of p oldKey)
      then key :: rest
      else oldKey :: replace_first p key rest
  end.

(** The body of the scan of [cleanupOldestLocked] for one key of the map. *)
Definition scan_step (p : UDPConnectionPool) (count : Z)
    (oldest : list string) (key : string) : list string :=
  if Z.of_nat (length oldest) <? count then oldest ++ [key]
  else replace_first p key oldest.

(** [cleanupOldestLocked]. A [range] over a Go map yields every key once, in
    an order the language does not fix: [order] is the order of this run. *)
Definition cleanupOldestLocked (count : Z) (order : list string)
    (p : UDPConnectionPool) : UDPConnectionPool :=
  if currentSize p <=? count then p
  else
    let oldest := fold_left (scan_step p count) order [] in
    fold_left remove_key oldest p.

(** [cleanupOldLocked], with the clock [now] and the order of its [range]. *)
Definition cleanupOldLocked (maxAge : Z) (now : Z) (order : list string)
    (p : UDPConnectionPool) : UDPConnectionPool :=
  let toDelete :=
    List.filter (fun key => maxAge <? Time_Sub now (lastUsed_of p key)) order in
  fold_left remove_key toDelete p.

(** [Cleanup]. *)
Definition Cleanup (maxAge : Z) (now : Z) (order : list string)
    (p : UDPConnectionPool) : UDPConnectionPool :=
  cleanupOldLocked maxAge now order p.

(** [Set], for the pointer [a], with the clock [now] and the order of the
    [range] of the eviction, should it run. *)
Definition Set_ (key : string) (a : nat) (now : Z) (order : list string)
    (p : UDPConnectionPool) : UDPConnectionPool :=
  let p := if maxSize p <=? currentSize p
           then cleanupOldestLocked 5 order p else p in
  {| mem := store (mem p) a (set_lastUsed now (mem p a));
     connections := <[key := a]> (connections p); dnsCache := dnsCache p;
     maxSize := maxSize p; currentSize := wrap_int (currentSize p + 1);
     mtu := mtu p; creationLock := creationLock p |}.

(** An operation of the pool, with what the run supplies to it, and a
    sequence of operations from a pool. *)
Inductive pool_op : Type :=
| OpGet (key : string) (now : Z)
| OpSet (key : string) (a : nat) (now : Z) (order : list string)
| OpDelete (key : string)
| OpCleanup (maxAge : Z) (now : Z) (order : list string).

Definition run_op (p : UDPConnectionPool) (op : pool_op) : UDPConnectionPool :=
  match op with
  | OpGet key now => (Get key now p).2
  | OpSet key a now order => Set_ key a now order p
  | OpDelete key => Delete key p
  | OpCleanup maxAge now order => Cleanup maxAge now order p
  end.

Definition run_ops (ops : list pool_op) (p : UDPConnectionPool)
  : UDPConnectionPool :=
  fold_left run_op ops p.

(** ** The vocabulary of the properties *)

(** *** Validation *)

(** No AmneziaWG field other than [S1]..[S4] is set. *)
Definition only_sizes_set (c : ASecConfigType) : Prop :=
  hasJunkPacketCount c = false /\ hasJunkPacketMinSize c = false
  /\ hasJunkPacketMaxSize c = false
  /\ hasInitPacketMagicHeader c = false
  /\ hasResponsePacketMagicHeader c = false
  /\ hasUnderloadPacketMagicHeader c = false
  /\ hasTransportPacketMagicHeader c = false
  /\ i1 c = None /\ i2 c = None /\ i3 c = None /\ i4 c = None /\ i5 c = None.

(** Every one of [S1]..[S4] that is set lies in [0, 1280]. *)
Definition sizes_in_range (c : ASecConfigType) : Prop :=
  (hasInitPacketJunkSize c = true -> 0 <= initPacketJunkSize c <= 1280)
  /\ (hasResponsePacketJunkSize c = true
      -> 0 <= responsePacketJunkSize c <= 1280)
  /\ (hasCookieReplyPacketJunkSize c = true
      -> 0 <= cookieReplyPacketJunkSize c <= 1280)
  /\ (hasTransportPacketJunkSize c = true
      -> 0 <= transportPacketJunkSize c <= 1280).

(** The sums [148+S1], [92+S2], [64+S3], [32+S4] of the fields that are
    set, as the specification writes them. *)
Definition set_sums (c : ASecConfigType) : list Z :=
  (if hasInitPacketJunkSize c then [148 + initPacketJunkSize c] else [])
  ++ (if hasResponsePacketJunkSize c
      then [92 + responsePacketJunkSize c] else [])
  ++ (if hasCookieReplyPacketJunkSize c
      then [64 + cookieReplyPacketJunkSize c] else [])
  ++ (if hasTransportPacketJunkSize c
      then [32 + transportPacketJunkSize c] else []).

(** The sizes [ValidateASecConfig] compares: those of the entries of
    [packetSizes] that are set. *)
Definition set_sizes (c : ASecConfigType) : list Z :=
  map size (List.filter isSet (packetSizes c)).

(** Two intervals at different places of a list overlap, bounds included. *)
Definition some_two_overlap (l : list headerInterval) : Prop :=
  exists (i j : nat) (a b : headerInterval),
    i <> j /\ l !! i = Some a /\ l !! j = Some b
    /\ min a <= max b /\ min b <= max a.

(** The checks [ValidateASecConfig] makes before it compares the header
    intervals all pass. *)
Definition earlier_checks_pass (c : ASecConfigType) : Prop :=
  (hasJunkPacketCount c = true -> 1 <= junkPacketCount c <= 128)
  /\ (hasJunkPacketMinSize c = true -> hasJunkPacketMaxSize c = true
      -> junkPacketMinSize c <= junkPacketMaxSize c)
  /\ (hasJunkPacketMaxSize c = true -> junkPacketMaxSize c <= 1280)
  /\ NoDup (set_sizes c)
  /\ Forall (fun interval => min interval <= max interval)
       (collectEffectiveHeaderIntervals (Some c)).

(** The checks [ValidateASecConfig] makes before the packet sizes pass. *)
Definition junk_checks_pass (c : ASecConfigType) : Prop :=
  (hasJunkPacketCount c = true -> 1 <= junkPacketCount c <= 128)
  /\ (hasJunkPacketMinSize c = true -> hasJunkPacketMaxSize c = true
      -> junkPacketMinSize c <= junkPacketMaxSize c)
  /\ (hasJunkPacketMaxSize c = true -> junkPacketMaxSize c <= 1280).

(** A configuration with [Jc = 200] and [H1 = 2] and nothing else. *)
Definition config_Jc200_H1_2 : ASecConfigType :=
  set_initPacketMagicHeader 2 2 (set_junkPacketCount 200 zero_ASecConfig).

(** A configuration with [H1 = 2] and nothing else. *)
Definition config_H1_2 : ASecConfigType :=
  set_initPacketMagicHeader 2 2 zero_ASecConfig.

(** *** Literals of the H fields *)

Definition is_digit (c : ascii) : bool :=
  (48 <=? Z.of_nat (nat_of_ascii c)) && (Z.of_nat (nat_of_ascii c) <=? 57).

Fixpoint all_digits (s : string) : bool :=
  match s with
  | EmptyString => true
  | String c rest => is_digit c && all_digits rest
  end.

(** The number a string of decimal digits denotes, read from the left after
    the digits that gave [n]. *)
Fixpoint decimal_value_from (n : Z) (s : string) : Z :=
  match s with
  | EmptyString => n
  | String c rest =>
      decimal_value_from (10 * n + (Z.of_nat (nat_of_ascii c) - 48)) rest
  end.

Definition decimal_value (s : string) : Z := decimal_value_from 0 s.

(** The decimal numeral of a 32-bit unsigned number: digits only, at least
    one, no zero in front of another digit, a value below [2^32]. *)
Definition uint32_decimal (s : string) : bool :=
  match s with
  | EmptyString => false
  | String c rest =>
      all_digits s
      && (negb (Ascii.eqb c "0") || String.eqb rest "")
      && (String.length s <=? 10)%nat
      && (decimal_value s <=? maxUint32)
  end.

(** Parsing a literal of an H field and emitting the interval again:
    [None] when the literal is refused. *)
Definition parse_then_emit (literal : string) : option string :=
  match parseMagicHeaderInterval literal with
  | (minValue, maxValue, None) =>
      Some (formatMagicHeaderInterval minValue maxValue)
  | (_, _, Some _) => None
  end.

(** *** The IPC text *)

(** The AmneziaWG fields, in the order the specification lists them. *)
Inductive awg_field : Type :=
| F_jc | F_jmin | F_jmax | F_s1 | F_s2 | F_s3 | F_s4
| F_h1 | F_h2 | F_h3 | F_h4 | F_i1 | F_i2 | F_i3 | F_i4 | F_i5.

Definition awg_order : list awg_field :=
  [F_jc; F_jmin; F_jmax; F_s1; F_s2; F_s3; F_s4;
   F_h1; F_h2; F_h3; F_h4; F_i1; F_i2; F_i3; F_i4; F_i5].

Definition awg_key (f : awg_field) : string :=
  match f with
  | F_jc => "jc" | F_jmin => "jmin" | F_jmax => "jmax"
  | F_s1 => "s1" | F_s2 => "s2" | F_s3 => "s3" | F_s4 => "s4"
  | F_h1 => "h1" | F_h2 => "h2" | F_h3 => "h3" | F_h4 => "h4"
  | F_i1 => "i1" | F_i2 => "i2" | F_i3 => "i3" | F_i4 => "i4" | F_i5 => "i5"
  end.

(** An H field as the specification prints it: N for a scalar, N-M for a
    range. *)
Definition header_text (lo hi : Z) : string :=
  if lo =? hi then strconv.FormatUint lo
  else strconv.FormatUint lo +:+ "-" +:+ strconv.FormatUint hi.

(** The text of a field in the IPC output: [None] when the field is not
    set. *)
Definition awg_value (c : ASecConfigType) (f : awg_field) : option string :=
  let int (has : bool) (v : Z) :=
    if has then Some (strconv.FormatInt v) else None in
  let header (has : bool) (lo hi : Z) :=
    if has then Some (header_text lo hi) else None in
  match f with
  | F_jc => int (hasJunkPacketCount c) (junkPacketCount c)
  | F_jmin => int (hasJunkPacketMinSize c) (junkPacketMinSize c)
  | F_jmax => int (hasJunkPacketMaxSize c) (junkPacketMaxSize c)
  | F_s1 => int (hasInitPacketJunkSize c) (initPacketJunkSize c)
  | F_s2 => int (hasResponsePacketJunkSize c) (responsePacketJunkSize c)
  | F_s3 => int (hasCookieReplyPacketJunkSize c) (cookieReplyPacketJunkSize c)
  | F_s4 => int (hasTransportPacketJunkSize c) (transportPacketJunkSize c)
  | F_h1 => header (hasInitPacketMagicHeader c) (initPacketMagicHeader c)
              (initPacketMagicHeaderMax c)
  | F_h2 => header (hasResponsePacketMagicHeader c)
              (responsePacketMagicHeader c) (responsePacketMagicHeaderMax c)
  | F_h3 => header (hasUnderloadPacketMagicHeader c)
              (underloadPacketMagicHeader c) (underloadPacketMagicHeaderMax c)
  | F_h4 => header (hasTransportPacketMagicHeader c)
              (transportPacketMagicHeader c) (transportPacketMagicHeaderMax c)
  | F_i1 => i1 c | F_i2 => i2 c | F_i3 => i3 c | F_i4 => i4 c | F_i5 => i5 c
  end.

(** A field is set in the configuration of a device. *)
Definition field_set (conf : DeviceConfig) (f : awg_field) : Prop :=
  exists (c : ASecConfigType) (v : string),
    ASecConfig conf = Some c /\ awg_value c f = Some v.

(** The lines [key=value] of the fields that are set, in the fixed order. *)
Definition awg_lines (c : ASecConfigType) : list string :=
  omap (fun f => (fun v => awg_key f +:+ "=" +:+ v) <$> awg_value c f)
       awg_order.

Definition device_awg_lines (conf : DeviceConfig) : list string :=
  match ASecConfig conf with
  | Some c => awg_lines c
  | None => []
  end.

(** The lines of a text: its pieces between line feeds. *)
Definition text_lines (text : string) : list string :=
  gostrings.Split text "010".

(** [strings.HasPrefix(s, prefix)]. *)
Fixpoint HasPrefix (s : string) (prefix : string) {struct prefix} : bool :=
  match prefix with
  | EmptyString => true
  | String a prefix' =>
      match s with
      | EmptyString => false
      | String b s' => Ascii.eqb a b && HasPrefix s' prefix'
      end
  end.

(** A line [key=...] of an AmneziaWG field. *)
Definition is_line_of (f : awg_field) (line : string) : bool :=
  HasPrefix line (awg_key f +:+ "=").
Definition is_awg_line (line : string) : bool :=
  existsb (fun f => is_line_of f line) awg_order.

(** The text has a line [key=value] for the field. *)
Definition has_line (text : string) (f : awg_field) : Prop :=
  exists line : string, In line (text_lines text) /\ is_line_of f line = true.

(** A string without line feed. *)
Fixpoint single_line (s : string) : bool :=
  match s with
  | EmptyString => true
  | String c rest => negb (Ascii.eqb c "010") && single_line rest
  end.

Definition single_line_opt (p : option string) : bool :=
  match p with
  | Some v => single_line v
  | None => true
  end.

(** No text of the configuration has a line feed in it. *)
Definition single_line_config (conf : DeviceConfig) : bool :=
  single_line (SecretKey conf)
  && match ASecConfig conf with
     | Some c =>
         single_line_opt (i1 c) && single_line_opt (i2 c)
         && single_line_opt (i3 c) && single_line_opt (i4 c)
         && single_line_opt (i5 c)
     | None => true
     end
  && forallb
       (fun peer =>
          single_line (PublicKey peer) && single_line (PreSharedKey peer)
          && single_line_opt (Endpoint peer)
          && forallb (fun ip => single_line (netip.Prefix_String ip))
               (AllowedIPs peer))
       (Peers conf).

(** A device whose only AmneziaWG field is I1, a text of two lines. *)
Definition two_line_I1 : DeviceConfig :=
  {| SecretKey := "00";
     conf_Endpoint := []; Peers := []; DNS := []; MTU := 1420;
     ListenPort := None;
     ASecConfig :=
       Some (set_i1 ("x" +:+ String "010" "jc=9") zero_ASecConfig) |}.

(** A section with [Jc = 5] and [H1 = 100-200]. *)
Definition section_Jc_H1 : ini.Section :=
  fun name =>
    if String.eqb name "Jc"
    then Some {| ini.Key_String := "5"; ini.Key_Int := (5, None) |}
    else if String.eqb name "H1"
    then Some {| ini.Key_String := "100-200";
                 ini.Key_Int := (0, Some (lib_error "not an integer")) |}
    else None.

(** Lines put together, each followed by a line feed. *)
Definition join_lines (lines : list string) : string :=
  fold_right (fun line text => line +:+ nl +:+ text) EmptyString lines.

(** The lines of a peer in the IPC text. *)
Definition peer_lines (peer : PeerConfig) : list string :=
  [ "public_key=" +:+ PublicKey peer;
    "persistent_keepalive_interval=" +:+ strconv.FormatInt (KeepAlive peer);
    "preshared_key=" +:+ PreSharedKey peer ]
  ++ match Endpoint peer with
     | Some endpoint => ["endpoint=" +:+ endpoint]
     | None => []
     end
  ++ match AllowedIPs peer with
     | [] => ["allowed_ip=0.0.0.0/0"; "allowed_ip=::0/0"]
     | ips => map (fun ip => "allowed_ip=" +:+ netip.Prefix_String ip) ips
     end.

(** The lines of the IPC text before and after the AmneziaWG block. *)
Definition head_lines (conf : DeviceConfig) : list string :=
  ("private_key=" +:+ SecretKey conf)
  :: match ListenPort conf with
     | Some port => ["listen_port=" +:+ strconv.FormatInt port]
     | None => []
     end.
Definition tail_lines (conf : DeviceConfig) : list string :=
  flat_map peer_lines (Peers conf).

(** A device whose only AmneziaWG field is I1, a text of one line. *)
Definition handshake_only : DeviceConfig :=
  {| SecretKey := "2c0af5";
     conf_Endpoint := []; Peers := []; DNS := []; MTU := 1420;
     ListenPort := None;
     ASecConfig := Some (set_i1 "<b 0xA1B2C3D4E5F6><c>" zero_ASecConfig) |}.

(** *** Datagrams of the request table *)

(** RSV = 00 00, FRAG = 00, ATYP, DST.ADDR, DST.PORT, payload. *)
Definition request_datagram (atyp : Byte.byte) (addr : list Byte.byte)
    (port_hi port_lo : Byte.byte) (payload : list Byte.byte)
  : list Byte.byte :=
  [Byte.x00; Byte.x00; Byte.x00; atyp] ++ addr ++ [port_hi; port_lo]
  ++ payload.

(** DST.ADDR is complete for its ATYP: 4 bytes for IPv4, a length byte L and
    L bytes for a domain, 16 bytes for IPv6. *)
Definition complete_addr (atyp : Byte.byte) (addr : list Byte.byte) : Prop :=
  (atyp = Byte.x01 /\ length addr = 4%nat)
  \/ (atyp = Byte.x03
      /\ exists (len : Byte.byte) (name : list Byte.byte),
           addr = len :: name /\ length name = N.to_nat (Byte.to_N len))
  \/ (atyp = Byte.x04 /\ length addr = 16%nat).

(** The host a complete DST.ADDR declares: the text of the address, or the
    name of the domain. *)
Definition declared_host (IP_String : list Byte.byte -> string)
    (atyp : Byte.byte) (addr : list Byte.byte) : string :=
  match atyp with
  | Byte.x01 =>
      IP_String (net_IPv4 (byte_at addr 0) (byte_at addr 1)
                          (byte_at addr 2) (byte_at addr 3))
  | Byte.x03 => String.string_of_list_byte (tl addr)
  | _ => IP_String addr
  end.

(** The port two bytes declare, the first the more significant. *)
Definition declared_port (port_hi port_lo : Byte.byte) : Z :=
  256 * Z.of_N (Byte.to_N port_hi) + Z.of_N (Byte.to_N port_lo).

(** The length of the header the first bytes of a datagram declare. *)
Definition declared_header_length (data : list Byte.byte) : nat :=
  match byte_at data 3 with
  | Byte.x01 => 10
  | Byte.x03 => 7 + N.to_nat (Byte.to_N (byte_at data 4))
  | Byte.x04 => 22
  | _ => 0
  end.

(** A datagram the request table refuses: RSV, FRAG or ATYP is invalid, or
    the header it declares is longer than the datagram. *)
Definition refused (data : list Byte.byte) : Prop :=
  byte_at data 0 <> Byte.x00 \/ byte_at data 1 <> Byte.x00
  \/ byte_at data 2 <> Byte.x00
  \/ (byte_at data 3 <> Byte.x01 /\ byte_at data 3 <> Byte.x03
      /\ byte_at data 3 <> Byte.x04)
  \/ (length data < declared_header_length data)%nat.

(** The domain [a], port 53, no payload: 8 bytes. *)
Definition short_domain_datagram : list Byte.byte :=
  request_datagram Byte.x03 [Byte.x01; Byte.x61] Byte.x00 Byte.x35 [].

(** *** Resolution of a host *)

(** The address chosen among the answers of a lookup: the first one that is
    an IPv4 address if there is one, the first one otherwise. *)
Definition chosen_from (ips : list (list Byte.byte))
    (chosen : list Byte.byte) : Prop :=
  (exists before after : list (list Byte.byte),
     ips = before ++ chosen :: after /\ To4 chosen <> None
     /\ Forall (fun candidate => To4 candidate = None) before)
  \/ (Forall (fun candidate => To4 candidate = None) ips
      /\ head ips = Some chosen).

(** A cache of five seconds that knows nothing, and a run in which the
    lookup answers an IPv6 address and then an IPv4 address. *)
Definition empty_cache : DNSCache := NewDNSCache (5 * 1000000000).
Definition lookup_v6_v4 : resolve_env :=
  {| now_read := 100;
     LookupIP := fun _ =>
       ([repeat Byte.x20 16; [Byte.x0a; Byte.x00; Byte.x00; Byte.x01]], None);
     now_write := 101 |}.

(** *** The pool *)

(** What the specification says of one step of the scan of the capacity
    eviction: the key fills a free slot of the buffer, or replaces the
    first buffered key whose connection was last used strictly before the
    connection of the key. *)
Definition claimed_step (p : UDPConnectionPool) (count : Z)
    (oldest : list string) (key : string) (oldest' : list string) : Prop :=
  (Z.of_nat (length oldest) < count /\ oldest' = oldest ++ [key])
  \/ (exists (i : nat) (oldKey : string),
        oldest !! i = Some oldKey
        /\ lastUsed_of p oldKey < lastUsed_of p key
        /\ (forall (j : nat) (k : string),
              (j < i)%nat -> oldest !! j = Some k ->
              ~ lastUsed_of p k < lastUsed_of p key)
        /\ oldest' = <[i := key]> oldest).

(** The step with the comparison the other way round, and the case in which
    the buffer is left as it is. *)
Definition older_step (p : UDPConnectionPool) (count : Z)
    (oldest : list string) (key : string) (oldest' : list string) : Prop :=
  (Z.of_nat (length oldest) < count /\ oldest' = oldest ++ [key])
  \/ (count <= Z.of_nat (length oldest)
      /\ exists (i : nat) (oldKey : string),
           oldest !! i = Some oldKey
           /\ lastUsed_of p key < lastUsed_of p oldKey
           /\ (forall (j : nat) (k : string),
                 (j < i)%nat -> oldest !! j = Some k ->
                 ~ lastUsed_of p key < lastUsed_of p k)
           /\ oldest' = <[i := key]> oldest)
  \/ (count <= Z.of_nat (length oldest)
      /\ (forall k : string,
            In k oldest -> ~ lastUsed_of p key < lastUsed_of p k)
      /\ oldest' = oldest).

(** A connection is shut down: its reader has a signal to read and its
    tunnel connection is closed. *)
Definition is_shut_down (c : UDPConnection) : Prop :=
  conn_closed c = true /\ readerDone c <> [].

(** A memory of connections that were never used, with open channels. *)
Definition fresh_connection : UDPConnection :=
  {| conn := 0; conn_closed := false; lastUsed := 0; client := EmptyString;
     targetAddr := EmptyString; resolvedIP := []; readerDone := [] |}.
Definition fresh_mem : nat -> UDPConnection := fun _ => fresh_connection.

(** A pool of six connections: that of [f] was last used at 0, those of
    [a], [b], [c], [d], [e] at 10, 20, 30, 40, 50. *)
Definition pool_of_six : UDPConnectionPool :=
  {| mem := fun a => set_lastUsed (Z.of_nat a * 10) fresh_connection;
     connections :=
       list_to_map [("a", 1%nat); ("b", 2%nat); ("c", 3%nat); ("d", 4%nat);
                    ("e", 5%nat); ("f", 0%nat)];
     dnsCache := NewDNSCache (5 * 1000000000);
     maxSize := 6; currentSize := 6; mtu := 1420; creationLock := ∅ |}.

(** Every [Set] of a sequence of operations is for a key that is not in the
    pool at that time. *)
Fixpoint sets_fresh (ops : list pool_op) (p : UDPConnectionPool) : Prop :=
  match ops with
  | [] => True
  | op :: rest =>
      match op with
      | OpSet key _ _ _ => connections p !! key = None
      | _ => True
      end
      /\ sets_fresh rest (run_op p op)
  end.

(** *** Auxiliary notions *)

(** The first digit of a numeral is not a zero. *)
Definition leading_nonzero (s : string) : Prop :=
  match s with
  | EmptyString => True
  | String c _ => Ascii.eqb c "0" = false
  end.

(** Every header field that is set has its lower bound below its upper
    bound. *)
Definition headers_ordered (config : option ASecConfigType) : Prop :=
  match config with
  | None => True
  | Some c =>
      (hasInitPacketMagicHeader c = true ->
       initPacketMagicHeader c <= initPacketMagicHeaderMax c)
      /\ (hasResponsePacketMagicHeader c = true ->
          responsePacketMagicHeader c <= responsePacketMagicHeaderMax c)
      /\ (hasUnderloadPacketMagicHeader c = true ->
          underloadPacketMagicHeader c <= underloadPacketMagicHeaderMax c)
      /\ (hasTransportPacketMagicHeader c = true ->
          transportPacketMagicHeader c <= transportPacketMagicHeaderMax c)
  end.

(** [currentSize] is the number of keys of the map. *)
Definition size_agrees (p : UDPConnectionPool) : Prop :=
  currentSize p = Z.of_nat (base.size (connections p)).


(** ** Further notions: the AmneziaWG record *)

(** A string of decimal digits, at least one. *)
Definition digits (a : string) : Prop :=
  a <> EmptyString /\ all_digits a = true.

(** What a field of the record holds: an integer, an interval or a text. *)
Inductive field_value : Type :=
| IntV (v : Z)
| RangeV (lo hi : Z)
| TextV (s : string).

(** The value a field of the record holds: [None] when it is not set. *)
Definition stored_value (c : ASecConfigType) (f : awg_field)
  : option field_value :=
  let int (has : bool) (v : Z) := if has then Some (IntV v) else None in
  let range (has : bool) (lo hi : Z) :=
    if has then Some (RangeV lo hi) else None in
  match f with
  | F_jc => int (hasJunkPacketCount c) (junkPacketCount c)
  | F_jmin => int (hasJunkPacketMinSize c) (junkPacketMinSize c)
  | F_jmax => int (hasJunkPacketMaxSize c) (junkPacketMaxSize c)
  | F_s1 => int (hasInitPacketJunkSize c) (initPacketJunkSize c)
  | F_s2 => int (hasResponsePacketJunkSize c) (responsePacketJunkSize c)
  | F_s3 => int (hasCookieReplyPacketJunkSize c) (cookieReplyPacketJunkSize c)
  | F_s4 => int (hasTransportPacketJunkSize c) (transportPacketJunkSize c)
  | F_h1 => range (hasInitPacketMagicHeader c) (initPacketMagicHeader c)
              (initPacketMagicHeaderMax c)
  | F_h2 => range (hasResponsePacketMagicHeader c)
              (responsePacketMagicHeader c) (responsePacketMagicHeaderMax c)
  | F_h3 => range (hasUnderloadPacketMagicHeader c)
              (underloadPacketMagicHeader c) (underloadPacketMagicHeaderMax c)
  | F_h4 => range (hasTransportPacketMagicHeader c)
              (transportPacketMagicHeader c) (transportPacketMagicHeaderMax c)
  | F_i1 => TextV <$> i1 c | F_i2 => TextV <$> i2 c | F_i3 => TextV <$> i3 c
  | F_i4 => TextV <$> i4 c | F_i5 => TextV <$> i5 c
  end.

Definition stored_in (config : option ASecConfigType) (f : awg_field)
  : option field_value :=
  match config with
  | Some c => stored_value c f
  | None => None
  end.

(** The name [ParseASecConfig] asks the section for. *)
Definition section_key (f : awg_field) : string :=
  match f with
  | F_jc => "Jc" | F_jmin => "Jmin" | F_jmax => "Jmax"
  | F_s1 => "S1" | F_s2 => "S2" | F_s3 => "S3" | F_s4 => "S4"
  | F_h1 => "H1" | F_h2 => "H2" | F_h3 => "H3" | F_h4 => "H4"
  | F_i1 => "I1" | F_i2 => "I2" | F_i3 => "I3" | F_i4 => "I4" | F_i5 => "I5"
  end.

(** What a key says for a field: the integer [Int()] returns, the interval
    its text denotes, or its text. *)
Definition key_value (f : awg_field) (k : ini.Key) : field_value :=
  match f with
  | F_jc | F_jmin | F_jmax | F_s1 | F_s2 | F_s3 | F_s4 =>
      IntV (ini.Key_Int k).1
  | F_h1 | F_h2 | F_h3 | F_h4 =>
      RangeV (parseMagicHeaderInterval (ini.Key_String k)).1.1
             (parseMagicHeaderInterval (ini.Key_String k)).1.2
  | _ => TextV (ini.Key_String k)
  end.

(** A key can be read for a field: [Int()] returns no error for an integer
    field, the text is an accepted literal for a header field. *)
Definition key_readable (f : awg_field) (k : ini.Key) : Prop :=
  match f with
  | F_jc | F_jmin | F_jmax | F_s1 | F_s2 | F_s3 | F_s4 =>
      (ini.Key_Int k).2 = None
  | F_h1 | F_h2 | F_h3 | F_h4 =>
      (parseMagicHeaderInterval (ini.Key_String k)).2 = None
  | _ => True
  end.

(** What the section says of a field: [None] when it has no key for it. *)
Definition section_value (section : ini.Section) (f : awg_field)
  : option field_value :=
  match section (section_key f) with
  | None => None
  | Some k => Some (key_value f k)
  end.

(** The place of a field in the order of the keys. *)
Definition rank (f : awg_field) : nat :=
  match f with
  | F_jc => 0 | F_jmin => 1 | F_jmax => 2
  | F_s1 => 3 | F_s2 => 4 | F_s3 => 5 | F_s4 => 6
  | F_h1 => 7 | F_h2 => 8 | F_h3 => 9 | F_h4 => 10
  | F_i1 => 11 | F_i2 => 12 | F_i3 => 13 | F_i4 => 14 | F_i5 => 15
  end.

(** The state of [ParseASecConfig] after the keys of the first [n] fields:
    the record holds what the section says of these fields and nothing of
    the others, there is a record exactly when one of these keys is in the
    section, and each of these keys could be read. *)
Definition parsed_up_to (section : ini.Section) (n : nat)
    (config : option ASecConfigType) : Prop :=
  (forall f : awg_field,
     stored_in config f
     = if (rank f <? n)%nat then section_value section f else None)
  /\ (config <> None
      <-> exists f : awg_field,
            (rank f < n)%nat /\ section (section_key f) <> None)
  /\ (forall (f : awg_field) (k : ini.Key),
        (rank f < n)%nat -> section (section_key f) = Some k ->
        key_readable f k).

(** The bounds of the effective header intervals are 32-bit unsigned
    numbers, the lower one not above the upper one. *)
Definition intervals_uint32 (config : option ASecConfigType) : Prop :=
  Forall (fun interval =>
            0 <= min interval /\ min interval <= max interval
            /\ max interval <= maxUint32)
    (collectEffectiveHeaderIntervals config).

(** A section with the keys of a list, each with the text and the integer
    given. *)
Definition section_of (keys : list (string * (string * Z))) : ini.Section :=
  fun name =>
    match List.find (fun entry => String.eqb entry.1 name) keys with
    | Some entry =>
        Some {| ini.Key_String := entry.2.1;
                ini.Key_Int := (entry.2.2, None) |}
    | None => None
    end.

(** ** Further code of [socks5_udp.go] *)

(** *** [sendUDPResponseFast] *)

(** The conversion [byte(v)]: the low 8 bits. *)
Definition byte_of_Z (v : Z) : Byte.byte :=
  match Byte.of_N (Z.to_N (v mod 256)) with
  | Some b => b
  | None => Byte.x00
  end.

(** [copy(buf[lo:], src)] for a source that fits: the bytes of [src] are
    written from the index [lo] on. *)
Fixpoint copy_at (buf : list Byte.byte) (lo : nat) (src : list Byte.byte)
  : list Byte.byte :=
  match src with
  | [] => buf
  | b :: src' => copy_at (<[lo := b]> buf) (S lo) src'
  end.

(** [copy(buf[lo:hi], src)]: as many bytes as the shorter of the two has. *)
Definition copy (buf : list Byte.byte) (lo hi : nat) (src : list Byte.byte)
  : list Byte.byte :=
  copy_at buf lo (firstn (hi - lo) src).

(** [binary.BigEndian.PutUint16(buf[lo:lo+2], v)]. *)
Definition PutUint16 (buf : list Byte.byte) (lo : nat) (v : Z)
  : list Byte.byte :=
  <[S lo := byte_of_Z v]> (<[lo := byte_of_Z (v / 256)]> buf).

(** [sendUDPResponseFast]: the datagram it hands to [WriteToUDP]. [pooled]
    is the buffer [bufferPool.Get()] returns, with whatever an earlier use
    left in it; [make] gives a buffer of zeros. *)
Definition sendUDPResponseFast (pooled : list Byte.byte)
    (targetIP : list Byte.byte) (targetPort : Z) (data : list Byte.byte)
  : list Byte.byte :=
  let headerLen :=
    match To4 targetIP with Some _ => 10%nat | None => 22%nat end in
  let buf :=
    if (length pooled <? headerLen + length data)%nat
    then repeat Byte.x00 (headerLen + length data)
    else firstn (headerLen + length data) pooled in
  let buf := <[0%nat := Byte.x00]> buf in
  let buf := <[1%nat := Byte.x00]> buf in
  let buf := <[2%nat := Byte.x00]> buf in
  match To4 targetIP with
  | Some ip4 =>
      let buf := <[3%nat := Byte.x01]> buf in
      let buf := copy buf 4 8 ip4 in
      let buf := PutUint16 buf 8 (targetPort mod 65536) in
      copy buf 10 (length buf) data
  | None =>
      let buf := <[3%nat := Byte.x04]> buf in
      let buf := copy buf 4 20 targetIP in
      let buf := PutUint16 buf 20 (targetPort mod 65536) in
      copy buf 22 (length buf) data
  end.

(** *** [handleSocks5UDPPacketSync] *)

(** What the relay does with a datagram: it drops it (the header is
    malformed), writes its payload to the connection of the client, ignores
    it (a connection for the client is being created), or starts the
    creation of a connection for the host and port of the datagram. *)
Inductive packet_outcome : Type :=
| Dropped
| Forwarded (a : nat) (payload : list Byte.byte)
| Ignored
| Creating (host : string) (port : Z) (payload : list Byte.byte).

(** [creationLock.LoadOrStore(connKey, struct{}{})]: whether the key was
    there, and the pool afterwards. *)
Definition creationLock_LoadOrStore (connKey : string) (p : UDPConnectionPool)
  : bool * UDPConnectionPool :=
  if decide (connKey ∈ creationLock p) then (true, p)
  else (false,
        {| mem := mem p; connections := connections p;
           dnsCache := dnsCache p; maxSize := maxSize p;
           currentSize := currentSize p; mtu := mtu p;
           creationLock := {[connKey]} ∪ creationLock p |}).

(** [handleSocks5UDPPacketSync] for a datagram of the client whose address
    prints as [connKey], at the time [now]. *)
Definition handleSocks5UDPPacketSync (IP_String : list Byte.byte -> string)
    (connKey : string) (data : list Byte.byte) (now : Z)
    (p : UDPConnectionPool) : packet_outcome * UDPConnectionPool :=
  match parseSocks5HeaderFast IP_String data with
  | (host, port, headerLen, ok) =>
      if negb ok then (Dropped, p)
      else
        let payload := payload_of data headerLen in
        match Get connKey now p with
        | (Some udpConn, true, p') => (Forwarded udpConn payload, p')
        | (_, _, p') =>
            match creationLock_LoadOrStore connKey p' with
            | (true, p'') => (Ignored, p'')
            | (false, p'') => (Creating host port payload, p'')
            end
        end
  end.

(** *** One turn of the loop of [startUDPReader] *)

(** What [Read] returns after the deadline is set: a timeout, another
    error, or data. *)
Inductive read_result : Type :=
| ReadTimeout
| ReadError
| ReadData (bytes : list Byte.byte).

(** How a turn of the loop ends: the reader returns, goes on to the next
    turn, or sends the bytes it read to the client (with
    [sendUDPResponseFast]) and goes on. *)
Inductive reader_outcome : Type :=
| ReaderReturns
| ReaderContinues
| ReaderResponds (bytes : list Byte.byte).

(** [<-udpConn.readerDone] when a value is there. *)
Definition take_signal (c : UDPConnection) : UDPConnection :=
  {| conn := conn c; conn_closed := conn_closed c; lastUsed := lastUsed c;
     client := client c; targetAddr := targetAddr c;
     resolvedIP := resolvedIP c; readerDone := tl (readerDone c) |}.

(** One turn of the loop of [startUDPReader] for the connection at the
    address [a], started for the key [connKey]. *)
Definition reader_turn (a : nat) (connKey : string) (read : read_result)
    (now : Z) (p : UDPConnectionPool) : reader_outcome * UDPConnectionPool :=
  match readerDone (mem p a) with
  | _ :: _ =>
      (ReaderReturns,
       {| mem := store (mem p) a (take_signal (mem p a));
          connections := connections p; dnsCache := dnsCache p;
          maxSize := maxSize p; currentSize := currentSize p; mtu := mtu p;
          creationLock := creationLock p |})
  | [] =>
      match read with
      | ReadTimeout => (ReaderContinues, p)
      | ReadError => (ReaderReturns, Delete connKey p)
      | ReadData bytes =>
          (ReaderResponds bytes,
           {| mem := store (mem p) a (set_lastUsed now (mem p a));
              connections := connections p; dnsCache := dnsCache p;
              maxSize := maxSize p; currentSize := currentSize p;
              mtu := mtu p; creationLock := creationLock p |})
      end
  end.

(** *** The order of a [range] over the map of the pool *)

(** A [range] over a Go map yields every key of the map once: an order of
    the keys of [connections]. *)
Definition ranges_over (order : list string) (p : UDPConnectionPool) : Prop :=
  NoDup order /\ forall k : string, k ∈ order <-> is_Some (connections p !! k).


(** * Properties *)

(** ** Validation of the AmneziaWG record *)

Lemma wrap_int_small (z : Z) : - 2 ^ 63 <= z < 2 ^ 63 -> wrap_int z = z.
Proof.
  intros H. unfold wrap_int.
  rewrite Z.mod_small by lia. lia.
Qed.

Lemma packetSize_inner_spec (e : error) (p : packetSizeCheck)
    (rest : list packetSizeCheck) :
  packetSize_inner e p rest =
  if existsb (fun q => isSet q && (size p =? size q)) rest
  then Some e else None.
Proof.
  induction rest as [|q rest IH]; simpl; [reflexivity|].
  destruct (isSet q); simpl; [|exact IH].
  destruct (size p =? size q); simpl; [reflexivity|exact IH].
Qed.

(** The two loops find a collision exactly when two of the sizes that are
    set are equal. *)
Lemma packetSize_outer_None (e : error) (l : list packetSizeCheck) :
  packetSize_outer e l = None <-> NoDup (map size (List.filter isSet l)).
Proof.
  induction l as [|p l IH]; simpl.
  - split; [constructor|reflexivity].
  - destruct (isSet p) eqn:Hp; simpl; [|exact IH].
    rewrite packetSize_inner_spec, NoDup_cons.
    destruct (existsb _ l) eqn:Hex.
    + split; [discriminate|]. intros [Hnin _]. exfalso. apply Hnin.
      apply existsb_exists in Hex as (q & Hq & Hset).
      apply andb_true_iff in Hset as [Hs Heq]. apply Z.eqb_eq in Heq.
      rewrite Heq. apply list_elem_of_fmap. exists q. split; [reflexivity|].
      apply list_elem_of_In, filter_In. split; assumption.
    + rewrite IH. split; [|tauto]. intros Hnd. split; [|exact Hnd].
      intros Hin. apply list_elem_of_fmap in Hin as (q & Heq & Hq).
      apply list_elem_of_In, filter_In in Hq as [Hq Hs].
      assert (existsb (fun q => isSet q && (size p =? size q)) l = true)
        as Habs; [|congruence].
      apply existsb_exists. exists q. split; [assumption|].
      rewrite Hs, Heq, Z.eqb_refl. reflexivity.
Qed.

Lemma packetSize_outer_Some (e : error) (l : list packetSizeCheck) :
  packetSize_outer e l = None \/ packetSize_outer e l = Some e.
Proof.
  induction l as [|p l IH]; simpl; [left; reflexivity|].
  destruct (isSet p); simpl; [|exact IH].
  rewrite packetSize_inner_spec.
  destruct (existsb _ l); [right; reflexivity|exact IH].
Qed.

Lemma set_sizes_sums (c : ASecConfigType) :
  sizes_in_range c -> set_sizes c = set_sums c.
Proof.
  intros (H1 & H2 & H3 & H4). unfold set_sizes, set_sums, packetSizes.
  unfold messageInitiationSize, messageResponseSize, messageCookieReplySize,
    messageTransportSize. simpl.
  destruct (hasInitPacketJunkSize c), (hasResponsePacketJunkSize c),
    (hasCookieReplyPacketJunkSize c), (hasTransportPacketJunkSize c); simpl;
    rewrite ?wrap_int_small; try reflexivity;
    try (specialize (H1 eq_refl)); try (specialize (H2 eq_refl));
    try (specialize (H3 eq_refl)); try (specialize (H4 eq_refl)); lia.
Qed.

(** C1. For a record in which only some of S1..S4 are set, each within
    [0, 1280], [ValidateASecConfig] returns no error exactly when the sums
    148+S1, 92+S2, 64+S3, 32+S4 of the fields that are set are pairwise
    distinct. *)
Theorem validate_sizes_iff_distinct (c : ASecConfigType) :
  only_sizes_set c -> sizes_in_range c ->
  (ValidateASecConfig (Some c) = None <-> NoDup (set_sums c)).
Proof.
  intros (HJc & HJmin & HJmax & Hh1 & Hh2 & Hh3 & Hh4 & _) Hrange.
  rewrite <- (set_sizes_sums c Hrange). unfold set_sizes.
  rewrite <- (packetSize_outer_None (packetSize_error c)).
  unfold ValidateASecConfig, collectEffectiveHeaderIntervals.
  rewrite HJc, HJmin, HJmax, Hh1, Hh2, Hh3, Hh4.
  generalize (packetSize_outer (packetSize_error c) (packetSizes c)).
  intros [err|]; simpl; split; congruence.
Qed.

(** A record with S1 = 15, S2 = 18, S3 = 20, S4 = 23 and nothing else. *)
Lemma validate_sizes_iff_distinct_witness :
  let c := set_transportPacketJunkSize 23
             (set_cookieReplyPacketJunkSize 20
                (set_responsePacketJunkSize 18
                   (set_initPacketJunkSize 15 zero_ASecConfig))) in
  ValidateASecConfig (Some c) = None <-> NoDup (set_sums c).
Proof.
  intros c. apply (validate_sizes_iff_distinct c).
  - repeat split.
  - repeat split; simpl; lia.
Defined.

Lemma overlaps_sym (a b : headerInterval) : overlaps a b = overlaps b a.
Proof. unfold overlaps. apply andb_comm. Qed.

Lemma overlaps_true (a b : headerInterval) :
  overlaps a b = true <-> min a <= max b /\ min b <= max a.
Proof. unfold overlaps. rewrite andb_true_iff, !Z.leb_le. reflexivity. Qed.

(** The two loops of [hasOverlappingHeaderIntervals] find a pair exactly
    when two intervals at different places overlap. *)
Lemma hasOverlapping_iff (l : list headerInterval) :
  hasOverlappingHeaderIntervals l = true <-> some_two_overlap l.
Proof.
  induction l as [|h l IH]; simpl.
  - split; [discriminate|]. intros (i & j & a & b & _ & Ha & _).
    rewrite lookup_nil in Ha. discriminate.
  - destruct (existsb (overlaps h) l) eqn:Hex.
    + split; [intros _|reflexivity].
      apply existsb_exists in Hex as (b & Hb & Hov).
      apply list_elem_of_In, list_elem_of_lookup in Hb as [j Hj].
      apply overlaps_true in Hov.
      exists 0%nat, (S j), h, b. repeat split; try tauto; try assumption.
      discriminate.
    + rewrite IH. split.
      * intros (i & j & a & b & Hne & Ha & Hb & Hov).
        exists (S i), (S j), a, b. repeat split; try tauto; try assumption.
        congruence.
      * intros (i & j & a & b & Hne & Ha & Hb & Hov).
        assert (forall x, x ∈ l -> overlaps h x = false) as Hno.
        { intros x Hx. destruct (overlaps h x) eqn:Hhx; [|reflexivity].
          assert (existsb (overlaps h) l = true) as Habs; [|congruence].
          apply existsb_exists. exists x. split; [|assumption].
          apply list_elem_of_In. assumption. }
        destruct i as [|i], j as [|j]; simpl in Ha, Hb.
        -- congruence.
        -- injection Ha as <-. exfalso.
           assert (overlaps h b = true) as Habs
             by (apply overlaps_true; assumption).
           rewrite Hno in Habs; [discriminate|].
           apply list_elem_of_lookup. exists j. assumption.
        -- injection Hb as <-. exfalso.
           assert (overlaps h a = true) as Habs
             by (apply overlaps_true; tauto).
           rewrite Hno in Habs; [discriminate|].
           apply list_elem_of_lookup. exists i. assumption.
        -- exists i, j, a, b. repeat split; try tauto; try assumption.
           congruence.
Qed.

Lemma existsb_overlaps_perm (h : headerInterval) (l l' : list headerInterval) :
  Permutation l l' -> existsb (overlaps h) l = existsb (overlaps h) l'.
Proof.
  induction 1; simpl.
  - reflexivity.
  - rewrite IHPermutation. reflexivity.
  - destruct (overlaps h x), (overlaps h y); reflexivity.
  - congruence.
Qed.

(** The verdict does not depend on the order of the intervals. *)
Lemma hasOverlapping_perm (l l' : list headerInterval) :
  Permutation l l' ->
  hasOverlappingHeaderIntervals l = hasOverlappingHeaderIntervals l'.
Proof.
  induction 1; simpl.
  - reflexivity.
  - rewrite IHPermutation, (existsb_overlaps_perm x l l') by assumption.
    reflexivity.
  - rewrite (overlaps_sym x y).
    destruct (overlaps y x), (existsb (overlaps x) l),
      (existsb (overlaps y) l); reflexivity.
  - congruence.
Qed.

Lemma bounds_check_false (l : list headerInterval) :
  existsb (fun interval => max interval <? min interval) l = false
  <-> Forall (fun interval => min interval <= max interval) l.
Proof.
  induction l as [|h l IH]; simpl.
  - split; [constructor|reflexivity].
  - rewrite orb_false_iff, IH, Forall_cons, Z.ltb_ge. reflexivity.
Qed.

Lemma packetSize_error_not_unique (c : ASecConfigType) :
  packetSize_error c <> err_unique.
Proof.
  unfold packetSize_error.
  destruct (hasCookieReplyPacketJunkSize c || hasTransportPacketJunkSize c);
    discriminate.
Qed.

(** The junk checks, as the three tests of [ValidateASecConfig]. *)
Lemma junk_checks_bool (c : ASecConfigType) :
  junk_checks_pass c <->
  hasJunkPacketCount c
    && ((junkPacketCount c <? 1) || (128 <? junkPacketCount c)) = false
  /\ hasJunkPacketMinSize c && hasJunkPacketMaxSize c
     && (junkPacketMaxSize c <? junkPacketMinSize c) = false
  /\ hasJunkPacketMaxSize c && (1280 <? junkPacketMaxSize c) = false.
Proof.
  unfold junk_checks_pass.
  destruct (hasJunkPacketCount c), (hasJunkPacketMinSize c),
    (hasJunkPacketMaxSize c); simpl;
    rewrite ?orb_false_iff, ?Z.ltb_ge; intuition (try discriminate; try lia).
Qed.

(** [ValidateASecConfig] once the junk checks pass. *)
Lemma validate_after_junk (c : ASecConfigType) :
  junk_checks_pass c ->
  ValidateASecConfig (Some c) =
  match packetSize_outer (packetSize_error c) (packetSizes c) with
  | Some err => Some err
  | None =>
      let intervals := collectEffectiveHeaderIntervals (Some c) in
      if existsb (fun interval => max interval <? min interval) intervals
      then Some err_bounds
      else if hasOverlappingHeaderIntervals intervals
      then Some err_unique else None
  end.
Proof.
  intros H. apply junk_checks_bool in H as (H1 & H2 & H3).
  unfold ValidateASecConfig. rewrite H1, H2, H3. reflexivity.
Qed.

(** [ValidateASecConfig] when a junk check fails: one of the three errors
    of those checks. *)
Lemma validate_junk_fails (c : ASecConfigType) :
  ~ junk_checks_pass c ->
  ValidateASecConfig (Some c) = Some err_Jc
  \/ ValidateASecConfig (Some c) = Some err_Jmin
  \/ ValidateASecConfig (Some c) = Some err_Jmax.
Proof.
  intros H. rewrite junk_checks_bool in H. unfold ValidateASecConfig.
  destruct (hasJunkPacketCount c
            && ((junkPacketCount c <? 1) || (128 <? junkPacketCount c)));
    [left; reflexivity|].
  destruct (hasJunkPacketMinSize c && hasJunkPacketMaxSize c
            && (junkPacketMaxSize c <? junkPacketMinSize c));
    [right; left; reflexivity|].
  destruct (hasJunkPacketMaxSize c && (1280 <? junkPacketMaxSize c));
    [right; right; reflexivity|].
  exfalso. apply H. repeat split.
Qed.

Lemma junk_checks_dec (c : ASecConfigType) :
  junk_checks_pass c \/ ~ junk_checks_pass c.
Proof.
  rewrite junk_checks_bool.
  destruct (hasJunkPacketCount c
            && ((junkPacketCount c <? 1) || (128 <? junkPacketCount c)));
    [right; intros (H & _); discriminate|].
  destruct (hasJunkPacketMinSize c && hasJunkPacketMaxSize c
            && (junkPacketMaxSize c <? junkPacketMinSize c));
    [right; intros (_ & H & _); discriminate|].
  destruct (hasJunkPacketMaxSize c && (1280 <? junkPacketMaxSize c));
    [right; intros (_ & _ & H); discriminate|].
  left. repeat split.
Qed.

(** The error of overlapping headers is returned exactly when every earlier
    check passes and two effective intervals overlap. *)
Lemma validate_unique_iff (c : ASecConfigType) :
  ValidateASecConfig (Some c) = Some err_unique
  <-> earlier_checks_pass c
      /\ some_two_overlap (collectEffectiveHeaderIntervals (Some c)).
Proof.
  unfold earlier_checks_pass.
  destruct (junk_checks_dec c) as [Hj|Hj].
  - rewrite (validate_after_junk c Hj). unfold set_sizes.
    rewrite <- (packetSize_outer_None (packetSize_error c)),
      <- bounds_check_false, <- hasOverlapping_iff.
    destruct (packetSize_outer_Some (packetSize_error c) (packetSizes c))
      as [-> | ->].
    + cbv zeta.
      destruct (existsb _ (collectEffectiveHeaderIntervals (Some c))),
        (hasOverlappingHeaderIntervals (collectEffectiveHeaderIntervals (Some c)));
        destruct Hj as (? & ? & ?);
        intuition (try discriminate; try congruence).
    + pose proof (packetSize_error_not_unique c).
      split; [congruence|]. intros (( _ & _ & _ & Habs & _) & _).
      discriminate.
  - split.
    + intros H. destruct (validate_junk_fails c Hj) as [H'|[H'|H']];
        rewrite H' in H; discriminate.
    + intros ((H1 & H2 & H3 & _) & _). exfalso. apply Hj.
      exact (conj H1 (conj H2 H3)).
Qed.

(** C2, as amended. For every record, [ValidateASecConfig] returns the error
    of the H1-H4 fields exactly when every earlier check passes and two of
    the four effective header intervals overlap, bounds included; a record
    with only H1 = 2 is rejected with that error, because of the default
    H2 = 2; and the verdict does not depend on the order of a pair nor on
    the order of the intervals. *)
Theorem header_overlap_verdict :
  (forall c : ASecConfigType,
     ValidateASecConfig (Some c) = Some err_unique
     <-> earlier_checks_pass c
         /\ some_two_overlap (collectEffectiveHeaderIntervals (Some c)))
  /\ ValidateASecConfig (Some config_H1_2) = Some err_unique
  /\ (forall a b : headerInterval, overlaps a b = overlaps b a)
  /\ (forall l l' : list headerInterval,
        Permutation l l' ->
        hasOverlappingHeaderIntervals l = hasOverlappingHeaderIntervals l').
Proof.
  split; [exact validate_unique_iff|].
  split; [reflexivity|].
  split; [exact overlaps_sym|exact hasOverlapping_perm].
Qed.

(** C2, as stated, fails: with Jc = 200 and H1 = 2 the effective intervals
    of H1 and H2 overlap, and the error returned is that of Jc. *)
Lemma header_overlap_counterexample :
  ~ (ValidateASecConfig (Some config_Jc200_H1_2) = Some err_unique
     <-> some_two_overlap
           (collectEffectiveHeaderIntervals (Some config_Jc200_H1_2))).
Proof.
  intros [_ H].
  assert (ValidateASecConfig (Some config_Jc200_H1_2) = Some err_Jc) as HJc
    by reflexivity.
  rewrite HJc in H.
  assert (Some err_Jc = Some err_unique) as Habs; [|discriminate].
  apply H. apply hasOverlapping_iff. reflexivity.
Qed.

(** C3. When the packet sizes collide (the junk checks passed and two of the
    sizes that are set are equal), the error is the long text if S3 or S4
    is set and the short text otherwise, whichever pair collided. *)
Theorem collision_error_text (c : ASecConfigType) :
  junk_checks_pass c -> ~ NoDup (set_sizes c) ->
  (ValidateASecConfig (Some c) = Some err_size_long
   <-> hasCookieReplyPacketJunkSize c = true
       \/ hasTransportPacketJunkSize c = true)
  /\ (ValidateASecConfig (Some c) = Some err_size_short
      <-> ~ (hasCookieReplyPacketJunkSize c = true
             \/ hasTransportPacketJunkSize c = true)).
Proof.
  intros Hj Hdup. rewrite (validate_after_junk c Hj).
  unfold set_sizes in Hdup.
  rewrite <- (packetSize_outer_None (packetSize_error c)) in Hdup.
  destruct (packetSize_outer_Some (packetSize_error c) (packetSizes c))
    as [H|H]; [contradiction|]. rewrite H. unfold packetSize_error.
  destruct (hasCookieReplyPacketJunkSize c), (hasTransportPacketJunkSize c);
    simpl; unfold err_size_long, err_size_short;
    intuition (try discriminate; try congruence).
Qed.

(** S1 = 0 and S2 = 56: both sizes are 148, neither S3 nor S4 is set. *)
Lemma collision_error_text_witness :
  let c := set_responsePacketJunkSize 56
             (set_initPacketJunkSize 0 zero_ASecConfig) in
  (ValidateASecConfig (Some c) = Some err_size_long
   <-> hasCookieReplyPacketJunkSize c = true
       \/ hasTransportPacketJunkSize c = true)
  /\ (ValidateASecConfig (Some c) = Some err_size_short
      <-> ~ (hasCookieReplyPacketJunkSize c = true
             \/ hasTransportPacketJunkSize c = true)).
Proof.
  intros c. apply (collision_error_text c).
  - repeat split; discriminate.
  - intros H. apply NoDup_cons in H as [H _]. apply H. left.
Defined.


(** ** Literals of the H fields: parsing and emitting *)

Lemma is_digit_code (c : ascii) :
  is_digit c = true -> 48 <= Z.of_nat (nat_of_ascii c) <= 57.
Proof. unfold is_digit. rewrite andb_true_iff, !Z.leb_le. tauto. Qed.

Lemma digit_char_code (c : ascii) :
  is_digit c = true ->
  strconv.digit_char (Z.of_nat (nat_of_ascii c) - 48) = c.
Proof.
  intros H. apply is_digit_code in H. unfold strconv.digit_char.
  replace (48 + Z.to_nat (Z.of_nat (nat_of_ascii c) - 48))%nat
    with (nat_of_ascii c) by lia.
  apply ascii_nat_embedding.
Qed.

Lemma decimal_value_from_ge (s : string) (n : Z) :
  all_digits s = true -> 0 <= n -> n <= decimal_value_from n s.
Proof.
  revert n. induction s as [|c s IH]; simpl; intros n Hd Hn; [lia|].
  apply andb_true_iff in Hd as [Hc Hs]. apply is_digit_code in Hc.
  specialize (IH (10 * n + (Z.of_nat (nat_of_ascii c) - 48)) Hs). lia.
Qed.

(** On digits whose value fits, the loop of [ParseUint] returns the value. *)
Lemma parse_loop_digits (s0 : string) (maxVal : Z) (s : string) (n : Z) :
  maxVal <= maxUint64 -> all_digits s = true -> 0 <= n ->
  decimal_value_from n s <= maxVal ->
  strconv.parse_loop s0 maxVal n s = (decimal_value_from n s, None).
Proof.
  intros Hmax. revert n. induction s as [|c s IH]; simpl; intros n Hd Hn Hv;
    [reflexivity|].
  apply andb_true_iff in Hd as [Hc Hs].
  pose proof (is_digit_code c Hc) as Hcode.
  unfold is_digit in Hc. rewrite Hc.
  set (d := Z.of_nat (nat_of_ascii c) - 48) in *.
  pose proof (decimal_value_from_ge s (10 * n + d) Hs ltac:(lia)) as Hge.
  unfold maxUint64 in *.
  assert (((2 ^ 64 - 1) / 10 + 1 <=? n) = false) as ->.
  { apply Z.leb_gt. change ((2 ^ 64 - 1) / 10 + 1) with 1844674407370955162.
    lia. }
  unfold wrap_uint64.
  rewrite (Z.mod_small (n * 10)) by lia.
  rewrite (Z.mod_small (n * 10 + d)) by lia.
  assert ((n * 10 + d <? n * 10) = false) as -> by (apply Z.ltb_ge; lia).
  assert ((maxVal <? n * 10 + d) = false) as -> by (apply Z.ltb_ge; lia).
  simpl. replace (n * 10 + d) with (10 * n + d) by lia.
  apply IH; [assumption|lia|assumption].
Qed.

Lemma ParseUint_decimal (s : string) :
  uint32_decimal s = true ->
  strconv.ParseUint s 32 = (decimal_value s, None).
Proof.
  destruct s as [|c r]; [discriminate|]. unfold uint32_decimal.
  rewrite !andb_true_iff. intros (((Hd & _) & _) & Hv).
  apply Z.leb_le in Hv. unfold strconv.ParseUint.
  apply parse_loop_digits; try assumption; try lia.
  unfold maxUint64. lia.
Qed.

(** Strings: concatenation, and the last byte. *)
Lemma string_app_cons (c : ascii) (a b : string) :
  String c a +:+ b = String c (a +:+ b).
Proof. reflexivity. Qed.

Lemma string_app_nil_l (b : string) : EmptyString +:+ b = b.
Proof. reflexivity. Qed.

Lemma string_snoc (s : string) :
  s <> EmptyString ->
  exists (s' : string) (d : ascii), s = s' +:+ String d EmptyString.
Proof.
  induction s as [|c s IH]; [congruence|]. intros _.
  destruct s as [|c' s''].
  - exists EmptyString, c. reflexivity.
  - destruct IH as (s' & d & Hs); [discriminate|].
    exists (String c s'), d. rewrite Hs. reflexivity.
Qed.

Lemma all_digits_app (a b : string) :
  all_digits (a +:+ b) = all_digits a && all_digits b.
Proof.
  induction a as [|c a IH]; [reflexivity|].
  rewrite string_app_cons. simpl. rewrite IH, andb_assoc. reflexivity.
Qed.

Lemma decimal_value_from_snoc (s : string) (d : ascii) (n : Z) :
  decimal_value_from n (s +:+ String d EmptyString)
  = 10 * decimal_value_from n s + (Z.of_nat (nat_of_ascii d) - 48).
Proof.
  revert n. induction s as [|c s IH]; intros n; [reflexivity|].
  rewrite string_app_cons. simpl. apply IH.
Qed.

Lemma string_length_app (a b : string) :
  String.length (a +:+ b) = (String.length a + String.length b)%nat.
Proof.
  induction a as [|c a IH]; [reflexivity|].
  rewrite string_app_cons. simpl. rewrite IH. reflexivity.
Qed.

Lemma string_app_assoc (a b c : string) : (a +:+ b) +:+ c = a +:+ (b +:+ c).
Proof.
  induction a as [|x a IH]; [reflexivity|].
  rewrite !string_app_cons, IH. reflexivity.
Qed.

Lemma string_app_nil_r (a : string) : a +:+ EmptyString = a.
Proof.
  induction a as [|x a IH]; [reflexivity|].
  rewrite string_app_cons, IH. reflexivity.
Qed.

(** A numeral that does not start with a zero denotes a positive number. *)
Lemma leading_nonzero_positive (s : string) :
  s <> EmptyString -> all_digits s = true -> leading_nonzero s ->
  1 <= decimal_value s.
Proof.
  destruct s as [|c r]; [congruence|]. simpl. intros _ Hd Hz.
  apply andb_true_iff in Hd as [Hc Hr].
  pose proof (is_digit_code c Hc) as Hcode.
  change (decimal_value (String c r))
    with (decimal_value_from (10 * 0 + (Z.of_nat (nat_of_ascii c) - 48)) r).
  replace (10 * 0 + (Z.of_nat (nat_of_ascii c) - 48))
    with (Z.of_nat (nat_of_ascii c) - 48) by lia.
  assert (Z.of_nat (nat_of_ascii c) <> 48) as Hne.
  { intros Heq. apply Ascii.eqb_neq in Hz. apply Hz.
    rewrite <- (ascii_nat_embedding c).
    replace (nat_of_ascii c) with 48%nat by lia. reflexivity. }
  pose proof (decimal_value_from_ge r (Z.of_nat (nat_of_ascii c) - 48) Hr
                ltac:(lia)).
  lia.
Qed.

(** [formatBits] writes back the digits of a numeral without leading zero. *)
Lemma formatBits_decimal (fuel : nat) :
  forall (s : string) (d : ascii) (acc : string),
    all_digits s = true -> is_digit d = true -> leading_nonzero s ->
    (String.length s < fuel)%nat ->
    strconv.formatBits fuel (decimal_value (s +:+ String d EmptyString)) acc
    = s +:+ String d acc.
Proof.
  induction fuel as [|fuel IH]; intros s d acc Hs Hd Hz Hlen; [lia|].
  unfold decimal_value. rewrite decimal_value_from_snoc.
  pose proof (is_digit_code d Hd) as Hcode.
  set (dv := Z.of_nat (nat_of_ascii d) - 48) in *.
  destruct s as [|c r].
  - change (decimal_value_from 0 EmptyString) with 0.
    replace (10 * 0 + dv) with dv by lia. cbn [strconv.formatBits].
    assert ((dv <? 10) = true) as -> by (apply Z.ltb_lt; lia).
    unfold dv. rewrite digit_char_code by assumption. reflexivity.
  - pose proof (leading_nonzero_positive (String c r) ltac:(discriminate)
                  Hs Hz) as Hpos. unfold decimal_value in Hpos.
    set (v := decimal_value_from 0 (String c r)) in *.
    cbn [strconv.formatBits].
    assert ((10 * v + dv <? 10) = false) as -> by (apply Z.ltb_ge; lia).
    replace ((10 * v + dv) / 10) with v
      by (apply (Z.div_unique _ 10 v dv); lia).
    replace ((10 * v + dv) mod 10) with dv
      by (apply (Z.mod_unique _ 10 v dv); lia).
    unfold dv at 1. rewrite digit_char_code by assumption.
    destruct (string_snoc (String c r) ltac:(discriminate))
      as (s' & d' & Hsn).
    unfold v. rewrite Hsn in *. clear v Hpos.
    rewrite all_digits_app in Hs. apply andb_true_iff in Hs as [Hs' Hd'].
    simpl in Hd'. rewrite andb_true_r in Hd'.
    rewrite string_length_app in Hlen. simpl in Hlen.
    fold (decimal_value (s' +:+ String d' EmptyString)).
    rewrite IH; try assumption; try lia.
    + rewrite string_app_assoc. reflexivity.
    + destruct s' as [|x s'']; [exact I|]. simpl in Hz |- *. exact Hz.
Qed.

Lemma FormatUint_decimal (s : string) :
  uint32_decimal s = true -> strconv.FormatUint (decimal_value s) = s.
Proof.
  intros H. destruct s as [|c r]; [discriminate|].
  unfold uint32_decimal in H. rewrite !andb_true_iff in H.
  destruct H as (((Hd & Hz) & Hlen) & _). apply Nat.leb_le in Hlen.
  destruct (string_snoc (String c r) ltac:(discriminate)) as (s' & d & Hsn).
  rewrite Hsn in *. rewrite all_digits_app in Hd.
  apply andb_true_iff in Hd as [Hs' Hd]. simpl in Hd.
  rewrite andb_true_r in Hd. rewrite string_length_app in Hlen.
  simpl in Hlen. unfold strconv.FormatUint.
  rewrite formatBits_decimal; try assumption; try lia; [reflexivity|].
  destruct s' as [|x s'']; [exact I|]. simpl in Hsn. injection Hsn as <- Hr.
  simpl. apply orb_true_iff in Hz as [Hz|Hz].
  - apply negb_true_iff in Hz. exact Hz.
  - apply String.eqb_eq in Hz. rewrite Hz in Hr.
    destruct s''; discriminate.
Qed.

(** [strings.TrimSpace] and [strings.Split] on numerals. *)
Lemma digit_byte (c : ascii) :
  is_digit c = true -> (48 <= N_of_ascii c <= 57)%N.
Proof.
  intros H. apply is_digit_code in H. unfold nat_of_ascii in H. lia.
Qed.

Ltac decide_bytes :=
  repeat match goal with
    | |- context [N.eqb ?x ?y] =>
        first [ rewrite (proj2 (N.eqb_neq x y)) by lia
              | destruct (N.eqb x y) ]
    | |- context [N.leb ?x ?y] =>
        first [ rewrite (proj2 (N.leb_gt x y)) by lia
              | destruct (N.leb x y) ]
    end; try reflexivity.

Lemma strip_space_rune_digit (b : N) (r : list N) :
  (48 <= b <= 57)%N -> gostrings.strip_space_rune (b :: r) = None.
Proof.
  intros Hb. unfold gostrings.strip_space_rune, gostrings.is_space_byte,
    gostrings.is_space_2, gostrings.is_space_3.
  destruct r as [|b1 [|b2 r2]]; decide_bytes.
Qed.

Lemma strip_space_rune_back_digit (b : N) (r : list N) :
  (48 <= b <= 57)%N -> gostrings.strip_space_rune_back (b :: r) = None.
Proof.
  intros Hb. unfold gostrings.strip_space_rune_back, gostrings.is_space_byte,
    gostrings.is_space_2, gostrings.is_space_3.
  destruct r as [|b1 [|b2 r2]]; decide_bytes.
Qed.

Lemma strip_while_None (strip : list N -> option (list N)) (fuel : nat)
    (l : list N) :
  strip l = None -> gostrings.strip_while strip fuel l = l.
Proof. intros H. destruct fuel; simpl; [reflexivity|]. rewrite H. reflexivity. Qed.

Lemma string_of_bytes_of (s : string) :
  gostrings.string_of (gostrings.bytes_of s) = s.
Proof.
  unfold gostrings.string_of, gostrings.bytes_of.
  rewrite List.map_map.
  rewrite (List.map_ext _ (fun a => a)) by (intros a; apply ascii_N_embedding).
  rewrite List.map_id. apply String.string_of_list_ascii_of_string.
Qed.

Lemma bytes_of_app (a b : string) :
  gostrings.bytes_of (a +:+ b) = gostrings.bytes_of a ++ gostrings.bytes_of b.
Proof.
  unfold gostrings.bytes_of. induction a as [|c a IH]; [reflexivity|].
  rewrite string_app_cons. simpl. rewrite IH. reflexivity.
Qed.

(** A string that starts and ends with a digit has no white space to trim. *)
Lemma TrimSpace_digit_ends (c d : ascii) (r s' : string) :
  is_digit c = true -> is_digit d = true ->
  String c r = s' +:+ String d EmptyString ->
  gostrings.TrimSpace (String c r) = String c r.
Proof.
  intros Hc Hd Hs. unfold gostrings.TrimSpace.
  assert (gostrings.strip_while gostrings.strip_space_rune
            (length (gostrings.bytes_of (String c r)))
            (gostrings.bytes_of (String c r))
          = gostrings.bytes_of (String c r)) as ->.
  { apply strip_while_None. apply strip_space_rune_digit, digit_byte, Hc. }
  assert (gostrings.strip_while gostrings.strip_space_rune_back
            (length (gostrings.bytes_of (String c r)))
            (rev (gostrings.bytes_of (String c r)))
          = rev (gostrings.bytes_of (String c r))) as ->.
  { apply strip_while_None. rewrite Hs, bytes_of_app, rev_app_distr.
    apply strip_space_rune_back_digit, digit_byte, Hd. }
  rewrite rev_involutive. apply string_of_bytes_of.
Qed.

Lemma TrimSpace_digits (a b : string) :
  a <> EmptyString -> b <> EmptyString ->
  all_digits a = true -> all_digits b = true ->
  gostrings.TrimSpace a = a
  /\ gostrings.TrimSpace (a +:+ String "-" b) = a +:+ String "-" b.
Proof.
  intros Ha Hb Hda Hdb.
  destruct (string_snoc a Ha) as (a' & da & Hsa).
  destruct (string_snoc b Hb) as (b' & db & Hsb).
  destruct a as [|c r]; [congruence|].
  assert (is_digit c = true) as Hc
    by (simpl in Hda; apply andb_true_iff in Hda; tauto).
  assert (is_digit da = true) as Hda'.
  { rewrite Hsa, all_digits_app in Hda. simpl in Hda.
    rewrite andb_true_r in Hda. apply andb_true_iff in Hda. tauto. }
  assert (is_digit db = true) as Hdb'.
  { rewrite Hsb, all_digits_app in Hdb. simpl in Hdb.
    rewrite andb_true_r in Hdb. apply andb_true_iff in Hdb. tauto. }
  split.
  - apply (TrimSpace_digit_ends c da r a'); assumption.
  - rewrite string_app_cons.
    apply (TrimSpace_digit_ends c db _ (String c r +:+ String "-" b'));
      try assumption.
    rewrite Hsb at 1. rewrite !string_app_cons. f_equal.
    rewrite string_app_assoc, string_app_cons. reflexivity.
Qed.

Lemma digit_not_dash (c : ascii) :
  is_digit c = true -> Ascii.eqb c "-" = false.
Proof.
  intros H. apply is_digit_code in H. apply Ascii.eqb_neq. intros ->.
  change (Z.of_nat (nat_of_ascii "-")) with 45 in H. lia.
Qed.

Lemma Split_digits (s : string) :
  all_digits s = true -> gostrings.Split s "-" = [s].
Proof.
  induction s as [|c s IH]; simpl; [reflexivity|]. intros H.
  apply andb_true_iff in H as [Hc Hs].
  rewrite (digit_not_dash c Hc), (IH Hs). reflexivity.
Qed.

Lemma Split_range (a b : string) :
  all_digits a = true -> all_digits b = true ->
  gostrings.Split (a +:+ String "-" b) "-" = [a; b].
Proof.
  intros Ha Hb. induction a as [|c a IH].
  - rewrite string_app_nil_l. simpl. rewrite (Split_digits b Hb). reflexivity.
  - simpl in Ha. apply andb_true_iff in Ha as [Hc Ha].
    rewrite string_app_cons. simpl.
    rewrite (digit_not_dash c Hc), (IH Ha). reflexivity.
Qed.

Lemma uint32_decimal_digits (s : string) :
  uint32_decimal s = true -> s <> EmptyString /\ all_digits s = true.
Proof.
  destruct s as [|c r]; [discriminate|]. unfold uint32_decimal.
  rewrite !andb_true_iff. intros (((Hd & _) & _) & _).
  split; [discriminate|assumption].
Qed.

Lemma string_eqb_empty (s : string) :
  s <> EmptyString -> String.eqb s "" = false.
Proof. intros H. apply String.eqb_neq. exact H. Qed.

Lemma parse_scalar (s : string) :
  uint32_decimal s = true ->
  parseMagicHeaderInterval s = (decimal_value s, decimal_value s, None).
Proof.
  intros H. destruct (uint32_decimal_digits s H) as [Hne Hd].
  unfold parseMagicHeaderInterval.
  destruct (TrimSpace_digits s s Hne Hne Hd Hd) as [-> _].
  rewrite (string_eqb_empty s Hne), (Split_digits s Hd).
  cbn [length Nat.ltb Nat.leb orb]. rewrite (string_eqb_empty s Hne).
  rewrite (ParseUint_decimal s H). reflexivity.
Qed.

Lemma parse_range (a b : string) :
  uint32_decimal a = true -> uint32_decimal b = true ->
  decimal_value a <= decimal_value b ->
  parseMagicHeaderInterval (a +:+ String "-" b)
  = (decimal_value a, decimal_value b, None).
Proof.
  intros Ha Hb Hle.
  destruct (uint32_decimal_digits a Ha) as [Hnea Hda].
  destruct (uint32_decimal_digits b Hb) as [Hneb Hdb].
  unfold parseMagicHeaderInterval.
  destruct (TrimSpace_digits a b Hnea Hneb Hda Hdb) as [_ ->].
  assert (String.eqb (a +:+ String "-" b) "" = false) as ->.
  { apply String.eqb_neq. destruct a; [congruence|discriminate]. }
  rewrite (Split_range a b Hda Hdb).
  cbn [length Nat.ltb Nat.leb orb].
  rewrite (string_eqb_empty a Hnea), (ParseUint_decimal a Ha).
  rewrite (string_eqb_empty b Hneb), (ParseUint_decimal b Hb).
  assert ((decimal_value b <? decimal_value a) = false) as ->
    by (apply Z.ltb_ge; exact Hle).
  reflexivity.
Qed.

(** C4, as amended. For the decimal numerals [a] and [b] of two 32-bit
    unsigned numbers N and M: parsing the scalar literal N and emitting it
    gives N again; for N < M, parsing the range literal N-M and emitting it
    gives N-M again; and for N = M the range literal N-M is emitted as the
    scalar N. *)
Theorem parse_then_emit_roundtrip (a b : string) :
  uint32_decimal a = true -> uint32_decimal b = true ->
  parse_then_emit a = Some a
  /\ (decimal_value a < decimal_value b ->
      parse_then_emit (a +:+ "-" +:+ b) = Some (a +:+ "-" +:+ b))
  /\ (decimal_value a = decimal_value b ->
      parse_then_emit (a +:+ "-" +:+ b) = Some a).
Proof.
  intros Ha Hb. unfold parse_then_emit, formatMagicHeaderInterval.
  change ("-" +:+ b) with (String "-" b).
  split; [|split].
  - rewrite (parse_scalar a Ha), Z.eqb_refl, (FormatUint_decimal a Ha).
    reflexivity.
  - intros Hlt. rewrite (parse_range a b Ha Hb) by lia.
    assert ((decimal_value a =? decimal_value b) = false) as ->
      by (apply Z.eqb_neq; lia).
    rewrite (FormatUint_decimal a Ha), (FormatUint_decimal b Hb).
    reflexivity.
  - intros Heq. rewrite (parse_range a b Ha Hb) by lia.
    rewrite Heq, Z.eqb_refl, <- Heq, (FormatUint_decimal a Ha).
    reflexivity.
Qed.

(** The literals 100 and 200: 100, 100-200. *)
Lemma parse_then_emit_roundtrip_witness :
  parse_then_emit "100" = Some "100"
  /\ (decimal_value "100" < decimal_value "200" ->
      parse_then_emit ("100" +:+ "-" +:+ "200")
      = Some ("100" +:+ "-" +:+ "200"))
  /\ (decimal_value "100" = decimal_value "200" ->
      parse_then_emit ("100" +:+ "-" +:+ "200") = Some "100").
Proof.
  apply (parse_then_emit_roundtrip "100" "200"); reflexivity.
Defined.

(** C4, as stated, fails for a range with equal bounds: the literal 5-5 is
    parsed to the interval [5, 5] and emitted as the scalar 5. *)
Lemma parse_then_emit_counterexample :
  uint32_decimal "5" = true
  /\ decimal_value "5" <= decimal_value "5"
  /\ parse_then_emit "5-5" = Some "5"
  /\ parse_then_emit "5-5" <> Some "5-5".
Proof.
  split; [reflexivity|]. split; [discriminate|].
  assert (parse_then_emit "5-5" = Some "5") as H by (vm_compute; reflexivity).
  split; [exact H|]. rewrite H. discriminate.
Qed.


(** ** Records built by [ParseASecConfig] *)

(** An interval accepted by [parseMagicHeaderInterval] is ordered. *)
Lemma parseMagicHeaderInterval_ordered (value : string) (lo hi : Z) :
  parseMagicHeaderInterval value = (lo, hi, None) -> lo <= hi.
Proof.
  unfold parseMagicHeaderInterval.
  destruct (String.eqb (gostrings.TrimSpace value) ""); [discriminate|].
  destruct (gostrings.Split (gostrings.TrimSpace value) "-")
    as [|part0 others]; [discriminate|].
  destruct ((2 <? length (part0 :: others))%nat || String.eqb part0 "");
    [discriminate|].
  destruct (strconv.ParseUint part0 32) as [minValue [err|]];
    [discriminate|].
  destruct others as [|part1 others'].
  - intros [= <- <-]. lia.
  - destruct (String.eqb part1 ""); [discriminate|].
    destruct (strconv.ParseUint part1 32) as [maxValue [err|]];
      [discriminate|].
    destruct (maxValue <? minValue) eqn:Hlt; [discriminate|].
    intros [= <- <-]. apply Z.ltb_ge. exact Hlt.
Qed.

Lemma headers_ordered_effective (config : option ASecConfigType) :
  headers_ordered config ->
  Forall (fun interval => min interval <= max interval)
    (collectEffectiveHeaderIntervals config).
Proof.
  destruct config as [c|]; simpl.
  - intros (H1 & H2 & H3 & H4).
    unfold collectEffectiveHeaderIntervals.
    destruct (hasInitPacketMagicHeader c), (hasResponsePacketMagicHeader c),
      (hasUnderloadPacketMagicHeader c), (hasTransportPacketMagicHeader c);
      repeat constructor; simpl; auto;
      unfold defaultInitPacketMagicHeader, defaultResponsePacketMagicHeader,
        defaultUnderloadPacketMagicHeader, defaultTransportPacketMagicHeader;
      lia.
  - intros _. repeat constructor; simpl; discriminate.
Qed.

Lemma headers_ordered_alloc (config : option ASecConfigType) :
  headers_ordered config -> headers_ordered (Some (alloc config)).
Proof.
  destruct config as [c|]; simpl; [tauto|].
  intros _. repeat split; discriminate.
Qed.

Lemma int_key_ordered (section : ini.Section) (name : string)
    (set : Z -> ASecConfigType -> ASecConfigType)
    (config config' : option ASecConfigType) :
  (forall v c, headers_ordered (Some c) -> headers_ordered (Some (set v c))) ->
  int_key section name set config = inr config' ->
  headers_ordered config -> headers_ordered config'.
Proof.
  intros Hset. unfold int_key. destruct (section name) as [k|].
  - destruct (ini.Key_Int k) as [value [err|]]; [discriminate|].
    intros [= <-] H. apply Hset, headers_ordered_alloc, H.
  - intros [= <-] H. exact H.
Qed.

Lemma string_key_ordered (section : ini.Section) (name : string)
    (set : string -> ASecConfigType -> ASecConfigType)
    (config config' : option ASecConfigType) :
  (forall v c, headers_ordered (Some c) -> headers_ordered (Some (set v c))) ->
  string_key section name set config = inr config' ->
  headers_ordered config -> headers_ordered config'.
Proof.
  intros Hset. unfold string_key. destruct (section name) as [k|].
  - intros [= <-] H. apply Hset, headers_ordered_alloc, H.
  - intros [= <-] H. exact H.
Qed.

Lemma header_key_ordered (section : ini.Section) (name : string)
    (set : Z -> Z -> ASecConfigType -> ASecConfigType)
    (config config' : option ASecConfigType) :
  (forall lo hi c, lo <= hi -> headers_ordered (Some c) ->
                   headers_ordered (Some (set lo hi c))) ->
  header_key section name set config = inr config' ->
  headers_ordered config -> headers_ordered config'.
Proof.
  intros Hset. unfold header_key. destruct (section name) as [k|].
  - destruct (parseMagicHeaderInterval (ini.Key_String k))
      as [[lo hi] [err|]] eqn:Hparse; [discriminate|].
    intros [= <-] H. apply Hset; [|apply headers_ordered_alloc, H].
    exact (parseMagicHeaderInterval_ordered _ _ _ Hparse).
  - intros [= <-] H. exact H.
Qed.

Ltac setter_ordered :=
  intros; match goal with
          | H : headers_ordered (Some _) |- _ =>
              simpl in H |- *; destruct H as (? & ? & ? & ?)
          end; repeat split; intros; auto.

(** The keys of [ParseASecConfig] keep the header fields ordered. *)
Lemma parseKeys_ordered (section : ini.Section)
    (config : option ASecConfigType) :
  parseKeys section = inr config -> headers_ordered config.
Proof.
  unfold parseKeys. cbv zeta. intros H.
  assert (headers_ordered None) as H0 by exact I.
  repeat match type of H with
    | context [match ?e with inl _ => _ | inr _ => _ end] =>
        let c1 := fresh "c" in
        let Hs := fresh "Hs" in
        let Hc := fresh "Hc" in
        destruct e as [?|c1] eqn:Hs; [discriminate|];
        assert (headers_ordered c1) as Hc;
        [ first [ eapply int_key_ordered; [ | exact Hs | assumption ]
                | eapply header_key_ordered; [ | exact Hs | assumption ]
                | eapply string_key_ordered; [ | exact Hs | assumption ] ];
          setter_ordered
        | clear Hs ]
    end.
  injection H as <-. assumption.
Qed.

Lemma validate_not_bounds (config : option ASecConfigType) :
  headers_ordered config -> ValidateASecConfig config <> Some err_bounds.
Proof.
  intros H. destruct config as [c|]; [|discriminate].
  apply headers_ordered_effective, bounds_check_false in H.
  destruct (junk_checks_dec c) as [Hj|Hj].
  - rewrite (validate_after_junk c Hj).
    destruct (packetSize_outer_Some (packetSize_error c) (packetSizes c))
      as [-> | ->].
    + cbv zeta. rewrite H.
      destruct (hasOverlappingHeaderIntervals _); discriminate.
    + unfold packetSize_error.
      destruct (hasCookieReplyPacketJunkSize c
                || hasTransportPacketJunkSize c); discriminate.
  - destruct (validate_junk_fails c Hj) as [-> | [-> | ->]]; discriminate.
Qed.

(** C10. The record [ParseASecConfig] has built when it calls
    [ValidateASecConfig], and so every record it returns without error, has
    four effective header intervals with min <= max: the test of the bounds
    in [ValidateASecConfig] finds nothing and its error is not returned by
    the validation of a parsed record. *)
Theorem parsed_intervals_ordered (section : ini.Section)
    (config : option ASecConfigType) :
  (parseKeys section = inr config ->
   Forall (fun interval => min interval <= max interval)
     (collectEffectiveHeaderIntervals config)
   /\ existsb (fun interval => max interval <? min interval)
        (collectEffectiveHeaderIntervals config) = false
   /\ ValidateASecConfig config <> Some err_bounds)
  /\ (ParseASecConfig section = (config, None) ->
      parseKeys section = inr config
      /\ Forall (fun interval => min interval <= max interval)
           (collectEffectiveHeaderIntervals config)).
Proof.
  assert (parseKeys section = inr config ->
          Forall (fun interval => min interval <= max interval)
            (collectEffectiveHeaderIntervals config)
          /\ existsb (fun interval => max interval <? min interval)
               (collectEffectiveHeaderIntervals config) = false
          /\ ValidateASecConfig config <> Some err_bounds) as Hkeys.
  { intros H. apply parseKeys_ordered in H.
    split; [apply headers_ordered_effective, H|].
    split; [apply bounds_check_false, headers_ordered_effective, H|].
    apply validate_not_bounds, H. }
  split; [exact Hkeys|].
  unfold ParseASecConfig. destruct (parseKeys section) as [err|c] eqn:Hp;
    [discriminate|].
  destruct (ValidateASecConfig c) as [err|]; [discriminate|].
  intros [= ->]. split; [reflexivity|]. apply Hkeys. reflexivity.
Qed.

(** The section with Jc = 5 and H1 = 100-200. *)
Lemma parsed_intervals_ordered_witness :
  let config :=
    Some (set_initPacketMagicHeader 100 200
            (set_junkPacketCount 5 zero_ASecConfig)) in
  Forall (fun interval => min interval <= max interval)
    (collectEffectiveHeaderIntervals config)
  /\ existsb (fun interval => max interval <? min interval)
       (collectEffectiveHeaderIntervals config) = false
  /\ ValidateASecConfig config <> Some err_bounds.
Proof.
  intros config.
  apply (proj1 (parsed_intervals_ordered section_Jc_H1 config)).
  vm_compute. reflexivity.
Defined.


(** ** The IPC text of [CreateIPCRequest] *)

Lemma string_app_eq (a a' b b' : string) :
  a = a' -> b = b' -> a +:+ b = a' +:+ b'.
Proof. intros -> ->. reflexivity. Qed.

Lemma write_when_app (cond : bool) (line b : string) :
  write_when cond line b = b +:+ (if cond then line else EmptyString).
Proof.
  unfold write_when, WriteString. destruct cond; [reflexivity|].
  rewrite string_app_nil_r. reflexivity.
Qed.

Lemma write_some_app (p : option string) (line : string -> string)
    (b : string) :
  write_some p line b
  = b +:+ (match p with Some v => line v | None => EmptyString end).
Proof.
  unfold write_some, WriteString. destruct p; [reflexivity|].
  rewrite string_app_nil_r. reflexivity.
Qed.

Lemma join_lines_app (a b : list string) :
  join_lines (a ++ b) = join_lines a +:+ join_lines b.
Proof.
  induction a as [|l a IH]; [reflexivity|].
  change (join_lines ((l :: a) ++ b))
    with (l +:+ nl +:+ join_lines (a ++ b)).
  change (join_lines (l :: a)) with (l +:+ nl +:+ join_lines a).
  rewrite IH, !string_app_assoc. reflexivity.
Qed.

Lemma join_lines_omap {A : Type} (f : A -> option string) (x : A)
    (l : list A) :
  join_lines (omap f (x :: l))
  = (match f x with Some line => line +:+ nl | None => EmptyString end)
    +:+ join_lines (omap f l).
Proof.
  simpl. destruct (f x) as [line|]; [|reflexivity].
  change (join_lines (line :: omap f l))
    with (line +:+ nl +:+ join_lines (omap f l)).
  rewrite string_app_assoc. reflexivity.
Qed.

(** The AmneziaWG block is made of the lines of the fields that are set, in
    the fixed order. *)
Lemma aSecBuilder_lines (c : ASecConfigType) :
  aSecBuilder_String c = join_lines (awg_lines c).
Proof.
  unfold aSecBuilder_String. cbv zeta.
  rewrite !write_when_app, !write_some_app, !string_app_assoc.
  rewrite string_app_nil_l.
  unfold awg_lines, awg_order. rewrite !join_lines_omap.
  change (join_lines (omap _ [])) with EmptyString.
  repeat (apply string_app_eq;
          [ cbn [awg_value fmap option_fmap option_map];
            match goal with
            | |- context [if ?h then _ else _] => destruct h; reflexivity
            | |- context [match ?p with Some _ => _ | None => _ end] =>
                destruct p; reflexivity
            end
          | ]).
  cbn [awg_value fmap option_fmap option_map].
  rewrite string_app_nil_r. destruct (i5 c); reflexivity.
Qed.

Lemma fold_allowed_ips (ips : list netip.Prefix) (request : string) :
  fold_left
    (fun request ip =>
       WriteString request (Sprintf_s "allowed_ip=" (netip.Prefix_String ip)))
    ips request
  = request
    +:+ join_lines
          (map (fun ip => "allowed_ip=" +:+ netip.Prefix_String ip) ips).
Proof.
  revert request. induction ips as [|ip ips IH]; intros request.
  - simpl. rewrite string_app_nil_r. reflexivity.
  - cbn [fold_left map]. rewrite IH. unfold WriteString, Sprintf_s.
    change (join_lines (?l :: ?ls)) with (l +:+ nl +:+ join_lines ls).
    rewrite !string_app_assoc. reflexivity.
Qed.

Lemma write_peer_lines (request : string) (peer : PeerConfig) :
  write_peer request peer = request +:+ join_lines (peer_lines peer).
Proof.
  unfold write_peer, peer_lines. cbv zeta.
  rewrite write_some_app, !join_lines_app.
  destruct (Endpoint peer) as [e|];
    destruct (AllowedIPs peer) as [|ip ips];
    cbn [length Nat.ltb Nat.leb]; rewrite ?fold_allowed_ips;
    unfold WriteString, Sprintf_s, Sprintf_d;
    cbn [join_lines fold_right];
    rewrite ?string_app_nil_r, !string_app_assoc; reflexivity.
Qed.

Lemma fold_write_peer (peers : list PeerConfig) (request : string) :
  fold_left write_peer peers request
  = request +:+ join_lines (flat_map peer_lines peers).
Proof.
  revert request. induction peers as [|peer peers IH]; intros request.
  - simpl. rewrite string_app_nil_r. reflexivity.
  - cbn [fold_left flat_map]. rewrite IH, write_peer_lines, join_lines_app.
    rewrite string_app_assoc. reflexivity.
Qed.

(** The IPC text, line by line. *)
Lemma IpcRequest_lines (conf : DeviceConfig) :
  IpcRequest (CreateIPCRequest conf).1
  = join_lines (head_lines conf ++ device_awg_lines conf ++ tail_lines conf).
Proof.
  unfold CreateIPCRequest. cbv zeta. cbn [fst IpcRequest].
  rewrite fold_write_peer, !join_lines_app.
  unfold head_lines, device_awg_lines, tail_lines.
  destruct (ListenPort conf) as [port|];
    destruct (ASecConfig conf) as [c|];
    rewrite ?aSecBuilder_lines;
    unfold WriteString, Sprintf_s, Sprintf_d;
    cbn [join_lines fold_right];
    rewrite ?string_app_nil_r, ?string_app_nil_l, ?string_app_assoc;
    reflexivity.
Qed.

(** Lines of a text. *)
Lemma single_line_app (a b : string) :
  single_line (a +:+ b) = single_line a && single_line b.
Proof.
  induction a as [|c a IH]; [reflexivity|].
  rewrite string_app_cons. simpl. rewrite IH, andb_assoc. reflexivity.
Qed.

Lemma Split_single_line (a b : string) :
  single_line a = true ->
  gostrings.Split (a +:+ String "010" b) "010" = a :: gostrings.Split b "010".
Proof.
  intros Ha. induction a as [|c a IH].
  - reflexivity.
  - simpl in Ha. apply andb_true_iff in Ha as [Hc Ha].
    apply negb_true_iff in Hc. rewrite string_app_cons. simpl.
    rewrite Hc, (IH Ha). reflexivity.
Qed.

Lemma text_lines_join (lines : list string) :
  Forall (fun line => single_line line = true) lines ->
  text_lines (join_lines lines) = lines ++ [EmptyString].
Proof.
  unfold text_lines. induction 1 as [|line lines Hl _ IH]; [reflexivity|].
  change (join_lines (line :: lines))
    with (line +:+ String "010" (join_lines lines)).
  rewrite (Split_single_line _ _ Hl), IH. reflexivity.
Qed.

Lemma digit_char_not_nl (d : Z) :
  d < 10 -> Ascii.eqb (strconv.digit_char d) "010" = false.
Proof.
  intros Hd. apply Ascii.eqb_neq. intros H. unfold strconv.digit_char in H.
  apply (f_equal nat_of_ascii) in H.
  rewrite nat_ascii_embedding in H by lia.
  change (nat_of_ascii "010") with 10%nat in H. lia.
Qed.

Lemma formatBits_single_line (fuel : nat) (u : Z) (acc : string) :
  single_line acc = true ->
  single_line (strconv.formatBits fuel u acc) = true.
Proof.
  revert u acc. induction fuel as [|fuel IH]; intros u acc Hacc;
    [exact Hacc|].
  cbn [strconv.formatBits]. destruct (u <? 10) eqn:Hu.
  - cbn [single_line].
    rewrite digit_char_not_nl by (apply Z.ltb_lt; exact Hu).
    exact Hacc.
  - apply IH. cbn [single_line].
    rewrite digit_char_not_nl, Hacc; [reflexivity|].
    pose proof (Z.mod_pos_bound u 10). lia.
Qed.

Lemma FormatUint_single_line (u : Z) :
  single_line (strconv.FormatUint u) = true.
Proof. apply formatBits_single_line. reflexivity. Qed.

Lemma FormatInt_single_line (i : Z) :
  single_line (strconv.FormatInt i) = true.
Proof.
  unfold strconv.FormatInt. destruct (i <? 0); cbn [single_line];
    rewrite ?FormatUint_single_line; reflexivity.
Qed.

Lemma header_text_single_line (lo hi : Z) :
  single_line (header_text lo hi) = true.
Proof.
  unfold header_text. destruct (lo =? hi).
  - apply FormatUint_single_line.
  - rewrite !single_line_app, !FormatUint_single_line. reflexivity.
Qed.

Lemma header_text_format (lo hi : Z) :
  formatMagicHeaderInterval lo hi = header_text lo hi.
Proof. reflexivity. Qed.

(** The lines of the AmneziaWG block. *)
Lemma awg_lines_elem (c : ASecConfigType) (line : string) :
  In line (awg_lines c)
  <-> exists (f : awg_field) (v : string),
        awg_value c f = Some v /\ line = awg_key f +:+ "=" +:+ v.
Proof.
  unfold awg_lines. rewrite <- list_elem_of_In, list_elem_of_omap. split.
  - intros (f & _ & Hf). destruct (awg_value c f) as [v|] eqn:Hv;
      [|discriminate]. injection Hf as <-. exists f, v. tauto.
  - intros (f & v & Hv & ->). exists f. split.
    + apply list_elem_of_In. unfold awg_order. destruct f; simpl; tauto.
    + rewrite Hv. reflexivity.
Qed.

Lemma is_line_of_key (f g : awg_field) (v : string) :
  is_line_of f (awg_key g +:+ "=" +:+ v) = true <-> f = g.
Proof.
  split.
  - destruct f, g; intros H; try reflexivity; discriminate H.
  - intros ->. destruct g; reflexivity.
Qed.

Lemma is_awg_line_key (g : awg_field) (v : string) :
  is_awg_line (awg_key g +:+ "=" +:+ v) = true.
Proof. destruct g; reflexivity. Qed.

Lemma is_line_of_awg (f : awg_field) (line : string) :
  is_line_of f line = true -> is_awg_line line = true.
Proof.
  intros H. unfold is_awg_line. apply existsb_exists. exists f.
  split; [|exact H]. unfold awg_order. destruct f; simpl; tauto.
Qed.

Lemma awg_value_single_line (c : ASecConfigType) (f : awg_field) (v : string) :
  single_line_opt (i1 c) && single_line_opt (i2 c) && single_line_opt (i3 c)
  && single_line_opt (i4 c) && single_line_opt (i5 c) = true ->
  awg_value c f = Some v -> single_line v = true.
Proof.
  rewrite !andb_true_iff. intros ((((H1 & H2) & H3) & H4) & H5).
  destruct f; cbn [awg_value];
    try (intros Hv; rewrite Hv in *; assumption);
    match goal with
    | |- (if ?h then _ else _) = _ -> _ =>
        destruct h; [|discriminate]; intros [= <-]
    end;
    first [apply FormatInt_single_line | apply header_text_single_line].
Qed.

Lemma filter_all (p : string -> bool) (l : list string) :
  Forall (fun x => p x = true) l -> List.filter p l = l.
Proof.
  induction 1 as [|x l Hx _ IH]; [reflexivity|]. simpl.
  rewrite Hx, IH. reflexivity.
Qed.

Lemma filter_none (p : string -> bool) (l : list string) :
  Forall (fun x => p x = false) l -> List.filter p l = [].
Proof.
  induction 1 as [|x l Hx _ IH]; [reflexivity|]. simpl.
  rewrite Hx, IH. reflexivity.
Qed.

Lemma peer_lines_plain (peer : PeerConfig) :
  single_line (PublicKey peer) && single_line (PreSharedKey peer)
  && single_line_opt (Endpoint peer)
  && forallb (fun ip => single_line (netip.Prefix_String ip))
       (AllowedIPs peer) = true ->
  Forall (fun line => single_line line = true /\ is_awg_line line = false)
    (peer_lines peer).
Proof.
  rewrite !andb_true_iff. intros (((Hpk & Hpsk) & Hep) & Hips).
  unfold peer_lines. repeat apply Forall_app_2.
  - repeat constructor; try reflexivity;
      rewrite single_line_app, ?FormatInt_single_line, ?Hpk, ?Hpsk;
      reflexivity.
  - destruct (Endpoint peer) as [e|]; repeat constructor.
    simpl in Hep. rewrite single_line_app, Hep. reflexivity.
  - destruct (AllowedIPs peer) as [|ip ips].
    + repeat constructor.
    + apply List.Forall_forall. intros line Hin. apply in_map_iff in Hin
        as (ip' & <- & Hin). rewrite forallb_forall in Hips.
      split; [|reflexivity].
      rewrite single_line_app, (Hips ip' Hin). reflexivity.
Qed.

Lemma Forall_flat_map {A B : Type} (P : B -> Prop) (f : A -> list B)
    (l : list A) :
  (forall x, In x l -> Forall P (f x)) -> Forall P (flat_map f l).
Proof.
  induction l as [|x l IH]; intros H; simpl; [constructor|].
  apply Forall_app_2; [apply H; left; reflexivity|].
  apply IH. intros y Hy. apply H. right. exact Hy.
Qed.

(** The lines of the IPC text of a configuration without line feed in its
    texts, and those of them that belong to an AmneziaWG field. *)
Lemma IpcRequest_awg_lines (conf : DeviceConfig) :
  single_line_config conf = true ->
  text_lines (IpcRequest (CreateIPCRequest conf).1)
  = head_lines conf ++ device_awg_lines conf ++ tail_lines conf
    ++ [EmptyString]
  /\ List.filter is_awg_line
       (text_lines (IpcRequest (CreateIPCRequest conf).1))
     = device_awg_lines conf.
Proof.
  unfold single_line_config. rewrite !andb_true_iff.
  intros ((Hsk & Hawg) & Hpeers).
  assert (Forall (fun line => single_line line = true
                              /\ is_awg_line line = false)
            (head_lines conf)) as Hhead.
  { unfold head_lines. constructor.
    - split; [|reflexivity]. rewrite single_line_app, Hsk. reflexivity.
    - destruct (ListenPort conf); repeat constructor.
      rewrite single_line_app, FormatInt_single_line. reflexivity. }
  assert (Forall (fun line => single_line line = true
                              /\ is_awg_line line = false)
            (tail_lines conf)) as Htail.
  { unfold tail_lines. apply Forall_flat_map. intros peer Hin.
    apply peer_lines_plain. rewrite forallb_forall in Hpeers.
    exact (Hpeers peer Hin). }
  assert (Forall (fun line => single_line line = true
                              /\ is_awg_line line = true)
            (device_awg_lines conf)) as Hmid.
  { unfold device_awg_lines. destruct (ASecConfig conf) as [c|];
      [|constructor].
    apply List.Forall_forall. intros line Hin.
    apply awg_lines_elem in Hin as (f & v & Hv & ->). split.
    - rewrite !single_line_app, (awg_value_single_line c f v Hawg Hv).
      destruct f; reflexivity.
    - apply is_awg_line_key. }
  rewrite IpcRequest_lines, text_lines_join.
  - rewrite <- !app_assoc. split; [reflexivity|].
    rewrite !List.filter_app.
    rewrite (filter_none is_awg_line (head_lines conf)),
      (filter_all is_awg_line (device_awg_lines conf)),
      (filter_none is_awg_line (tail_lines conf)).
    + simpl. rewrite app_nil_r. reflexivity.
    + eapply List.Forall_impl; [|exact Htail]. intros a [? ?]; assumption.
    + eapply List.Forall_impl; [|exact Hmid]. intros a [? ?]; assumption.
    + eapply List.Forall_impl; [|exact Hhead]. intros a [? ?]; assumption.
  - repeat apply Forall_app_2;
      (eapply List.Forall_impl; [|eassumption]); intros a [? ?]; assumption.
Qed.

(** C5, as amended. For every device configuration none of whose texts has
    a line feed in it: the lines of the IPC text that belong to an
    AmneziaWG field are the lines key=value of the fields that are set, in
    the order jc, jmin, jmax, s1..s4, h1..h4, i1..i5, an H field printed as
    N or N-M and an I field as it is, and they stand between the lines of
    the key and the port and those of the peers; so the text has a line for
    a field exactly when the field is set. *)
Theorem ipc_gating (conf : DeviceConfig) :
  single_line_config conf = true ->
  text_lines (IpcRequest (CreateIPCRequest conf).1)
  = head_lines conf ++ device_awg_lines conf ++ tail_lines conf
    ++ [EmptyString]
  /\ List.filter is_awg_line
       (text_lines (IpcRequest (CreateIPCRequest conf).1))
     = device_awg_lines conf
  /\ (forall f : awg_field,
        has_line (IpcRequest (CreateIPCRequest conf).1) f <-> field_set conf f).
Proof.
  intros H. destruct (IpcRequest_awg_lines conf H) as [Hlines Hfilter].
  split; [exact Hlines|].
  split; [exact Hfilter|]. intros f. unfold has_line, field_set. split.
  - intros (line & Hin & Hf).
    assert (In line (device_awg_lines conf)) as Hawg.
    { rewrite <- Hfilter. apply filter_In. split; [exact Hin|].
      exact (is_line_of_awg f line Hf). }
    unfold device_awg_lines in Hawg.
    destruct (ASecConfig conf) as [c|]; [|destruct Hawg].
    apply awg_lines_elem in Hawg as (g & v & Hv & ->).
    apply is_line_of_key in Hf as ->. exists c, v. tauto.
  - intros (c & v & Hc & Hv). exists (awg_key f +:+ "=" +:+ v). split.
    + rewrite Hlines. apply in_or_app. right. apply in_or_app. left.
      unfold device_awg_lines. rewrite Hc. apply awg_lines_elem.
      exists f, v. tauto.
    + apply is_line_of_key. reflexivity.
Qed.

(** The device of the test of I1 alone. *)
Lemma ipc_gating_witness :
  text_lines (IpcRequest (CreateIPCRequest handshake_only).1)
  = head_lines handshake_only ++ device_awg_lines handshake_only
    ++ tail_lines handshake_only ++ [EmptyString]
  /\ List.filter is_awg_line
       (text_lines (IpcRequest (CreateIPCRequest handshake_only).1))
     = device_awg_lines handshake_only
  /\ (forall f : awg_field,
        has_line (IpcRequest (CreateIPCRequest handshake_only).1) f
        <-> field_set handshake_only f).
Proof. apply (ipc_gating handshake_only). reflexivity. Defined.

(** C5, as stated, fails when a text has a line feed in it: with I1 set to
    the two lines [x] and [jc=9] and nothing else, the record passes
    [ValidateASecConfig], Jc is not set, and the IPC text has the line
    [jc=9]. *)
Lemma ipc_gating_counterexample :
  ValidateASecConfig (ASecConfig two_line_I1) = None
  /\ has_line (IpcRequest (CreateIPCRequest two_line_I1).1) F_jc
  /\ ~ field_set two_line_I1 F_jc.
Proof.
  split; [reflexivity|]. split.
  - exists "jc=9". split; [|reflexivity].
    assert (text_lines (IpcRequest (CreateIPCRequest two_line_I1).1)
            = ["private_key=00"; "i1=x"; "jc=9"; EmptyString]) as ->
      by (vm_compute; reflexivity).
    simpl. tauto.
  - intros (c & v & Hc & Hv). injection Hc as <-. discriminate Hv.
Qed.


(** ** The header of a SOCKS5 UDP request *)

Section Socks5HeaderFacts.

Variable IP_String : list Byte.byte -> string.

Lemma byte_eqb_refl (b : Byte.byte) : Byte.eqb b b = true.
Proof. apply Byte.byte_dec_lb. reflexivity. Qed.

Lemma byte_eqb_neq (a b : Byte.byte) : a <> b -> Byte.eqb a b = false.
Proof.
  intros H. destruct (Byte.eqb a b) eqn:E; [|reflexivity].
  exfalso. apply H, Byte.byte_dec_bl, E.
Qed.

Lemma BigEndian_Uint16_pair (hi lo : Byte.byte) :
  BigEndian_Uint16 [hi; lo] = declared_port hi lo.
Proof. unfold BigEndian_Uint16, declared_port, byte_at. cbn [nth]. lia. Qed.

(** The header of an IPv4 request. *)
Lemma parse_IPv4 (a b c d hi lo : Byte.byte) (payload : list Byte.byte) :
  parseSocks5HeaderFast IP_String
    (request_datagram Byte.x01 [a; b; c; d] hi lo payload)
  = (IP_String (net_IPv4 a b c d), declared_port hi lo, 10%nat, true).
Proof.
  unfold parseSocks5HeaderFast, request_datagram. simpl.
  rewrite <- BigEndian_Uint16_pair. reflexivity.
Qed.

(** The header of an IPv6 request. *)
Lemma parse_IPv6 (addr : list Byte.byte) (hi lo : Byte.byte)
    (payload : list Byte.byte) :
  length addr = 16%nat ->
  parseSocks5HeaderFast IP_String
    (request_datagram Byte.x04 addr hi lo payload)
  = (IP_String addr, declared_port hi lo, 22%nat, true)
  /\ payload_of (request_datagram Byte.x04 addr hi lo payload) 22 = payload.
Proof.
  intros Hlen.
  do 16 (destruct addr as [|? addr]; [discriminate Hlen|]).
  destruct addr; [|discriminate Hlen].
  unfold parseSocks5HeaderFast, request_datagram. simpl.
  rewrite <- BigEndian_Uint16_pair. split; reflexivity.
Qed.

(** The header of a request for a domain, in a datagram of at least 10
    bytes. *)
Lemma parse_domain (len : Byte.byte) (name : list Byte.byte)
    (hi lo : Byte.byte) (payload : list Byte.byte) :
  length name = N.to_nat (Byte.to_N len) ->
  (10 <= length (request_datagram Byte.x03 (len :: name) hi lo payload))%nat ->
  parseSocks5HeaderFast IP_String
    (request_datagram Byte.x03 (len :: name) hi lo payload)
  = (String.string_of_list_byte name, declared_port hi lo,
     (7 + length name)%nat, true)
  /\ payload_of (request_datagram Byte.x03 (len :: name) hi lo payload)
       (7 + length name) = payload.
Proof.
  intros Hlen Hten. unfold parseSocks5HeaderFast.
  assert ((length (request_datagram Byte.x03 (len :: name) hi lo payload)
           <? 10)%nat = false) as -> by (apply Nat.ltb_ge; exact Hten).
  unfold request_datagram in *.
  cbn [app byte_at nth]. rewrite !byte_eqb_refl. cbn [negb orb].
  rewrite <- Hlen.
  assert ((length (Byte.x00 :: Byte.x00 :: Byte.x00 :: Byte.x03 :: len
                   :: name ++ hi :: lo :: payload)
           <? 7 + length name)%nat = false) as ->.
  { apply Nat.ltb_ge. cbn [length]. rewrite length_app. cbn [length]. lia. }
  unfold slice, payload_of.
  replace (5 + length name - 5)%nat with (length name) by lia.
  replace (5 + length name + 2 - (5 + length name))%nat with 2%nat by lia.
  replace (7 + length name)%nat with (S (S (S (S (S (length name + 2))))))
    by lia.
  replace (5 + length name)%nat with (S (S (S (S (S (length name))))))
    by lia.
  cbn [skipn]. rewrite ?drop_0.
  rewrite (take_app_length name), (drop_app_length name).
  replace (name ++ hi :: lo :: payload) with ((name ++ [hi; lo]) ++ payload)
    by (rewrite <- app_assoc; reflexivity).
  replace (length name + 2)%nat with (length (name ++ [hi; lo]))
    by (rewrite length_app; reflexivity).
  rewrite (drop_app_length (name ++ [hi; lo])).
  cbn [firstn]. rewrite BigEndian_Uint16_pair. split; reflexivity.
Qed.

(** The parser accepts exactly the datagrams of at least 10 bytes that the
    request table does not refuse. *)
Lemma parse_ok_iff (data : list Byte.byte) :
  (parseSocks5HeaderFast IP_String data).2 = true
  <-> (10 <= length data)%nat /\ ~ refused data.
Proof.
  unfold parseSocks5HeaderFast, refused, declared_header_length.
  destruct (length data <? 10)%nat eqn:Hten.
  { apply Nat.ltb_lt in Hten. simpl. split; [discriminate|]. lia. }
  apply Nat.ltb_ge in Hten. cbn [orb].
  destruct (Byte.eqb (byte_at data 0) Byte.x00) eqn:H0;
    [apply Byte.byte_dec_bl in H0|].
  2:{ simpl. split; [discriminate|]. intros [_ H]. exfalso. apply H. left.
      intros E. rewrite E in H0. discriminate. }
  destruct (Byte.eqb (byte_at data 1) Byte.x00) eqn:H1;
    [apply Byte.byte_dec_bl in H1|].
  2:{ simpl. split; [discriminate|]. intros [_ H]. exfalso. apply H. right.
      left. intros E. rewrite E in H1. discriminate. }
  destruct (Byte.eqb (byte_at data 2) Byte.x00) eqn:H2;
    [apply Byte.byte_dec_bl in H2|].
  2:{ simpl. split; [discriminate|]. intros [_ H]. exfalso. apply H. right.
      right. left. intros E. rewrite E in H2. discriminate. }
  cbn [negb orb].
  destruct (byte_at data 3) eqn:H3;
    try (simpl; split; [discriminate|]; intros [_ H]; exfalso; apply H;
         right; right; right; left; repeat split; discriminate).
  - (* IPv4 *)
    simpl. split; [intros _|reflexivity]. split; [exact Hten|].
    intros [H|[H|[H|[H|H]]]]; try contradiction; [tauto|lia].
  - (* domain *)
    destruct (length data <? 7 + N.to_nat (Byte.to_N (byte_at data 4)))%nat
      eqn:Hlen.
    + apply Nat.ltb_lt in Hlen. simpl. split; [discriminate|].
      intros [_ H]. exfalso. apply H. right. right. right. right. exact Hlen.
    + apply Nat.ltb_ge in Hlen. simpl. split; [intros _|reflexivity].
      split; [exact Hten|].
      intros [H|[H|[H|[H|H]]]]; try contradiction; [tauto|lia].
  - (* IPv6 *)
    destruct (length data <? 22)%nat eqn:Hlen.
    + apply Nat.ltb_lt in Hlen. simpl. split; [discriminate|].
      intros [_ H]. exfalso. apply H. right. right. right. right. exact Hlen.
    + apply Nat.ltb_ge in Hlen. simpl. split; [intros _|reflexivity].
      split; [exact Hten|].
      intros [H|[H|[H|[H|H]]]]; try contradiction; [tauto|lia].
Qed.

End Socks5HeaderFacts.

(** C6, as amended. A datagram of the request table (RSV = 00 00, FRAG = 00,
    ATYP 01, 03 or 04, a complete DST.ADDR, DST.PORT) that is at least 10
    bytes long is accepted, with the host, the port and the payload it
    declares; and a datagram is rejected when RSV, FRAG or ATYP is invalid,
    when the header it declares is longer than the datagram, and also when
    it is shorter than 10 bytes. *)
Theorem socks5_header_parse (IP_String : list Byte.byte -> string) :
  (forall (atyp : Byte.byte) (addr : list Byte.byte)
          (port_hi port_lo : Byte.byte) (payload : list Byte.byte),
     let data := request_datagram atyp addr port_hi port_lo payload in
     complete_addr atyp addr -> (10 <= length data)%nat ->
     parseSocks5HeaderFast IP_String data
     = (declared_host IP_String atyp addr, declared_port port_hi port_lo,
        (6 + length addr)%nat, true)
     /\ payload_of data (6 + length addr) = payload)
  /\ (forall data : list Byte.byte,
        refused data \/ (length data < 10)%nat ->
        (parseSocks5HeaderFast IP_String data).2 = false).
Proof.
  split.
  - intros atyp addr hi lo payload data
      [[-> Hlen]|[(-> & len & name & -> & Hlen)|[-> Hlen]]] Hten;
      subst data.
    + do 4 (destruct addr as [|? addr]; [discriminate Hlen|]).
      destruct addr; [|discriminate Hlen].
      rewrite parse_IPv4. split; reflexivity.
    + destruct (parse_domain IP_String len name hi lo payload Hlen Hten)
        as [Hp Hpay].
      rewrite Hp. cbn [length tl declared_host]. split; [reflexivity|].
      exact Hpay.
    + destruct (parse_IPv6 IP_String addr hi lo payload Hlen) as [Hp Hpay].
      rewrite Hp, Hlen. split; [reflexivity|exact Hpay].
  - intros data H.
    destruct (parseSocks5HeaderFast IP_String data).2 eqn:Hok;
      [|reflexivity].
    apply parse_ok_iff in Hok as [Hten Hnot]. exfalso.
    destruct H as [H|H]; [exact (Hnot H)|lia].
Qed.

(** The IPv4 request for 10.0.0.1, port 53, with a payload of one byte. *)
Lemma socks5_header_parse_witness :
  let IP_String := fun _ : list Byte.byte => EmptyString in
  let data :=
    request_datagram Byte.x01 [Byte.x0a; Byte.x00; Byte.x00; Byte.x01]
      Byte.x00 Byte.x35 [Byte.xff] in
  (parseSocks5HeaderFast IP_String data
   = (declared_host IP_String Byte.x01
        [Byte.x0a; Byte.x00; Byte.x00; Byte.x01],
      declared_port Byte.x00 Byte.x35, 10%nat, true)
   /\ payload_of data 10 = [Byte.xff])
  /\ (parseSocks5HeaderFast IP_String [Byte.x00; Byte.x00; Byte.x01]).2
     = false.
Proof.
  intros IP_String data. split.
  - apply (proj1 (socks5_header_parse IP_String) Byte.x01
             [Byte.x0a; Byte.x00; Byte.x00; Byte.x01] Byte.x00 Byte.x35
             [Byte.xff]).
    + left. split; reflexivity.
    + simpl. lia.
  - apply (proj2 (socks5_header_parse IP_String)
             [Byte.x00; Byte.x00; Byte.x01]).
    right. simpl. lia.
Defined.

(** C6, as stated, fails for a short datagram: the request for the domain
    [a], port 53, without payload is laid out per the request table, with a
    complete DST.ADDR and DST.PORT within its 8 bytes, and is rejected. *)
Lemma socks5_header_counterexample :
  complete_addr Byte.x03 [Byte.x01; Byte.x61]
  /\ ~ refused short_domain_datagram
  /\ forall IP_String : list Byte.byte -> string,
       (parseSocks5HeaderFast IP_String short_domain_datagram).2 = false.
Proof.
  split; [|split].
  - right. left. split; [reflexivity|].
    exists Byte.x01, [Byte.x61]. split; reflexivity.
  - unfold refused, short_domain_datagram, declared_header_length. simpl.
    intros [H|[H|[H|[H|H]]]]; try (apply H; reflexivity); [|lia].
    destruct H as (_ & H & _). apply H. reflexivity.
  - intros IP_String. reflexivity.
Qed.


(** ** [DNSCache.Resolve] *)

(** For a [ttl] that is a [Duration], the saturated difference is below
    [ttl] only when the difference is. *)
Lemma Time_Sub_lt (now stamp ttl : Z) :
  ttl <= maxDuration -> Time_Sub now stamp < ttl -> now - stamp < ttl.
Proof. unfold Time_Sub, maxDuration, minDuration. lia. Qed.

Lemma Time_Sub_lt_conv (now stamp ttl : Z) :
  minDuration < ttl -> now - stamp < ttl -> Time_Sub now stamp < ttl.
Proof. unfold Time_Sub, maxDuration, minDuration. lia. Qed.

(** The loop over the answers chooses the first IPv4 address. *)
Lemma first_IPv4_Some (ips : list (list Byte.byte))
    (chosen : list Byte.byte) :
  first_IPv4 ips = Some chosen ->
  exists before after : list (list Byte.byte),
    ips = before ++ chosen :: after /\ To4 chosen <> None
    /\ Forall (fun candidate => To4 candidate = None) before.
Proof.
  induction ips as [|candidate ips IH]; simpl; [discriminate|].
  destruct (To4 candidate) as [v4|] eqn:H4.
  - intros [= <-]. exists [], ips. repeat split; [congruence|constructor].
  - intros H. destruct (IH H) as (before & after & -> & Hc & Hb).
    exists (candidate :: before), after. repeat split; [exact Hc|].
    constructor; assumption.
Qed.

Lemma first_IPv4_None (ips : list (list Byte.byte)) :
  first_IPv4 ips = None ->
  Forall (fun candidate => To4 candidate = None) ips.
Proof.
  induction ips as [|candidate ips IH]; simpl; [constructor|].
  destruct (To4 candidate) as [v4|] eqn:H4; [discriminate|].
  intros H. constructor; [exact H4|exact (IH H)].
Qed.

(** C9. [Resolve] returns the cached address, without a lookup, only when
    the entry of the host satisfies now - inserted_at < ttl (and does so
    whenever it is satisfied, the smallest [Duration] as [ttl] apart);
    otherwise it looks the host up, and when the lookup gives addresses it
    chooses the first IPv4 one if any and else the first one, inserts it
    with the time of the insertion and returns it; it returns an error
    exactly when the lookup it made gave an error or no address. *)
Theorem resolve_behaviour (d : DNSCache) (host : string) (env : resolve_env) :
  ttl d <= maxDuration ->
  let r := Resolve d host env in
  (res_lookups r = [] ->
   exists entry : cacheEntry,
     cache d !! host = Some entry
     /\ now_read env - timestamp entry < ttl d
     /\ res_ip r = Some (ip entry) /\ res_err r = None /\ res_cache r = d)
  /\ (forall entry : cacheEntry,
        cache d !! host = Some entry ->
        now_read env - timestamp entry < ttl d -> minDuration < ttl d ->
        res_lookups r = [] /\ res_ip r = Some (ip entry))
  /\ (res_lookups r <> [] ->
      res_lookups r = [host]
      /\ forall ips : list (list Byte.byte),
           LookupIP env host = (ips, None) -> ips <> [] ->
           exists chosen : list Byte.byte,
             chosen_from ips chosen
             /\ res_ip r = Some chosen /\ res_err r = None
             /\ res_cache r
                = {| cache := <[host := {| ip := chosen;
                                           timestamp := now_write env |}]>
                                (cache d);
                     ttl := ttl d |})
  /\ (res_err r <> None
      <-> res_lookups r = [host]
          /\ ((LookupIP env host).2 <> None \/ (LookupIP env host).1 = [])).
Proof.
  intros Httl r. subst r. unfold Resolve.
  destruct (cache d !! host) as [entry|] eqn:Hentry.
  - destruct (Time_Sub (now_read env) (timestamp entry) <? ttl d) eqn:Hfresh.
    + apply Z.ltb_lt in Hfresh. cbn [res_lookups res_ip res_err res_cache].
      split; [|split; [|split]].
      * intros _. exists entry. repeat split.
        exact (Time_Sub_lt _ _ _ Httl Hfresh).
      * intros entry' [= <-] _ _. split; reflexivity.
      * intros H. congruence.
      * split; [congruence|]. intros [H _]. discriminate H.
    + apply Z.ltb_ge in Hfresh.
      destruct (LookupIP env host) as [ips [err|]] eqn:Hlookup;
        [|destruct ips as [|first ips']];
        cbn [res_lookups res_ip res_err res_cache fst snd].
      * split; [discriminate|]. split.
        { intros entry' [= <-] Hlt Hmin.
          pose proof (Time_Sub_lt_conv _ _ _ Hmin Hlt). lia. }
        split; [intros _; split; [reflexivity|]; intros ips0 [= _ H];
                discriminate H|].
        split; [intros _; split; [reflexivity|left; discriminate]
               |discriminate].
      * split; [discriminate|]. split.
        { intros entry' [= <-] Hlt Hmin.
          pose proof (Time_Sub_lt_conv _ _ _ Hmin Hlt). lia. }
        split; [intros _; split; [reflexivity|]; intros ips0 [= <-] H;
                congruence|].
        split; [intros _; split; [reflexivity|right; reflexivity]
               |discriminate].
      * split; [discriminate|]. split.
        { intros entry' [= <-] Hlt Hmin.
          pose proof (Time_Sub_lt_conv _ _ _ Hmin Hlt). lia. }
        split.
        { intros _. split; [reflexivity|]. intros ips0 [= <-] _.
          destruct (first_IPv4 (first :: ips')) as [candidate|] eqn:Hfirst.
          - exists candidate. split; [left; exact (first_IPv4_Some _ _ Hfirst)|].
            repeat split.
          - exists first. split; [right; split;
                                  [exact (first_IPv4_None _ Hfirst)|reflexivity]|].
            repeat split. }
        split; [congruence|]. intros [_ [H|H]]; [congruence|discriminate H].
  - destruct (LookupIP env host) as [ips [err|]] eqn:Hlookup;
      [|destruct ips as [|first ips']];
      cbn [res_lookups res_ip res_err res_cache fst snd].
    + split; [discriminate|]. split; [discriminate|].
      split; [intros _; split; [reflexivity|]; intros ips0 [= _ H];
              discriminate H|].
      split; [intros _; split; [reflexivity|left; discriminate]|discriminate].
    + split; [discriminate|]. split; [discriminate|].
      split; [intros _; split; [reflexivity|]; intros ips0 [= <-] H;
              congruence|].
      split; [intros _; split; [reflexivity|right; reflexivity]|discriminate].
    + split; [discriminate|]. split; [discriminate|].
      split.
      { intros _. split; [reflexivity|]. intros ips0 [= <-] _.
        destruct (first_IPv4 (first :: ips')) as [candidate|] eqn:Hfirst.
        - exists candidate. split; [left; exact (first_IPv4_Some _ _ Hfirst)|].
          repeat split.
        - exists first. split; [right; split;
                                [exact (first_IPv4_None _ Hfirst)|reflexivity]|].
          repeat split. }
      split; [congruence|]. intros [_ [H|H]]; [congruence|discriminate H].
Qed.

(** A lookup that answers an IPv6 address and then an IPv4 address, with a
    cache that knows nothing. *)
Lemma resolve_behaviour_witness :
  res_err (Resolve empty_cache "example.org" lookup_v6_v4) <> None
  <-> res_lookups (Resolve empty_cache "example.org" lookup_v6_v4)
      = ["example.org"]
      /\ ((LookupIP lookup_v6_v4 "example.org").2 <> None
          \/ (LookupIP lookup_v6_v4 "example.org").1 = []).
Proof.
  assert (ttl empty_cache <= maxDuration) as Httl
    by (vm_compute; discriminate).
  destruct (resolve_behaviour empty_cache "example.org" lookup_v6_v4 Httl)
    as (_ & _ & _ & H).
  exact H.
Defined.


(** ** The pool of connections *)

(** *** The scan of the capacity eviction *)

Lemma replace_first_length (p : UDPConnectionPool) (key : string)
    (oldest : list string) :
  length (replace_first p key oldest) = length oldest.
Proof.
  induction oldest as [|oldKey rest IH]; simpl; [reflexivity|].
  destruct (Time_Before _ _); simpl; [reflexivity|]. rewrite IH. reflexivity.
Qed.

(** The inner loop replaces the first key of the buffer whose connection
    was used after that of the new key, and nothing if there is none. *)
Lemma replace_first_spec (p : UDPConnectionPool) (key : string)
    (oldest : list string) :
  (exists (i : nat) (oldKey : string),
     oldest !! i = Some oldKey
     /\ lastUsed_of p key < lastUsed_of p oldKey
     /\ (forall (j : nat) (k : string),
           (j < i)%nat -> oldest !! j = Some k ->
           ~ lastUsed_of p key < lastUsed_of p k)
     /\ replace_first p key oldest = <[i := key]> oldest)
  \/ ((forall k : string,
         In k oldest -> ~ lastUsed_of p key < lastUsed_of p k)
      /\ replace_first p key oldest = oldest).
Proof.
  induction oldest as [|oldKey rest IH].
  - right. split; [intros k []|reflexivity].
  - cbn [replace_first]. unfold Time_Before.
    destruct (lastUsed_of p key <? lastUsed_of p oldKey) eqn:Hlt.
    + apply Z.ltb_lt in Hlt. left. exists 0%nat, oldKey.
      repeat split; [exact Hlt|]. intros j k Hj. lia.
    + apply Z.ltb_ge in Hlt.
      destruct IH as [(i & k' & Hi & Hk' & Hfirst & Heq)|[Hnone Heq]].
      * left. exists (S i), k'. repeat split; [exact Hi|exact Hk'| |].
        -- intros [|j] k Hj Hk; simpl in Hk.
           ++ injection Hk as <-. lia.
           ++ apply (Hfirst j k); [lia|exact Hk].
        -- rewrite Heq. reflexivity.
      * right. split; [|rewrite Heq; reflexivity].
        intros k [<-|Hk]; [lia|exact (Hnone k Hk)].
Qed.

Lemma scan_step_older (p : UDPConnectionPool) (count : Z)
    (oldest : list string) (key : string) :
  older_step p count oldest key (scan_step p count oldest key).
Proof.
  unfold older_step, scan_step.
  destruct (Z.of_nat (length oldest) <? count) eqn:Hfree.
  - apply Z.ltb_lt in Hfree. left. split; [exact Hfree|reflexivity].
  - apply Z.ltb_ge in Hfree. right.
    destruct (replace_first_spec p key oldest) as [H|H].
    + left. split; [exact Hfree|exact H].
    + right. split; [exact Hfree|exact H].
Qed.

Lemma scan_length (p : UDPConnectionPool) (count : Z) (order : list string)
    (oldest : list string) :
  Z.of_nat (length oldest) <= count ->
  Z.of_nat (length (fold_left (scan_step p count) order oldest)) <= count.
Proof.
  revert oldest. induction order as [|key order IH]; intros oldest Hlen;
    [exact Hlen|].
  cbn [fold_left]. apply IH. unfold scan_step.
  destruct (Z.of_nat (length oldest) <? count) eqn:Hfree.
  - apply Z.ltb_lt in Hfree. rewrite length_app. cbn [length]. lia.
  - rewrite replace_first_length. exact Hlen.
Qed.

(** *** Removal of keys *)

Lemma remove_key_lookup (p : UDPConnectionPool) (key k : string) :
  connections (remove_key p key) !! k
  = if decide (key = k) then None else connections p !! k.
Proof.
  unfold remove_key. destruct (connections p !! key) as [a|] eqn:Hkey;
    cbn [connections].
  - rewrite lookup_delete. reflexivity.
  - destruct (decide (key = k)) as [<-|]; [exact Hkey|reflexivity].
Qed.

Lemma remove_key_lock (p : UDPConnectionPool) (key k : string) :
  k ∈ creationLock (remove_key p key) <-> k ∈ creationLock p /\ k <> key.
Proof.
  unfold remove_key. destruct (connections p !! key); cbn [creationLock];
    set_solver.
Qed.

Lemma shut_down_is_shut_down (c : UDPConnection) : is_shut_down (shut_down c).
Proof.
  unfold is_shut_down, shut_down. cbn [conn_closed readerDone].
  split; [reflexivity|].
  destruct (length (readerDone c) <? 1)%nat eqn:Hlen.
  - destruct (readerDone c); discriminate.
  - destruct (readerDone c); [discriminate Hlen|discriminate].
Qed.

Lemma remove_key_mem (p : UDPConnectionPool) (key : string) (a : nat) :
  is_shut_down (mem p a) -> is_shut_down (mem (remove_key p key) a).
Proof.
  intros H. unfold remove_key. destruct (connections p !! key) as [b|];
    cbn [mem]; [|exact H].
  unfold store. destruct (Nat.eqb a b); [apply shut_down_is_shut_down|exact H].
Qed.

Lemma remove_key_shuts (p : UDPConnectionPool) (key : string) (a : nat) :
  connections p !! key = Some a -> is_shut_down (mem (remove_key p key) a).
Proof.
  intros H. unfold remove_key. rewrite H. cbn [mem]. unfold store.
  rewrite Nat.eqb_refl. apply shut_down_is_shut_down.
Qed.

Lemma fold_remove_keeps (l : list string) (p : UDPConnectionPool)
    (k : string) (a : nat) :
  ((connections p !! k) = None ->
   (connections (fold_left remove_key l p) !! k) = None)
  /\ (k ∉ creationLock p -> k ∉ creationLock (fold_left remove_key l p))
  /\ (is_shut_down (mem p a) ->
      is_shut_down (mem (fold_left remove_key l p) a)).
Proof.
  revert p. induction l as [|key l IH]; intros p; [tauto|].
  cbn [fold_left]. destruct (IH (remove_key p key)) as (H1 & H2 & H3).
  split; [|split].
  - intros H. apply H1. rewrite remove_key_lookup.
    destruct (decide (key = k)); [reflexivity|exact H].
  - intros H. apply H2. rewrite remove_key_lock. tauto.
  - intros H. apply H3, remove_key_mem, H.
Qed.

(** Every key of the list leaves the map and the set of keys in creation,
    and the connection it had is shut down. *)
Lemma fold_remove_removes (l : list string) (p : UDPConnectionPool)
    (k : string) :
  In k l ->
  (connections (fold_left remove_key l p) !! k = None)
  /\ (k ∉ creationLock (fold_left remove_key l p))
  /\ (forall a : nat,
        connections p !! k = Some a ->
        is_shut_down (mem (fold_left remove_key l p) a)).
Proof.
  revert p. induction l as [|key l IH]; intros p; [intros []|].
  cbn [fold_left]. destruct (decide (key = k)) as [->|Hne].
  - intros _.
    destruct (fold_remove_keeps l (remove_key p k) k 0) as (H1 & H2 & _).
    split; [|split].
    + apply H1. rewrite remove_key_lookup.
      destruct (decide (k = k)); [reflexivity|congruence].
    + apply H2. rewrite remove_key_lock. tauto.
    + intros a Ha.
      destruct (fold_remove_keeps l (remove_key p k) k a) as (_ & _ & H3).
      apply H3, remove_key_shuts, Ha.
  - intros [Heq|Hin]; [congruence|].
    destruct (IH (remove_key p key) Hin) as (H1 & H2 & H3).
    split; [exact H1|]. split; [exact H2|]. intros a Ha. apply H3.
    rewrite remove_key_lookup. destruct (decide (key = k)); [congruence|].
    exact Ha.
Qed.

(** C8, as amended. In the capacity eviction ([cleanupOldestLocked], which
    [Set] runs with a buffer of 5 when current_size >= max_size, and which
    does nothing unless current_size exceeds the size of the buffer), each
    key scanned fills a free slot of the buffer, or replaces the first
    buffered key whose connection was last used strictly after the
    connection of the new key, or is skipped when there is none; the
    buffer never holds more than 5 keys; each buffered key is then
    removed as [Delete] removes it: its connection is signalled and closed
    and the key leaves the map and the set of keys in creation. *)
Theorem capacity_eviction (p : UDPConnectionPool) :
  (forall (count : Z) (oldest : list string) (key : string),
     older_step p count oldest key (scan_step p count oldest key))
  /\ (forall order : list string,
        (length (fold_left (scan_step p 5) order []) <= 5)%nat)
  /\ (forall (key : string) (a : nat) (now : Z) (order : list string),
        maxSize p <= currentSize p ->
        connections (Set_ key a now order p)
        = <[key := a]> (connections (cleanupOldestLocked 5 order p)))
  /\ (forall (count : Z) (order : list string),
        count < currentSize p ->
        let oldest := fold_left (scan_step p count) order [] in
        let p' := cleanupOldestLocked count order p in
        p' = fold_left (fun q key => Delete key q) oldest p
        /\ forall key : string,
             In key oldest ->
             (connections p' !! key = None)
             /\ (key ∉ creationLock p')
             /\ forall a : nat,
                  connections p !! key = Some a -> is_shut_down (mem p' a)).
Proof.
  split; [exact (scan_step_older p)|]. split; [|split].
  - intros order.
    pose proof (scan_length p 5 order [] ltac:(simpl; lia)). lia.
  - intros key a now order Hfull. unfold Set_.
    assert ((maxSize p <=? currentSize p) = true) as ->
      by (apply Z.leb_le; exact Hfull).
    reflexivity.
  - intros count order Hcount oldest p'. subst oldest p'.
    unfold cleanupOldestLocked.
    assert ((currentSize p <=? count) = false) as ->
      by (apply Z.leb_gt; exact Hcount).
    cbv zeta. split; [reflexivity|].
    intros key Hin. apply fold_remove_removes, Hin.
Qed.

(** C8, as stated, fails: in a pool of six connections, with the buffer
    full of keys whose connections were used at 10..50, the scan of a key
    whose connection was used at 0 puts it in the first slot; the step the
    claim describes has no free slot and no buffered key that is older. *)
Lemma capacity_eviction_counterexample :
  scan_step pool_of_six 5 ["a"; "b"; "c"; "d"; "e"] "f"
  = ["f"; "b"; "c"; "d"; "e"]
  /\ ~ claimed_step pool_of_six 5 ["a"; "b"; "c"; "d"; "e"] "f"
         (scan_step pool_of_six 5 ["a"; "b"; "c"; "d"; "e"] "f").
Proof.
  split; [vm_compute; reflexivity|].
  intros [[Hlen _]|(i & oldKey & Hi & Hlt & _)].
  - simpl in Hlen. lia.
  - do 5 (destruct i as [|i];
          [injection Hi as <-; vm_compute in Hlt; discriminate Hlt|]).
    discriminate Hi.
Qed.

(** The pool of six connections, full, with a buffer of 5. *)
Lemma capacity_eviction_witness :
  connections (Set_ "g" 6 60 ["a"; "b"; "c"; "d"; "e"; "f"] pool_of_six)
  = <[ "g" := 6%nat ]>
      (connections
         (cleanupOldestLocked 5 ["a"; "b"; "c"; "d"; "e"; "f"] pool_of_six)).
Proof.
  destruct (capacity_eviction pool_of_six) as (_ & _ & H & _).
  apply (H "g" 6%nat 60 ["a"; "b"; "c"; "d"; "e"; "f"]).
  vm_compute. discriminate.
Defined.

(** *** The size of the pool *)

Lemma remove_key_size (p : UDPConnectionPool) (key : string) :
  size_agrees p -> Z.of_nat (base.size (connections p)) < 2 ^ 63 ->
  size_agrees (remove_key p key)
  /\ (base.size (connections (remove_key p key)) <= base.size (connections p))%nat.
Proof.
  unfold size_agrees, remove_key. intros Hinv Hbound.
  destruct (connections p !! key) as [a|] eqn:Hkey;
    cbn [connections currentSize]; [|split; [exact Hinv|lia]].
  rewrite map_size_delete, Hkey.
  assert (base.size (connections p) <> 0%nat) as Hne.
  { intros H0. apply map_size_empty_inv in H0. rewrite H0 in Hkey.
    rewrite lookup_empty in Hkey. discriminate. }
  rewrite Hinv, wrap_int_small by lia. split; lia.
Qed.

Lemma fold_remove_size (l : list string) (p : UDPConnectionPool) :
  size_agrees p -> Z.of_nat (base.size (connections p)) < 2 ^ 63 ->
  size_agrees (fold_left remove_key l p)
  /\ (base.size (connections (fold_left remove_key l p))
      <= base.size (connections p))%nat.
Proof.
  revert p. induction l as [|key l IH]; intros p Hinv Hbound;
    [split; [exact Hinv|reflexivity]|].
  cbn [fold_left].
  destruct (remove_key_size p key Hinv Hbound) as [Hinv' Hle].
  destruct (IH (remove_key p key) Hinv' ltac:(lia)) as [Hinv'' Hle'].
  split; [exact Hinv''|lia].
Qed.

(** An operation keeps [currentSize] equal to the number of keys when it is
    not a [Set] for a key that is already there, and adds at most one key. *)
Lemma run_op_size (p : UDPConnectionPool) (op : pool_op) :
  size_agrees p -> Z.of_nat (base.size (connections p)) + 1 < 2 ^ 63 ->
  match op with
  | OpSet key _ _ _ => connections p !! key = None
  | _ => True
  end ->
  size_agrees (run_op p op)
  /\ (base.size (connections (run_op p op)) <= base.size (connections p) + 1)%nat.
Proof.
  intros Hinv Hbound Hfresh. destruct op as [key now|key a now order|key|
                                              maxAge now order];
    cbn [run_op].
  - unfold Get, size_agrees in *.
    destruct (connections p !! key); cbn [snd connections currentSize];
      split; try exact Hinv; lia.
  - unfold Set_.
    assert (exists q : UDPConnectionPool,
              (if maxSize p <=? currentSize p
               then cleanupOldestLocked 5 order p else p) = q
              /\ size_agrees q
              /\ (base.size (connections q) <= base.size (connections p))%nat
              /\ connections q !! key = None) as (q & -> & Hq & Hle & Hkey).
    { destruct (maxSize p <=? currentSize p);
        [|exists p; repeat split; [exact Hinv|lia|exact Hfresh]].
      unfold cleanupOldestLocked. destruct (currentSize p <=? 5);
        [exists p; repeat split; [exact Hinv|lia|exact Hfresh]|].
      eexists. split; [reflexivity|].
      destruct (fold_remove_size (fold_left (scan_step p 5) order []) p
                  Hinv ltac:(lia)) as [H1 H2].
      split; [exact H1|]. split; [exact H2|].
      apply (fold_remove_keeps _ p key 0%nat). exact Hfresh. }
    unfold size_agrees in *. cbn [connections currentSize].
    rewrite (map_size_insert_None _ _ _ Hkey), Hq, wrap_int_small by lia.
    split; lia.
  - unfold Delete. destruct (remove_key_size p key Hinv ltac:(lia)).
    split; [assumption|lia].
  - unfold Cleanup, cleanupOldLocked. cbv zeta.
    destruct (fold_remove_size
                (List.filter
                   (fun key => maxAge <? Time_Sub now (lastUsed_of p key))
                   order) p Hinv ltac:(lia)).
    split; [assumption|lia].
Qed.

(** After a sequence of operations in which every [Set] is for a key that
    is not in the pool, [currentSize] is the number of keys. *)
Lemma run_ops_size (ops : list pool_op) (p : UDPConnectionPool) :
  size_agrees p -> sets_fresh ops p ->
  Z.of_nat (base.size (connections p) + length ops) < 2 ^ 63 ->
  size_agrees (run_ops ops p).
Proof.
  unfold run_ops. revert p.
  induction ops as [|op ops IH]; intros p Hinv Hfresh Hbound;
    [exact Hinv|].
  cbn [fold_left]. destruct Hfresh as [Hop Hrest]. cbn [length] in Hbound.
  destruct (run_op_size p op Hinv ltac:(lia) Hop) as [Hinv' Hle].
  apply IH; [exact Hinv'|exact Hrest|lia].
Qed.

(** C7 at two calls of [Set] with one key, from a new pool: the map has one
    key and [currentSize] is 2. *)
Theorem set_present_key_size :
  let p := run_ops [OpSet "c" 1 10 []; OpSet "c" 2 20 ["c"]]
             (NewUDPConnectionPool fresh_mem 1000 1420) in
  currentSize p = 2 /\ base.size (connections p) = 1%nat
  /\ currentSize p <> Z.of_nat (base.size (connections p)).
Proof.
  assert (currentSize
            (run_ops [OpSet "c" 1 10 []; OpSet "c" 2 20 ["c"]]
               (NewUDPConnectionPool fresh_mem 1000 1420)) = 2) as H1
    by (vm_compute; reflexivity).
  assert (base.size (connections
                  (run_ops [OpSet "c" 1 10 []; OpSet "c" 2 20 ["c"]]
                     (NewUDPConnectionPool fresh_mem 1000 1420))) = 1%nat)
    as H2 by (vm_compute; reflexivity).
  cbv zeta. rewrite H1, H2. repeat split. discriminate.
Qed.


(** * Further properties *)

(** ** [ValidateASecConfig]: what it accepts and which error comes first *)

Lemma validate_None_iff (c : ASecConfigType) :
  ValidateASecConfig (Some c) = None
  <-> junk_checks_pass c /\ NoDup (set_sizes c)
      /\ Forall (fun interval => min interval <= max interval)
           (collectEffectiveHeaderIntervals (Some c))
      /\ ~ some_two_overlap (collectEffectiveHeaderIntervals (Some c)).
Proof.
  destruct (junk_checks_dec c) as [Hj|Hj].
  - rewrite (validate_after_junk c Hj). unfold set_sizes.
    rewrite <- (packetSize_outer_None (packetSize_error c)),
      <- bounds_check_false, <- hasOverlapping_iff.
    destruct (packetSize_outer_Some (packetSize_error c) (packetSizes c))
      as [-> | ->].
    + cbv zeta.
      destruct (existsb _ (collectEffectiveHeaderIntervals (Some c))),
        (hasOverlappingHeaderIntervals
           (collectEffectiveHeaderIntervals (Some c)));
        intuition (try discriminate; try congruence).
    + split; [discriminate|]. intros (_ & H & _). discriminate H.
  - split.
    + intros H. destruct (validate_junk_fails c Hj) as [H'|[H'|H']];
        rewrite H' in H; discriminate.
    + intros (H & _). contradiction.
Qed.

(** Accepted records are those that keep every invariant: Jc in 1..128,
    Jmin <= Jmax, Jmax <= 1280, distinct packet sizes, ordered and pairwise
    disjoint effective header intervals. *)
Theorem validate_accepts_iff (c : ASecConfigType) :
  ValidateASecConfig (Some c) = None
  <-> junk_checks_pass c /\ NoDup (set_sizes c)
      /\ Forall (fun interval => min interval <= max interval)
           (collectEffectiveHeaderIntervals (Some c))
      /\ ~ some_two_overlap (collectEffectiveHeaderIntervals (Some c)).
Proof. exact (validate_None_iff c). Qed.

Lemma validate_tail_not_junk (c : ASecConfigType) (e : error) :
  e = err_Jc \/ e = err_Jmin \/ e = err_Jmax ->
  match packetSize_outer (packetSize_error c) (packetSizes c) with
  | Some err => Some err
  | None =>
      if existsb (fun interval => max interval <? min interval)
           (collectEffectiveHeaderIntervals (Some c))
      then Some err_bounds
      else if hasOverlappingHeaderIntervals
                (collectEffectiveHeaderIntervals (Some c))
      then Some err_unique else None
  end <> Some e.
Proof.
  intros He.
  destruct (packetSize_outer_Some (packetSize_error c) (packetSizes c))
    as [-> | ->].
  - destruct (existsb _ _); [|destruct (hasOverlappingHeaderIntervals _)];
      destruct He as [-> | [-> | ->]]; discriminate.
  - unfold packetSize_error.
    destruct (hasCookieReplyPacketJunkSize c || hasTransportPacketJunkSize c);
      destruct He as [-> | [-> | ->]]; discriminate.
Qed.

(** The first failure wins among the junk checks: the error of Jc is
    returned exactly when Jc is set outside 1..128, whatever else the
    record holds; the error of Jmin exactly when Jc passes and Jmin and
    Jmax are set with Jmin > Jmax; the error of Jmax exactly when both pass
    and Jmax is set above 1280. *)
Theorem validate_junk_errors (c : ASecConfigType) :
  let bad_Jc :=
    hasJunkPacketCount c = true
    /\ (junkPacketCount c < 1 \/ 128 < junkPacketCount c) in
  let bad_Jmin :=
    hasJunkPacketMinSize c = true /\ hasJunkPacketMaxSize c = true
    /\ junkPacketMaxSize c < junkPacketMinSize c in
  let bad_Jmax :=
    hasJunkPacketMaxSize c = true /\ 1280 < junkPacketMaxSize c in
  (ValidateASecConfig (Some c) = Some err_Jc <-> bad_Jc)
  /\ (ValidateASecConfig (Some c) = Some err_Jmin <-> ~ bad_Jc /\ bad_Jmin)
  /\ (ValidateASecConfig (Some c) = Some err_Jmax
      <-> ~ bad_Jc /\ ~ bad_Jmin /\ bad_Jmax).
Proof.
  cbv zeta. unfold ValidateASecConfig.
  pose proof (validate_tail_not_junk c err_Jc ltac:(tauto)) as T1.
  pose proof (validate_tail_not_junk c err_Jmin ltac:(tauto)) as T2.
  pose proof (validate_tail_not_junk c err_Jmax ltac:(tauto)) as T3.
  cbv zeta in T1, T2, T3.
  destruct (hasJunkPacketCount c); cbn [andb].
  - destruct ((junkPacketCount c <? 1) || (128 <? junkPacketCount c))
      eqn:HJc.
    + apply orb_true_iff in HJc. rewrite !Z.ltb_lt in HJc.
      repeat split; try discriminate; try tauto.
    + apply orb_false_iff in HJc. rewrite !Z.ltb_ge in HJc.
      destruct (hasJunkPacketMinSize c), (hasJunkPacketMaxSize c);
        cbn [andb];
        try destruct (junkPacketMaxSize c <? junkPacketMinSize c) eqn:HJm;
        try destruct (1280 <? junkPacketMaxSize c) eqn:HJx;
        rewrite ?Z.ltb_lt, ?Z.ltb_ge in *;
        repeat split; intros; try discriminate; try tauto; try lia;
        try (exfalso; tauto).
  - destruct (hasJunkPacketMinSize c), (hasJunkPacketMaxSize c);
      cbn [andb];
      try destruct (junkPacketMaxSize c <? junkPacketMinSize c) eqn:HJm;
      try destruct (1280 <? junkPacketMaxSize c) eqn:HJx;
      rewrite ?Z.ltb_lt, ?Z.ltb_ge in *;
      repeat split; intros; try discriminate; try tauto; try lia;
      try (exfalso; tauto).
Qed.

(** The error of the bounds is returned exactly when the junk checks pass,
    the packet sizes are distinct and some effective interval has its
    lower bound above its upper bound. *)
Theorem validate_bounds_error (c : ASecConfigType) :
  ValidateASecConfig (Some c) = Some err_bounds
  <-> junk_checks_pass c /\ NoDup (set_sizes c)
      /\ Exists (fun interval => max interval < min interval)
           (collectEffectiveHeaderIntervals (Some c)).
Proof.
  assert (forall l : list headerInterval,
            existsb (fun interval => max interval <? min interval) l = true
            <-> Exists (fun interval => max interval < min interval) l)
    as Hex.
  { intros l. rewrite existsb_exists, List.Exists_exists.
    split; intros (x & Hx & H); exists x; (split; [exact Hx|]);
      apply Z.ltb_lt; exact H. }
  destruct (junk_checks_dec c) as [Hj|Hj].
  - rewrite (validate_after_junk c Hj). unfold set_sizes.
    rewrite <- (packetSize_outer_None (packetSize_error c)), <- Hex.
    destruct (packetSize_outer_Some (packetSize_error c) (packetSizes c))
      as [-> | ->].
    + cbv zeta.
      destruct (existsb _ (collectEffectiveHeaderIntervals (Some c)));
        [tauto|].
      destruct (hasOverlappingHeaderIntervals _);
        (split; [discriminate|]); intros (_ & _ & H); discriminate H.
    + split.
      * unfold packetSize_error.
        destruct (hasCookieReplyPacketJunkSize c
                  || hasTransportPacketJunkSize c); discriminate.
      * intros (_ & H & _). discriminate H.
  - split.
    + intros H. destruct (validate_junk_fails c Hj) as [H'|[H'|H']];
        rewrite H' in H; discriminate.
    + intros (H & _). contradiction.
Qed.


(** ** [parseMagicHeaderInterval]: the literals it accepts *)

Lemma Split_not_nil (t : string) (sep : ascii) : gostrings.Split t sep <> [].
Proof.
  destruct t as [|c r]; simpl; [discriminate|].
  destruct (Ascii.eqb c sep); [discriminate|].
  destruct (gostrings.Split r sep); discriminate.
Qed.

Lemma Split_one (t : string) (sep : ascii) (a : string) :
  gostrings.Split t sep = [a] -> t = a.
Proof.
  revert a. induction t as [|c r IH]; simpl; intros a.
  - intros [= <-]. reflexivity.
  - destruct (Ascii.eqb c sep).
    + intros [= _ H]. exfalso. exact (Split_not_nil r sep H).
    + destruct (gostrings.Split r sep) as [|piece pieces] eqn:Hr;
        [exfalso; exact (Split_not_nil r sep Hr)|].
      intros [= <- ->]. rewrite (IH piece eq_refl). reflexivity.
Qed.

Lemma Split_two (t : string) (sep : ascii) (a b : string) :
  gostrings.Split t sep = [a; b] -> t = a +:+ String sep b.
Proof.
  revert a. induction t as [|c r IH]; simpl; intros a; [discriminate|].
  destruct (Ascii.eqb c sep) eqn:Hc.
  - apply Ascii.eqb_eq in Hc. subst c. intros [= <- H].
    rewrite (Split_one r sep b H). reflexivity.
  - destruct (gostrings.Split r sep) as [|piece pieces] eqn:Hr;
      [exfalso; exact (Split_not_nil r sep Hr)|].
    intros [= <- ->]. rewrite (IH piece eq_refl). reflexivity.
Qed.

(** When the loop of [ParseUint] ends without error, it has read digits
    only and returns their value, which fits. *)
Lemma parse_loop_ok (s0 : string) (maxVal : Z) (s : string) (n v : Z) :
  0 <= n <= maxVal -> maxVal <= maxUint64 ->
  strconv.parse_loop s0 maxVal n s = (v, None) ->
  all_digits s = true /\ v = decimal_value_from n s /\ 0 <= v <= maxVal.
Proof.
  intros Hn Hmax. revert n Hn. induction s as [|c s IH]; intros n Hn.
  - simpl. intros [= <-]. repeat split; lia.
  - cbn [strconv.parse_loop all_digits decimal_value_from]. unfold is_digit.
    destruct ((48 <=? Z.of_nat (nat_of_ascii c))
              && (Z.of_nat (nat_of_ascii c) <=? 57)) eqn:Hc;
      [|discriminate].
    apply andb_true_iff in Hc as [Hc1 Hc2].
    apply Z.leb_le in Hc1, Hc2.
    set (d := Z.of_nat (nat_of_ascii c) - 48) in *.
    cbv zeta. unfold maxUint64 in *.
    change ((2 ^ 64 - 1) / 10 + 1) with 1844674407370955162.
    destruct (1844674407370955162 <=? n) eqn:Hcut; [discriminate|].
    apply Z.leb_gt in Hcut. unfold wrap_uint64.
    rewrite (Z.mod_small (n * 10)) by lia.
    destruct (((n * 10 + d) mod 2 ^ 64 <? n * 10)
              || (maxVal <? (n * 10 + d) mod 2 ^ 64)) eqn:Hov;
      [discriminate|].
    apply orb_false_iff in Hov as [Hov1 Hov2].
    apply Z.ltb_ge in Hov1, Hov2.
    assert (n * 10 + d < 2 ^ 64) as Hsmall.
    { destruct (Z_lt_ge_dec (n * 10 + d) (2 ^ 64)) as [H|H]; [exact H|].
      exfalso.
      assert ((n * 10 + d) mod 2 ^ 64 = n * 10 + d - 2 ^ 64) as E.
      { symmetry. apply (Z.mod_unique _ _ 1); lia. }
      lia. }
    rewrite (Z.mod_small (n * 10 + d)) in * by lia.
    intros H. destruct (IH (n * 10 + d) ltac:(lia) H) as (Hd & Hv & Hr).
    rewrite andb_true_l. replace (10 * n + d) with (n * 10 + d) by lia.
    repeat split; try assumption; lia.
Qed.

Lemma ParseUint_ok (s : string) (v : Z) :
  strconv.ParseUint s 32 = (v, None) ->
  digits s /\ v = decimal_value s /\ 0 <= v <= maxUint32.
Proof.
  unfold strconv.ParseUint, digits, decimal_value, maxUint32.
  destruct s as [|c r]; [discriminate|]. intros H.
  apply parse_loop_ok in H; [|lia|unfold maxUint64; lia].
  destruct H as (Hd & Hv & Hr). repeat split; try assumption; try lia.
  discriminate.
Qed.

Lemma ParseUint_digits (s : string) :
  digits s -> decimal_value s <= maxUint32 ->
  strconv.ParseUint s 32 = (decimal_value s, None).
Proof.
  intros [Hne Hd] Hv. unfold strconv.ParseUint.
  destruct s as [|c r]; [congruence|].
  apply parse_loop_digits; try assumption; try lia.
  unfold maxUint64. lia.
Qed.

Lemma parse_interval_ok (value : string) (lo hi : Z) :
  parseMagicHeaderInterval value = (lo, hi, None) ->
  (digits (gostrings.TrimSpace value)
   /\ lo = decimal_value (gostrings.TrimSpace value) /\ hi = lo
   /\ 0 <= lo <= maxUint32)
  \/ (exists a b : string,
        gostrings.TrimSpace value = a +:+ "-" +:+ b
        /\ digits a /\ digits b
        /\ lo = decimal_value a /\ hi = decimal_value b
        /\ 0 <= lo /\ lo <= hi /\ hi <= maxUint32).
Proof.
  unfold parseMagicHeaderInterval.
  set (t := gostrings.TrimSpace value).
  destruct (String.eqb t ""); [discriminate|].
  destruct (gostrings.Split t "-") as [|part0 others] eqn:Hsplit;
    [discriminate|].
  destruct ((2 <? length (part0 :: others))%nat || String.eqb part0 "")
    eqn:Hlen; [discriminate|].
  apply orb_false_iff in Hlen as [Hlen _]. apply Nat.ltb_ge in Hlen.
  destruct (strconv.ParseUint part0 32) as [minValue [err|]] eqn:H0;
    [discriminate|].
  apply ParseUint_ok in H0 as (Hd0 & Hv0 & Hr0).
  destruct others as [|part1 others'].
  - intros [= <- <-]. left. rewrite (Split_one t "-" part0 Hsplit).
    repeat split; try apply Hd0; try exact Hv0; lia.
  - destruct others' as [|x y]; [|simpl in Hlen; lia].
    destruct (String.eqb part1 ""); [discriminate|].
    destruct (strconv.ParseUint part1 32) as [maxValue [err|]] eqn:H1;
      [discriminate|].
    apply ParseUint_ok in H1 as (Hd1 & Hv1 & Hr1).
    destruct (maxValue <? minValue) eqn:Hlt; [discriminate|].
    apply Z.ltb_ge in Hlt. intros [= <- <-]. right.
    exists part0, part1. rewrite (Split_two t "-" part0 part1 Hsplit).
    repeat split; try apply Hd0; try apply Hd1; try assumption; lia.
Qed.

Lemma digits_not_empty (a : string) : digits a -> String.eqb a "" = false.
Proof. intros [H _]. apply String.eqb_neq. exact H. Qed.

(** The literals of an H field that are accepted are, white space at both
    ends apart, the strings of decimal digits whose value is below 2^32
    (zeros in front allowed), read as a scalar, and two such strings joined
    by a dash with the first value not above the second, read as a range;
    the interval returned is made of these values. *)
Theorem parse_interval_accepts (value : string) (lo hi : Z) :
  parseMagicHeaderInterval value = (lo, hi, None)
  <-> (digits (gostrings.TrimSpace value)
       /\ lo = decimal_value (gostrings.TrimSpace value) /\ hi = lo
       /\ lo <= maxUint32)
      \/ (exists a b : string,
            gostrings.TrimSpace value = a +:+ "-" +:+ b
            /\ digits a /\ digits b
            /\ lo = decimal_value a /\ hi = decimal_value b
            /\ lo <= hi /\ hi <= maxUint32).
Proof.
  split.
  - intros H. destruct (parse_interval_ok value lo hi H)
      as [(Hd & Hlo & Hhi & Hr)|(a & b & Ht & Ha & Hb & Hlo & Hhi & Hr)].
    + left. repeat split; try apply Hd; try assumption; lia.
    + right. exists a, b. repeat split; try apply Ha; try apply Hb;
        try assumption; lia.
  - unfold parseMagicHeaderInterval.
    intros [(Hd & -> & -> & Hr)|(a & b & -> & Ha & Hb & -> & -> & Hle & Hr)].
    + rewrite (digits_not_empty _ Hd), (Split_digits _ (proj2 Hd)).
      cbn [length Nat.ltb Nat.leb orb].
      rewrite (digits_not_empty _ Hd), (ParseUint_digits _ Hd Hr).
      reflexivity.
    + change ("-" +:+ b) with (String "-" b).
      assert (String.eqb (a +:+ String "-" b) "" = false) as ->.
      { apply String.eqb_neq. destruct a; discriminate. }
      rewrite (Split_range a b (proj2 Ha) (proj2 Hb)).
      cbn [length Nat.ltb Nat.leb orb].
      rewrite (digits_not_empty _ Ha), (ParseUint_digits a Ha) by lia.
      rewrite (digits_not_empty _ Hb), (ParseUint_digits b Hb Hr).
      assert ((decimal_value b <? decimal_value a) = false) as ->
        by (apply Z.ltb_ge; exact Hle).
      reflexivity.
Qed.


(** ** [ParseASecConfig]: what the record holds *)

Lemma rank_inj (f g : awg_field) : rank f = rank g -> f = g.
Proof. destruct f, g; intros H; try reflexivity; discriminate H. Qed.

Lemma stored_alloc (config : option ASecConfigType) (f : awg_field) :
  stored_value (alloc config) f = stored_in config f.
Proof. destruct config as [c|]; [reflexivity|]. destruct f; reflexivity. Qed.

(** One key of [ParseASecConfig], whatever its kind: when the key is absent
    the record is left as it is; when it is read, the record exists and
    holds the value for the field and what it held for the others. *)
Lemma key_step (section : ini.Section) (n : nat) (g : awg_field)
    (config config' : option ASecConfigType) :
  rank g = n ->
  parsed_up_to section n config ->
  (section (section_key g) = None /\ config' = config)
  \/ (exists (k : ini.Key) (c' : ASecConfigType),
        section (section_key g) = Some k /\ key_readable g k
        /\ config' = Some c'
        /\ forall f : awg_field,
             stored_value c' f
             = if (rank f =? n)%nat then Some (key_value g k)
               else stored_in config f) ->
  parsed_up_to section (S n) config'.
Proof.
  intros Hg (Hval & Hsome & Hread) [[Hkey ->]|(k & c' & Hkey & Hk & -> & Hc')].
  - split; [|split].
    + intros f. rewrite Hval.
      destruct (Nat.ltb_spec (rank f) n) as [Hlt|Hge].
      * assert ((rank f <? S n)%nat = true) as -> by (apply Nat.ltb_lt; lia).
        reflexivity.
      * destruct (Nat.ltb_spec (rank f) (S n)) as [Hlt|Hge'];
          [|reflexivity].
        assert (f = g) as -> by (apply rank_inj; lia).
        unfold section_value. rewrite Hkey. reflexivity.
    + rewrite Hsome. split; intros (f & Hf & Hp).
      * exists f. split; [lia|exact Hp].
      * exists f. split; [|exact Hp].
        destruct (Nat.eq_dec (rank f) n) as [E|E]; [|lia].
        assert (f = g) as -> by (apply rank_inj; lia). congruence.
    + intros f k Hf Hk.
      destruct (Nat.eq_dec (rank f) n) as [E|E].
      * assert (f = g) as -> by (apply rank_inj; lia). congruence.
      * apply Hread; [lia|exact Hk].
  - split; [|split].
    + intros f. cbn [stored_in]. rewrite Hc', Hval.
      destruct (Nat.eqb_spec (rank f) n) as [E|E].
      * assert (f = g) as -> by (apply rank_inj; lia).
        assert ((rank g <? S n)%nat = true) as -> by (apply Nat.ltb_lt; lia).
        unfold section_value. rewrite Hkey. reflexivity.
      * destruct (Nat.ltb_spec (rank f) n) as [Hlt|Hge].
        -- assert ((rank f <? S n)%nat = true) as ->
             by (apply Nat.ltb_lt; lia).
           reflexivity.
        -- assert ((rank f <? S n)%nat = false) as ->
             by (apply Nat.ltb_ge; lia).
           reflexivity.
    + split; [intros _|discriminate]. exists g. split; [lia|congruence].
    + intros f k0 Hf Hk0.
      destruct (Nat.eq_dec (rank f) n) as [E|E].
      * assert (f = g) as -> by (apply rank_inj; lia).
        rewrite Hkey in Hk0. injection Hk0 as <-. exact Hk.
      * apply Hread; [lia|exact Hk0].
Qed.

Lemma int_key_step (section : ini.Section) (n : nat) (g : awg_field)
    (set : Z -> ASecConfigType -> ASecConfigType)
    (config config' : option ASecConfigType) :
  int_key section (section_key g) set config = inr config' ->
  parsed_up_to section n config ->
  rank g = n ->
  (forall k : ini.Key,
     key_value g k = IntV (ini.Key_Int k).1
     /\ (key_readable g k <-> (ini.Key_Int k).2 = None)) ->
  (forall (v : Z) (c0 : ASecConfigType) (f : awg_field),
     stored_value (set v c0) f
     = if (rank f =? n)%nat then Some (IntV v) else stored_value c0 f) ->
  parsed_up_to section (S n) config'.
Proof.
  intros Hs Hp Hg Hkind Hset. apply (key_step section n g config); try assumption.
  unfold int_key in Hs. destruct (section (section_key g)) as [k|].
  - destruct (ini.Key_Int k) as [value [err|]] eqn:Hint; [discriminate|].
    injection Hs as <-. right. exists k, (set value (alloc config)).
    destruct (Hkind k) as [Hv Hr]. rewrite Hint in Hv, Hr.
    repeat split; [apply Hr; reflexivity|].
    intros f. rewrite Hset, stored_alloc, Hv. reflexivity.
  - injection Hs as <-. left. split; reflexivity.
Qed.

Lemma header_key_step (section : ini.Section) (n : nat) (g : awg_field)
    (set : Z -> Z -> ASecConfigType -> ASecConfigType)
    (config config' : option ASecConfigType) :
  header_key section (section_key g) set config = inr config' ->
  parsed_up_to section n config ->
  rank g = n ->
  (forall k : ini.Key,
     key_value g k
     = RangeV (parseMagicHeaderInterval (ini.Key_String k)).1.1
              (parseMagicHeaderInterval (ini.Key_String k)).1.2
     /\ (key_readable g k
         <-> (parseMagicHeaderInterval (ini.Key_String k)).2 = None)) ->
  (forall (lo hi : Z) (c0 : ASecConfigType) (f : awg_field),
     stored_value (set lo hi c0) f
     = if (rank f =? n)%nat then Some (RangeV lo hi) else stored_value c0 f) ->
  parsed_up_to section (S n) config'.
Proof.
  intros Hs Hp Hg Hkind Hset. apply (key_step section n g config); try assumption.
  unfold header_key in Hs. destruct (section (section_key g)) as [k|].
  - destruct (parseMagicHeaderInterval (ini.Key_String k))
      as [[lo hi] [err|]] eqn:Hparse; [discriminate|].
    injection Hs as <-. right. exists k, (set lo hi (alloc config)).
    destruct (Hkind k) as [Hv Hr]. rewrite Hparse in Hv, Hr.
    repeat split; [apply Hr; reflexivity|].
    intros f. rewrite Hset, stored_alloc, Hv. reflexivity.
  - injection Hs as <-. left. split; reflexivity.
Qed.

Lemma string_key_step (section : ini.Section) (n : nat) (g : awg_field)
    (set : string -> ASecConfigType -> ASecConfigType)
    (config config' : option ASecConfigType) :
  string_key section (section_key g) set config = inr config' ->
  parsed_up_to section n config ->
  rank g = n ->
  (forall k : ini.Key,
     key_value g k = TextV (ini.Key_String k) /\ key_readable g k) ->
  (forall (v : string) (c0 : ASecConfigType) (f : awg_field),
     stored_value (set v c0) f
     = if (rank f =? n)%nat then Some (TextV v) else stored_value c0 f) ->
  parsed_up_to section (S n) config'.
Proof.
  intros Hs Hp Hg Hkind Hset. apply (key_step section n g config); try assumption.
  unfold string_key in Hs. destruct (section (section_key g)) as [k|].
  - injection Hs as <-. right.
    exists k, (set (ini.Key_String k) (alloc config)).
    destruct (Hkind k) as [Hv Hr]. repeat split; [exact Hr|].
    intros f. rewrite Hset, stored_alloc, Hv. reflexivity.
  - injection Hs as <-. left. split; reflexivity.
Qed.

Ltac key_facts :=
  first [ intros k; split; [reflexivity|]; first [exact I | reflexivity]
        | intros ? ? ? f; destruct f; reflexivity
        | intros ? ? f; destruct f; reflexivity ].

Ltac parse_key lem g :=
  match goal with
  | Hp : parsed_up_to _ _ _,
    H : context [match ?e with inl _ => _ | inr _ => _ end] |- _ =>
      let c1 := fresh "c" in
      let Hs := fresh "Hs" in
      destruct e as [?|c1] eqn:Hs; [discriminate|];
      apply (fun Hs => lem _ _ g _ _ _ Hs Hp eq_refl) in Hs;
      [clear Hp | key_facts | key_facts]
  end.

(** The keys of [ParseASecConfig], one after the other. *)
Lemma parseKeys_reflects (section : ini.Section)
    (config : option ASecConfigType) :
  parseKeys section = inr config -> parsed_up_to section 16 config.
Proof.
  unfold parseKeys. cbv zeta. intros H.
  assert (parsed_up_to section 0 None) as H0.
  { split; [|split].
    - intros f. reflexivity.
    - split; [congruence|]. intros (f & Hf & _). lia.
    - intros f k Hf. lia. }
  parse_key int_key_step F_jc. parse_key int_key_step F_jmin.
  parse_key int_key_step F_jmax. parse_key int_key_step F_s1.
  parse_key int_key_step F_s2. parse_key int_key_step F_s3.
  parse_key int_key_step F_s4.
  parse_key header_key_step F_h1. parse_key header_key_step F_h2.
  parse_key header_key_step F_h3. parse_key header_key_step F_h4.
  parse_key string_key_step F_i1. parse_key string_key_step F_i2.
  parse_key string_key_step F_i3. parse_key string_key_step F_i4.
  parse_key string_key_step F_i5.
  injection H as <-. assumption.
Qed.

Lemma ParseASecConfig_ok (section : ini.Section)
    (config : option ASecConfigType) :
  ParseASecConfig section = (config, None) ->
  parseKeys section = inr config /\ ValidateASecConfig config = None.
Proof.
  unfold ParseASecConfig. destruct (parseKeys section) as [err|c];
    [discriminate|].
  destruct (ValidateASecConfig c) as [err|] eqn:Hv; [discriminate|].
  intros [= ->]. split; [reflexivity|exact Hv].
Qed.

Lemma rank_below_16 (f : awg_field) : (rank f <? 16)%nat = true.
Proof. destruct f; reflexivity. Qed.

(** When [ParseASecConfig] returns without error, the record holds, for
    each of the sixteen fields, exactly what the section says: the value
    read from the key when the section has the key, and nothing when it
    has not; and every key of the section could be read. *)
Theorem parse_stores_section (section : ini.Section)
    (config : option ASecConfigType) :
  ParseASecConfig section = (config, None) ->
  (forall f : awg_field, stored_in config f = section_value section f)
  /\ (forall (f : awg_field) (k : ini.Key),
        section (section_key f) = Some k -> key_readable f k).
Proof.
  intros H. apply ParseASecConfig_ok in H as [H _].
  apply parseKeys_reflects in H as (Hval & _ & Hread). split.
  - intros f. rewrite Hval, rank_below_16. reflexivity.
  - intros f k. apply Hread. apply Nat.ltb_lt, rank_below_16.
Qed.

(** A section with Jc = 5 and H1 = 100-200. *)
Lemma parse_stores_section_witness :
  let section := section_of [("Jc", ("5", 5)); ("H1", ("100-200", 0))] in
  let config :=
    Some (set_initPacketMagicHeader 100 200
            (set_junkPacketCount 5 zero_ASecConfig)) in
  (forall f : awg_field, stored_in config f = section_value section f)
  /\ (forall (f : awg_field) (k : ini.Key),
        section (section_key f) = Some k -> key_readable f k).
Proof.
  intros section config. apply (parse_stores_section section config).
  vm_compute. reflexivity.
Defined.

(** [ParseASecConfig] returns the nil record without error exactly when
    the section has none of the sixteen keys. *)
Theorem parse_nil_iff_no_key (section : ini.Section) :
  ParseASecConfig section = (None, None)
  <-> forall f : awg_field, section (section_key f) = None.
Proof.
  split.
  - intros H. apply ParseASecConfig_ok in H as [H _].
    apply parseKeys_reflects in H as (_ & Hsome & _). intros f.
    destruct (section (section_key f)) as [k|] eqn:Hk; [|reflexivity].
    exfalso. assert (@None ASecConfigType <> None) as Habs; [|congruence].
    apply Hsome. exists f. split; [apply Nat.ltb_lt, rank_below_16|].
    congruence.
  - intros H. unfold ParseASecConfig, parseKeys, int_key, header_key,
      string_key.
    pose proof (H F_jc) as K1. pose proof (H F_jmin) as K2.
    pose proof (H F_jmax) as K3. pose proof (H F_s1) as K4.
    pose proof (H F_s2) as K5. pose proof (H F_s3) as K6.
    pose proof (H F_s4) as K7. pose proof (H F_h1) as K8.
    pose proof (H F_h2) as K9. pose proof (H F_h3) as K10.
    pose proof (H F_h4) as K11. pose proof (H F_i1) as K12.
    pose proof (H F_i2) as K13. pose proof (H F_i3) as K14.
    pose proof (H F_i4) as K15. pose proof (H F_i5) as K16.
    cbn [section_key] in *.
    rewrite K1, K2, K3, K4, K5, K6, K7, K8, K9, K10, K11, K12, K13, K14,
      K15, K16.
    reflexivity.
Qed.

Lemma stored_range (section : ini.Section) (c : ASecConfigType)
    (f : awg_field) (lo hi : Z) :
  parsed_up_to section 16 (Some c) ->
  stored_value c f = Some (RangeV lo hi) ->
  0 <= lo /\ lo <= hi /\ hi <= maxUint32.
Proof.
  intros (Hval & _ & Hread) Hst.
  specialize (Hval f). cbn [stored_in] in Hval.
  rewrite rank_below_16, Hst in Hval. unfold section_value in Hval.
  destruct (section (section_key f)) as [k|] eqn:Hk; [|discriminate].
  specialize (Hread f k ltac:(apply Nat.ltb_lt, rank_below_16) Hk).
  injection Hval as Hval.
  destruct f; cbn [key_value key_readable] in Hval, Hread;
    try discriminate Hval;
    destruct (parseMagicHeaderInterval (ini.Key_String k))
      as [[lo' hi'] err] eqn:Hparse;
    cbn [fst snd] in Hval, Hread; subst err; injection Hval as -> ->;
    destruct (parse_interval_ok _ _ _ Hparse)
      as [(_ & _ & -> & Hr)|(a & b & _ & _ & _ & _ & _ & Hr)]; lia.
Qed.

(** Every record [ParseASecConfig] returns keeps the invariants of the
    record: Jc in 1..128, Jmin <= Jmax, Jmax <= 1280, distinct packet
    sizes, and four effective header intervals that are ordered, within
    the 32-bit unsigned numbers and pairwise disjoint. *)
Theorem parsed_record_invariants (section : ini.Section)
    (c : ASecConfigType) :
  ParseASecConfig section = (Some c, None) ->
  junk_checks_pass c /\ NoDup (set_sizes c)
  /\ intervals_uint32 (Some c)
  /\ ~ some_two_overlap (collectEffectiveHeaderIntervals (Some c)).
Proof.
  intros H. apply ParseASecConfig_ok in H as [Hkeys Hvalid].
  apply validate_None_iff in Hvalid as (Hj & Hnd & _ & Hdisj).
  split; [exact Hj|]. split; [exact Hnd|]. split; [|exact Hdisj].
  apply parseKeys_reflects in Hkeys.
  pose proof (fun lo hi => stored_range section c F_h1 lo hi Hkeys) as R1.
  pose proof (fun lo hi => stored_range section c F_h2 lo hi Hkeys) as R2.
  pose proof (fun lo hi => stored_range section c F_h3 lo hi Hkeys) as R3.
  pose proof (fun lo hi => stored_range section c F_h4 lo hi Hkeys) as R4.
  cbn [stored_value] in R1, R2, R3, R4.
  unfold intervals_uint32, collectEffectiveHeaderIntervals, maxUint32,
    defaultInitPacketMagicHeader, defaultResponsePacketMagicHeader,
    defaultUnderloadPacketMagicHeader, defaultTransportPacketMagicHeader
    in *.
  destruct (hasInitPacketMagicHeader c), (hasResponsePacketMagicHeader c),
    (hasUnderloadPacketMagicHeader c), (hasTransportPacketMagicHeader c);
    repeat constructor; cbn [min max fst snd];
    try (apply (R1 _ _ eq_refl)); try (apply (R2 _ _ eq_refl));
    try (apply (R3 _ _ eq_refl)); try (apply (R4 _ _ eq_refl)); lia.
Qed.

(** A section with Jc = 5, S1 = 15, S2 = 18 and H1 = 100-200. *)
Lemma parsed_record_invariants_witness :
  let c :=
    set_initPacketMagicHeader 100 200
      (set_responsePacketJunkSize 18
         (set_initPacketJunkSize 15
            (set_junkPacketCount 5 zero_ASecConfig))) in
  junk_checks_pass c /\ NoDup (set_sizes c)
  /\ intervals_uint32 (Some c)
  /\ ~ some_two_overlap (collectEffectiveHeaderIntervals (Some c)).
Proof.
  intros c.
  apply (parsed_record_invariants
           (section_of [("Jc", ("5", 5)); ("S1", ("15", 15));
                        ("S2", ("18", 18)); ("H1", ("100-200", 0))]) c).
  vm_compute. reflexivity.
Defined.


(** ** [CreateIPCRequest]: the whole text *)

(** [CreateIPCRequest] never fails; its text is made of these lines, each
    ended by a line feed: the private key, the listen port if there is
    one, the lines of the AmneziaWG fields that are set, and for each peer
    its public key, keepalive and preshared key, its endpoint if there is
    one, and its allowed prefixes or, when it has none, the two default
    ones; the DNS servers, the addresses and the MTU are those of the
    configuration. *)
Theorem ipc_text_layout (conf : DeviceConfig) :
  (CreateIPCRequest conf).2 = None
  /\ IpcRequest (CreateIPCRequest conf).1
     = join_lines (head_lines conf ++ device_awg_lines conf
                   ++ tail_lines conf)
  /\ setting_DNS (CreateIPCRequest conf).1 = DNS conf
  /\ DeviceAddr (CreateIPCRequest conf).1 = conf_Endpoint conf
  /\ setting_MTU (CreateIPCRequest conf).1 = MTU conf.
Proof.
  split; [reflexivity|]. split; [exact (IpcRequest_lines conf)|].
  repeat split.
Qed.

Lemma awg_value_stored (c : ASecConfigType) (f : awg_field) :
  awg_value c f = None <-> stored_value c f = None.
Proof.
  destruct f; cbn [awg_value stored_value];
    match goal with
    | |- context [if ?h then _ else _] => destruct h
    | |- context [fmap _ ?p] => destruct p
    end; cbn; split; congruence.
Qed.

(** From the section to the IPC text: when [ParseASecConfig] accepts the
    section and no text of the configuration has a line feed in it, the
    IPC text has a line for a field exactly when the section has the key
    of the field. *)
Theorem section_to_ipc (section : ini.Section) (conf : DeviceConfig) :
  ParseASecConfig section = (ASecConfig conf, None) ->
  single_line_config conf = true ->
  forall f : awg_field,
    has_line (IpcRequest (CreateIPCRequest conf).1) f
    <-> section (section_key f) <> None.
Proof.
  intros Hparse Hsingle f.
  apply ParseASecConfig_ok in Hparse as [Hkeys _].
  apply parseKeys_reflects in Hkeys as (Hval & _ & _).
  specialize (Hval f). rewrite rank_below_16 in Hval.
  destruct (IpcRequest_awg_lines conf Hsingle) as [Hlines Hfilter].
  assert (has_line (IpcRequest (CreateIPCRequest conf).1) f
          <-> stored_in (ASecConfig conf) f <> None) as ->.
  { unfold has_line. split.
    - intros (line & Hin & Hf).
      assert (In line (device_awg_lines conf)) as Hawg.
      { rewrite <- Hfilter. apply filter_In. split; [exact Hin|].
        exact (is_line_of_awg f line Hf). }
      unfold device_awg_lines in Hawg.
      destruct (ASecConfig conf) as [c|]; [|destruct Hawg].
      apply awg_lines_elem in Hawg as (g & v & Hv & ->).
      apply is_line_of_key in Hf as ->. cbn [stored_in].
      rewrite <- awg_value_stored. congruence.
    - intros Hst. destruct (ASecConfig conf) as [c|] eqn:Hc;
        [|cbn in Hst; congruence].
      cbn [stored_in] in Hst. rewrite <- awg_value_stored in Hst.
      destruct (awg_value c f) as [v|] eqn:Hv; [|congruence].
      exists (awg_key f +:+ "=" +:+ v). split.
      + rewrite Hlines. apply in_or_app. right. apply in_or_app. left.
        unfold device_awg_lines. rewrite Hc. apply awg_lines_elem.
        exists f, v. tauto.
      + apply is_line_of_key. reflexivity. }
  rewrite Hval. unfold section_value.
  destruct (section (section_key f)); split; congruence.
Qed.

(** A section whose only key is I1, and the configuration made of it. *)
Lemma section_to_ipc_witness :
  has_line (IpcRequest (CreateIPCRequest handshake_only).1) F_i1
  <-> section_of [("I1", ("<b 0xA1B2C3D4E5F6><c>", 0))] (section_key F_i1)
      <> None.
Proof.
  apply (section_to_ipc
           (section_of [("I1", ("<b 0xA1B2C3D4E5F6><c>", 0))])
           handshake_only).
  - vm_compute. reflexivity.
  - vm_compute. reflexivity.
Defined.


(** ** The SOCKS5 UDP codec *)

Lemma byte_of_Z_value (v : Z) :
  Z.of_N (Byte.to_N (byte_of_Z v)) = v mod 256.
Proof.
  unfold byte_of_Z. pose proof (Z.mod_pos_bound v 256 ltac:(lia)) as Hb.
  destruct (Byte.of_N (Z.to_N (v mod 256))) as [b|] eqn:Hof.
  - apply Byte.to_of_N in Hof. rewrite Hof. lia.
  - apply Byte.of_N_None_iff in Hof. lia.
Qed.

Lemma declared_port_bytes (v : Z) :
  0 <= v < 65536 ->
  declared_port (byte_of_Z (v / 256)) (byte_of_Z v) = v.
Proof.
  intros Hv. unfold declared_port. rewrite !byte_of_Z_value.
  rewrite (Z.mod_small (v / 256)).
  - pose proof (Z.div_mod v 256 ltac:(lia)). lia.
  - split; [apply Z.div_pos; lia|].
    apply Z.div_lt_upper_bound; lia.
Qed.

Lemma copy_at_app (src pre rest : list Byte.byte) :
  length rest = length src ->
  copy_at (pre ++ rest) (length pre) src = pre ++ src.
Proof.
  revert pre rest. induction src as [|b src IH]; intros pre rest Hlen.
  - destruct rest; [reflexivity|discriminate].
  - destruct rest as [|r rest]; [discriminate|]. cbn [copy_at].
    replace (<[length pre := b]> (pre ++ r :: rest))
      with ((pre ++ [b]) ++ rest).
    + replace (S (length pre)) with (length (pre ++ [b]))
        by (rewrite length_app; simpl; lia).
      rewrite IH by (simpl in Hlen; lia).
      rewrite <- app_assoc. reflexivity.
    + rewrite <- app_assoc. cbn [app].
      rewrite (insert_app_r_alt pre (r :: rest) (length pre) b) by lia.
      rewrite Nat.sub_diag. reflexivity.
Qed.

Lemma To4_length (ip v : list Byte.byte) :
  To4 ip = Some v -> length v = 4%nat.
Proof.
  unfold To4. destruct (length ip =? 4)%nat eqn:H4.
  - intros [= <-]. apply Nat.eqb_eq. exact H4.
  - destruct ((length ip =? 16)%nat && _ && _ && _) eqn:H16; [|discriminate].
    rewrite !andb_true_iff in H16. destruct H16 as (((H16 & _) & _) & _).
    apply Nat.eqb_eq in H16. intros [= <-].
    rewrite length_take, length_drop. lia.
Qed.

Lemma buffer_length (pooled : list Byte.byte) (n : nat) :
  length (if (length pooled <? n)%nat then repeat Byte.x00 n
          else firstn n pooled) = n.
Proof.
  destruct (Nat.ltb_spec (length pooled) n) as [H|H].
  - apply repeat_length.
  - rewrite length_take. lia.
Qed.

Lemma response_IPv4 (buf : list Byte.byte) (a b c d : Byte.byte)
    (port : Z) (data : list Byte.byte) :
  length buf = (10 + length data)%nat ->
  (let buf := <[0%nat := Byte.x00]> buf in
   let buf := <[1%nat := Byte.x00]> buf in
   let buf := <[2%nat := Byte.x00]> buf in
   let buf := <[3%nat := Byte.x01]> buf in
   let buf := copy buf 4 8 [a; b; c; d] in
   let buf := PutUint16 buf 8 port in
   copy buf 10 (length buf) data)
  = request_datagram Byte.x01 [a; b; c; d] (byte_of_Z (port / 256))
      (byte_of_Z port) data.
Proof.
  intros Hlen.
  do 10 (destruct buf as [|? buf]; [discriminate Hlen|]).
  cbn [length] in Hlen. cbv zeta. unfold copy, PutUint16.
  cbn [Nat.sub firstn copy_at list_insert insert length].
  replace (length buf) with (length data) by lia.
  rewrite Nat.sub_0_r, firstn_all. unfold request_datagram. cbn [app].
  exact (copy_at_app data
           [Byte.x00; Byte.x00; Byte.x00; Byte.x01; a; b; c; d;
            byte_of_Z (port / 256); byte_of_Z port] buf ltac:(lia)).
Qed.

Lemma response_IPv6 (buf ip : list Byte.byte) (port : Z)
    (data : list Byte.byte) :
  length buf = (22 + length data)%nat -> length ip = 16%nat ->
  (let buf := <[0%nat := Byte.x00]> buf in
   let buf := <[1%nat := Byte.x00]> buf in
   let buf := <[2%nat := Byte.x00]> buf in
   let buf := <[3%nat := Byte.x04]> buf in
   let buf := copy buf 4 20 ip in
   let buf := PutUint16 buf 20 port in
   copy buf 22 (length buf) data)
  = request_datagram Byte.x04 ip (byte_of_Z (port / 256)) (byte_of_Z port)
      data.
Proof.
  intros Hlen Hip.
  do 22 (destruct buf as [|? buf]; [discriminate Hlen|]).
  do 16 (destruct ip as [|? ip]; [discriminate Hip|]).
  destruct ip; [|discriminate Hip].
  cbn [length] in Hlen. cbv zeta. unfold copy, PutUint16.
  cbn [Nat.sub firstn copy_at list_insert insert length].
  replace (length buf) with (length data) by lia.
  rewrite Nat.sub_0_r, firstn_all. unfold request_datagram. cbn [app].
  match goal with
  | |- copy_at (?x0 :: ?x1 :: ?x2 :: ?x3 :: ?x4 :: ?x5 :: ?x6 :: ?x7 :: ?x8
                :: ?x9 :: ?x10 :: ?x11 :: ?x12 :: ?x13 :: ?x14 :: ?x15
                :: ?x16 :: ?x17 :: ?x18 :: ?x19 :: ?x20 :: ?x21 :: buf)
           22 data = _ =>
      exact (copy_at_app data
               [x0; x1; x2; x3; x4; x5; x6; x7; x8; x9; x10; x11; x12; x13;
                x14; x15; x16; x17; x18; x19; x20; x21] buf ltac:(lia))
  end.
Qed.

Lemma response_bytes (pooled targetIP : list Byte.byte)
    (targetPort : Z) (data : list Byte.byte) :
  let port := targetPort mod 65536 in
  (forall ip4 : list Byte.byte,
     To4 targetIP = Some ip4 ->
     sendUDPResponseFast pooled targetIP targetPort data
     = request_datagram Byte.x01 ip4 (byte_of_Z (port / 256))
         (byte_of_Z port) data)
  /\ (To4 targetIP = None -> length targetIP = 16%nat ->
      sendUDPResponseFast pooled targetIP targetPort data
      = request_datagram Byte.x04 targetIP (byte_of_Z (port / 256))
          (byte_of_Z port) data).
Proof.
  cbv zeta. unfold sendUDPResponseFast. split.
  - intros ip4 H4. rewrite H4. pose proof (To4_length _ _ H4) as Hl.
    do 4 (destruct ip4 as [|? ip4]; [discriminate Hl|]).
    destruct ip4; [|discriminate Hl].
    apply response_IPv4. apply buffer_length.
  - intros H4 Hl. rewrite H4. apply response_IPv6; [|exact Hl].
    apply buffer_length.
Qed.

(** The datagram [sendUDPResponseFast] sends is laid out as a request:
    RSV = 00 00, FRAG = 00, ATYP 01 and the four bytes of the address when
    the address is an IPv4 one, ATYP 04 and its sixteen bytes otherwise,
    the port on two bytes, the more significant first, and then the data;
    nothing of what the pooled buffer held before is sent. *)
Theorem response_layout (pooled targetIP : list Byte.byte)
    (targetPort : Z) (data : list Byte.byte) :
  let port := targetPort mod 65536 in
  (forall ip4 : list Byte.byte,
     To4 targetIP = Some ip4 ->
     sendUDPResponseFast pooled targetIP targetPort data
     = request_datagram Byte.x01 ip4 (byte_of_Z (port / 256))
         (byte_of_Z port) data)
  /\ (To4 targetIP = None -> length targetIP = 16%nat ->
      sendUDPResponseFast pooled targetIP targetPort data
      = request_datagram Byte.x04 targetIP (byte_of_Z (port / 256))
          (byte_of_Z port) data).
Proof. exact (response_bytes pooled targetIP targetPort data). Qed.

(** The address 10.0.0.1 in its 4-byte form. *)
Lemma response_layout_witness :
  sendUDPResponseFast [] [Byte.x0a; Byte.x00; Byte.x00; Byte.x01] 53
    [Byte.xff]
  = request_datagram Byte.x01 [Byte.x0a; Byte.x00; Byte.x00; Byte.x01]
      (byte_of_Z (53 mod 65536 / 256)) (byte_of_Z (53 mod 65536))
      [Byte.xff].
Proof.
  apply (proj1 (response_layout [] [Byte.x0a; Byte.x00; Byte.x00; Byte.x01]
                  53 [Byte.xff])).
  reflexivity.
Defined.

(** Encoding and decoding: the parser of requests accepts every datagram
    [sendUDPResponseFast] sends for an address of 4 or 16 bytes, and gives
    back the address (as text), the port (modulo 65536) and the data. *)
Theorem response_round_trip (IP_String : list Byte.byte -> string)
    (pooled targetIP : list Byte.byte) (targetPort : Z)
    (data : list Byte.byte) :
  length targetIP = 4%nat \/ length targetIP = 16%nat ->
  let sent := sendUDPResponseFast pooled targetIP targetPort data in
  exists (host : string) (headerLen : nat),
    parseSocks5HeaderFast IP_String sent
    = (host, targetPort mod 65536, headerLen, true)
    /\ payload_of sent headerLen = data
    /\ host = match To4 targetIP with
              | Some ip4 =>
                  IP_String (net_IPv4 (byte_at ip4 0) (byte_at ip4 1)
                                      (byte_at ip4 2) (byte_at ip4 3))
              | None => IP_String targetIP
              end.
Proof.
  intros Hlen. cbv zeta.
  pose proof (Z.mod_pos_bound targetPort 65536 ltac:(lia)) as Hport.
  destruct (response_bytes pooled targetIP targetPort data) as [H4 H6].
  cbv zeta in H4, H6.
  destruct (To4 targetIP) as [ip4|] eqn:E4.
  - rewrite (H4 ip4 eq_refl). pose proof (To4_length _ _ E4) as Hl.
    do 4 (destruct ip4 as [|? ip4]; [discriminate Hl|]).
    destruct ip4; [|discriminate Hl].
    rewrite parse_IPv4, declared_port_bytes by exact Hport.
    eexists _, _. split; [reflexivity|]. split; reflexivity.
  - assert (length targetIP = 16%nat) as H16.
    { destruct Hlen as [Hl|Hl]; [|exact Hl]. unfold To4 in E4.
      rewrite Hl in E4. discriminate E4. }
    rewrite (H6 eq_refl H16).
    destruct (parse_IPv6 IP_String targetIP (byte_of_Z (targetPort mod 65536 / 256))
                (byte_of_Z (targetPort mod 65536)) data H16) as [Hp Hpay].
    rewrite Hp, declared_port_bytes by exact Hport.
    eexists _, _. split; [reflexivity|]. split; [exact Hpay|reflexivity].
Qed.

(** The address 10.0.0.1, the port 443, one byte of data. *)
Lemma response_round_trip_witness :
  let IP_String := fun _ : list Byte.byte => EmptyString in
  let sent :=
    sendUDPResponseFast [] [Byte.x0a; Byte.x00; Byte.x00; Byte.x01] 443
      [Byte.xff] in
  exists (host : string) (headerLen : nat),
    parseSocks5HeaderFast IP_String sent
    = (host, 443 mod 65536, headerLen, true)
    /\ payload_of sent headerLen = [Byte.xff]
    /\ host = match To4 [Byte.x0a; Byte.x00; Byte.x00; Byte.x01] with
              | Some ip4 =>
                  IP_String (net_IPv4 (byte_at ip4 0) (byte_at ip4 1)
                                      (byte_at ip4 2) (byte_at ip4 3))
              | None =>
                  IP_String [Byte.x0a; Byte.x00; Byte.x00; Byte.x01]
              end.
Proof.
  intros IP_String sent.
  apply (response_round_trip IP_String []
           [Byte.x0a; Byte.x00; Byte.x00; Byte.x01] 443 [Byte.xff]).
  left. reflexivity.
Defined.

Lemma Uint16_range (b : list Byte.byte) : 0 <= BigEndian_Uint16 b < 65536.
Proof.
  unfold BigEndian_Uint16.
  pose proof (Byte.to_N_bounded (byte_at b 0)).
  pose proof (Byte.to_N_bounded (byte_at b 1)). lia.
Qed.

(** What the parser returns is safe to use: when it accepts, the header
    length is at least 7 and at most the length of the datagram, so that
    the payload [data[headerLen:]] exists, and the port is below 65536;
    when it rejects, host, port and header length are empty and zero. *)
Theorem parsed_header_bounds (IP_String : list Byte.byte -> string)
    (data : list Byte.byte) :
  match parseSocks5HeaderFast IP_String data with
  | (host, port, headerLen, true) =>
      (7 <= headerLen <= length data)%nat /\ 0 <= port < 65536
      /\ length (payload_of data headerLen) = (length data - headerLen)%nat
  | (host, port, headerLen, false) =>
      host = EmptyString /\ port = 0 /\ headerLen = 0%nat
  end.
Proof.
  unfold parseSocks5HeaderFast, payload_of.
  destruct (Nat.ltb_spec (length data) 10) as [Hten|Hten];
    [repeat split|].
  cbn [orb].
  destruct (negb (Byte.eqb (byte_at data 0) Byte.x00)
            || negb (Byte.eqb (byte_at data 1) Byte.x00)
            || negb (Byte.eqb (byte_at data 2) Byte.x00));
    [repeat split|].
  destruct (byte_at data 3); try (repeat split; fail).
  - split; [lia|]. split; [apply Uint16_range|apply length_drop].
  - destruct (Nat.ltb_spec (length data)
                (7 + N.to_nat (Byte.to_N (byte_at data 4)))) as [H|H];
      [repeat split|].
    split; [lia|]. split; [apply Uint16_range|apply length_drop].
  - destruct (Nat.ltb_spec (length data) 22) as [H|H]; [repeat split|].
    split; [lia|]. split; [apply Uint16_range|apply length_drop].
Qed.


(** ** The pool: lookups, removals and the two evictions *)

Lemma store_same (m : nat -> UDPConnection) (a : nat) (c : UDPConnection) :
  store m a c a = c.
Proof. unfold store. rewrite Nat.eqb_refl. reflexivity. Qed.

Lemma fold_remove_lookup (l : list string) (p : UDPConnectionPool)
    (k : string) :
  connections (fold_left remove_key l p) !! k
  = if bool_decide (k ∈ l) then None else connections p !! k.
Proof.
  revert p. induction l as [|x l IH]; intros p; cbn [fold_left].
  - rewrite bool_decide_eq_false_2 by (apply not_elem_of_nil). reflexivity.
  - rewrite IH, remove_key_lookup.
    destruct (decide (x = k)) as [->|Hne].
    + rewrite (bool_decide_eq_true_2 (k ∈ k :: l)) by (apply elem_of_cons; tauto).
      destruct (bool_decide (k ∈ l)); reflexivity.
    + destruct (bool_decide (k ∈ l)) eqn:Hl.
      * apply bool_decide_eq_true in Hl.
        rewrite bool_decide_eq_true_2 by (apply elem_of_cons; tauto).
        reflexivity.
      * apply bool_decide_eq_false in Hl.
        rewrite bool_decide_eq_false_2; [reflexivity|].
        rewrite elem_of_cons. intros [->|H]; tauto.
Qed.

Lemma fold_remove_count (l : list string) :
  forall p : UDPConnectionPool,
    NoDup l -> (forall k : string, k ∈ l -> is_Some (connections p !! k)) ->
    (base.size (connections (fold_left remove_key l p)) + length l
     = base.size (connections p))%nat.
Proof.
  induction l as [|x l IH]; intros p Hnd Hin; cbn [fold_left length].
  - lia.
  - apply NoDup_cons in Hnd as [Hx Hnd].
    assert (is_Some (connections p !! x)) as Hsx
      by (apply Hin, elem_of_cons; tauto).
    assert (forall k : string,
              k ∈ l -> is_Some (connections (remove_key p x) !! k)) as Hin'.
    { intros k Hk. rewrite remove_key_lookup.
      destruct (decide (x = k)) as [->|_]; [contradiction|].
      apply Hin, elem_of_cons. tauto. }
    pose proof (IH (remove_key p x) Hnd Hin') as HIH.
    assert (base.size (connections (remove_key p x))
            = Nat.pred (base.size (connections p))) as Hsize.
    { unfold remove_key. destruct Hsx as [a Ha]. rewrite Ha.
      cbn [connections]. apply map_size_delete_Some. rewrite Ha. eauto. }
    assert (base.size (connections p) <> 0%nat) as Hpos.
    { intros H0. apply map_size_empty_inv in H0. destruct Hsx as [a Ha].
      rewrite H0, lookup_empty in Ha. discriminate. }
    lia.
Qed.

Lemma replace_first_elem (p : UDPConnectionPool) (key : string)
    (oldest : list string) (x : string) :
  x ∈ replace_first p key oldest -> x = key \/ x ∈ oldest.
Proof.
  induction oldest as [|oldKey rest IH]; cbn [replace_first]; [tauto|].
  destruct (Time_Before _ _); rewrite !elem_of_cons; intuition.
Qed.

Lemma replace_first_NoDup (p : UDPConnectionPool) (key : string)
    (oldest : list string) :
  NoDup oldest -> key ∉ oldest -> NoDup (replace_first p key oldest).
Proof.
  induction oldest as [|oldKey rest IH]; cbn [replace_first]; [tauto|].
  intros Hnd Hkey. apply NoDup_cons in Hnd as [Hold Hnd].
  apply not_elem_of_cons in Hkey as [Hne Hkey].
  destruct (Time_Before _ _); apply NoDup_cons.
  - tauto.
  - split; [|tauto]. intros Hin.
    apply replace_first_elem in Hin as [->|Hin]; tauto.
Qed.

Lemma scan_step_elem (p : UDPConnectionPool) (count : Z)
    (oldest : list string) (key x : string) :
  x ∈ scan_step p count oldest key -> x = key \/ x ∈ oldest.
Proof.
  unfold scan_step. destruct (_ <? count).
  - rewrite elem_of_app, list_elem_of_singleton. tauto.
  - apply replace_first_elem.
Qed.

Lemma scan_NoDup (p : UDPConnectionPool) (count : Z) (order : list string) :
  forall oldest : list string,
    NoDup (oldest ++ order) ->
    NoDup (fold_left (scan_step p count) order oldest)
    /\ forall x : string,
         x ∈ fold_left (scan_step p count) order oldest ->
         x ∈ oldest \/ x ∈ order.
Proof.
  induction order as [|key rest IH]; intros oldest Hnd; cbn [fold_left].
  - rewrite app_nil_r in Hnd. tauto.
  - apply NoDup_app in Hnd as (Hold & Hdis & Hrest).
    apply NoDup_cons in Hrest as [Hkey Hrest].
    assert (NoDup (scan_step p count oldest key ++ rest)) as Hnd'.
    { apply NoDup_app. split; [|split; [|exact Hrest]].
      - unfold scan_step. destruct (_ <? count).
        + apply NoDup_app. split; [exact Hold|]. split.
          * intros x Hx. rewrite list_elem_of_singleton. intros ->.
            apply (Hdis key Hx), elem_of_cons. tauto.
          * apply NoDup_singleton.
        + apply replace_first_NoDup; [exact Hold|].
          intros Hx. apply (Hdis key Hx), elem_of_cons. tauto.
      - intros x Hx Hr. apply scan_step_elem in Hx as [->|Hx];
          [contradiction|].
        apply (Hdis x Hx), elem_of_cons. tauto. }
    destruct (IH _ Hnd') as [H1 H2]. split; [exact H1|].
    intros x Hx. apply H2 in Hx as [Hx|Hx].
    + apply scan_step_elem in Hx as [->|Hx]; [|tauto].
      right. apply elem_of_cons. tauto.
    + right. apply elem_of_cons. tauto.
Qed.

Lemma scan_fills (p : UDPConnectionPool) (count : Z) (order : list string) :
  forall oldest : list string,
    Z.of_nat (length oldest) <= count ->
    Z.of_nat (length (fold_left (scan_step p count) order oldest))
    = Z.min count (Z.of_nat (length oldest + length order)).
Proof.
  induction order as [|key rest IH]; intros oldest Hlen; cbn [fold_left].
  - cbn [length]. lia.
  - unfold scan_step at 2.
    destruct (Z.ltb_spec (Z.of_nat (length oldest)) count) as [Hlt|Hge].
    + rewrite IH by (rewrite length_app; cbn [length]; lia).
      rewrite length_app. cbn [length]. lia.
    + rewrite IH by (rewrite replace_first_length; lia).
      rewrite replace_first_length. cbn [length]. lia.
Qed.

Lemma ranges_over_length (order : list string) (p : UDPConnectionPool) :
  ranges_over order p -> length order = base.size (connections p).
Proof.
  intros [Hnd Hin]. rewrite <- length_map_to_list.
  rewrite <- (length_fmap fst (map_to_list (connections p))).
  apply Permutation_length, NoDup_Permutation;
    [exact Hnd|apply NoDup_fst_map_to_list|].
  intros k. rewrite Hin, list_elem_of_fmap. split.
  - intros [a Ha]. exists (k, a). split; [reflexivity|].
    apply elem_of_map_to_list. exact Ha.
  - intros ([k' a] & -> & Ha). apply elem_of_map_to_list in Ha.
    cbn [fst]. eauto.
Qed.

Lemma evicts_five (order : list string) (p : UDPConnectionPool) :
  ranges_over order p -> size_agrees p -> 5 < currentSize p ->
  currentSize p < 2 ^ 63 ->
  let p' := cleanupOldestLocked 5 order p in
  (base.size (connections p') + 5 = base.size (connections p))%nat
  /\ currentSize p' = currentSize p - 5 /\ size_agrees p'
  /\ (forall k : string,
        connections p' !! k = None \/ connections p' !! k = connections p !! k).
Proof.
  intros Hro Hsz Hbig Hmax. cbv zeta. unfold cleanupOldestLocked.
  assert ((currentSize p <=? 5) = false) as -> by (apply Z.leb_gt; lia).
  set (oldest := fold_left (scan_step p 5) order []).
  pose proof (ranges_over_length order p Hro) as Hlen.
  destruct Hro as [Hnd Hin].
  destruct (scan_NoDup p 5 order [] Hnd) as [Hnd' Hsub].
  fold oldest in Hnd', Hsub.
  pose proof (scan_fills p 5 order [] ltac:(cbn; lia)) as Hfill.
  fold oldest in Hfill. cbn [length Nat.add] in Hfill. unfold size_agrees in Hsz.
  assert (length oldest = 5%nat) as Hfive by lia.
  pose proof (fold_remove_count oldest p Hnd') as Hcount.
  rewrite Hfive in Hcount.
  assert (forall k : string, k ∈ oldest -> is_Some (connections p !! k)) as Hpres.
  { intros k Hk. apply Hin. destruct (Hsub k Hk) as [H|H]; [|exact H].
    apply elem_of_nil in H. contradiction. }
  specialize (Hcount Hpres).
  destruct (fold_remove_size oldest p Hsz ltac:(lia)) as [Hsz' _].
  split; [exact Hcount|]. split; [|split; [exact Hsz'|]].
  - unfold size_agrees in Hsz'. lia.
  - intros k. rewrite fold_remove_lookup.
    destruct (bool_decide (k ∈ oldest)); tauto.
Qed.

(** A [Get] after a [Set] of the same key finds the pointer that was
    stored, whatever the eviction of the [Set] removed, and the connection
    is marked as used at the time of the [Set]. *)
Theorem set_then_get (key : string) (a : nat) (now now' : Z)
    (order : list string) (p : UDPConnectionPool) :
  (Get key now' (Set_ key a now order p)).1 = (Some a, true)
  /\ lastUsed_of (Set_ key a now order p) key = now
  /\ lastUsed_of (Get key now' (Set_ key a now order p)).2 key = now'.
Proof.
  unfold Get, lastUsed_of, Set_. cbv zeta. cbn [connections mem].
  rewrite lookup_insert_eq. cbn [fst snd connections mem].
  rewrite lookup_insert_eq, !store_same. repeat split.
Qed.

(** [Delete] removes the key and nothing else: a [Get] of the key misses
    afterwards, every other key keeps its connection, a second [Delete]
    changes nothing, and the [Delete] of a key that is not in the map
    leaves the map, the memory and the counter as they were. *)
Theorem delete_removes_one_key (key : string) (p : UDPConnectionPool) :
  (forall now : Z,
     Get key now (Delete key p) = (None, false, Delete key p))
  /\ (forall k : string,
        k <> key -> connections (Delete key p) !! k = connections p !! k)
  /\ Delete key (Delete key p) = Delete key p
  /\ (connections p !! key = None ->
      connections (Delete key p) = connections p
      /\ mem (Delete key p) = mem p
      /\ currentSize (Delete key p) = currentSize p).
Proof.
  unfold Delete. split; [|split; [|split]].
  - intros now. unfold Get. rewrite remove_key_lookup.
    rewrite decide_True by reflexivity. reflexivity.
  - intros k Hk. rewrite remove_key_lookup.
    rewrite decide_False by congruence. reflexivity.
  - unfold remove_key at 1. rewrite remove_key_lookup.
    rewrite decide_True by reflexivity.
    assert (creationLock (remove_key p key) ∖ {[key]}
            = creationLock (remove_key p key)) as ->.
    { apply set_eq. intros x. rewrite elem_of_difference, remove_key_lock.
      rewrite elem_of_singleton. tauto. }
    destruct (remove_key p key); reflexivity.
  - intros Hk. unfold remove_key. rewrite Hk. repeat split.
Qed.

Lemma cleanup_lookup (maxAge now : Z) (order : list string)
    (p : UDPConnectionPool) (k : string) :
  connections (Cleanup maxAge now order p) !! k
  = if bool_decide (k ∈ order) && (maxAge <? Time_Sub now (lastUsed_of p k))
    then None else connections p !! k.
Proof.
  unfold Cleanup, cleanupOldLocked. cbv zeta. rewrite fold_remove_lookup.
  match goal with
  | |- (if bool_decide (k ∈ ?l) then _ else _) = _ =>
      destruct (bool_decide_reflect (k ∈ l)) as [H|H]
  end.
  - apply list_elem_of_In, filter_In in H as [Hin Hexp].
    apply list_elem_of_In in Hin.
    rewrite (bool_decide_eq_true_2 _ Hin), Hexp. reflexivity.
  - destruct (bool_decide_reflect (k ∈ order)) as [Hin|Hin];
      [|reflexivity].
    destruct (maxAge <? Time_Sub now (lastUsed_of p k)) eqn:Hexp;
      [|reflexivity].
    exfalso. apply H, list_elem_of_In, filter_In.
    split; [apply list_elem_of_In; exact Hin|exact Hexp].
Qed.

(** [Cleanup] removes exactly the keys of its [range] whose connection was
    last used more than [maxAge] before its clock reading; every other key
    keeps its connection. *)
Theorem cleanup_removes_expired (maxAge now : Z) (order : list string)
    (p : UDPConnectionPool) (k : string) :
  connections (Cleanup maxAge now order p) !! k
  = if bool_decide (k ∈ order) && (maxAge <? Time_Sub now (lastUsed_of p k))
    then None else connections p !! k.
Proof. exact (cleanup_lookup maxAge now order p k). Qed.

Lemma Time_Sub_le (t u maxAge : Z) :
  minDuration <= maxAge -> t - u <= maxAge -> Time_Sub t u <= maxAge.
Proof. unfold Time_Sub, minDuration, maxDuration. lia. Qed.

(** A connection that was used is kept by the next [Cleanup] when no more
    than [maxAge] has passed since: [Get] and [Set] both protect the key
    they touch. *)
Theorem use_protects_from_cleanup (key : string) (a : nat) (t t' maxAge : Z)
    (order order' : list string) (p : UDPConnectionPool) :
  minDuration <= maxAge -> t' - t <= maxAge ->
  (connections p !! key = Some a ->
   connections (Cleanup maxAge t' order (Get key t p).2) !! key = Some a)
  /\ connections (Cleanup maxAge t' order (Set_ key a t order' p)) !! key
     = Some a.
Proof.
  intros Hmin Hage. pose proof (Time_Sub_le t' t maxAge Hmin Hage) as Hle.
  apply Z.ltb_ge in Hle. split.
  - intros Hk. rewrite cleanup_lookup.
    assert (lastUsed_of (Get key t p).2 key = t) as ->.
    { unfold lastUsed_of, Get. rewrite Hk. cbn [snd connections mem].
      rewrite Hk, store_same. reflexivity. }
    rewrite Hle, andb_false_r. unfold Get. rewrite Hk. exact Hk.
  - rewrite cleanup_lookup.
    assert (lastUsed_of (Set_ key a t order' p) key = t) as ->.
    { unfold lastUsed_of, Set_. cbv zeta. cbn [connections mem].
      rewrite lookup_insert_eq, store_same. reflexivity. }
    rewrite Hle, andb_false_r. unfold Set_. cbv zeta. cbn [connections].
    apply lookup_insert_eq.
Qed.

(** A connection used at 100, a cleanup of 30 s of age at 120. *)
Lemma use_protects_from_cleanup_witness :
  (connections pool_of_six !! "a" = Some 1%nat ->
   connections (Cleanup 30 120 ["a"; "b"] (Get "a" 100 pool_of_six).2) !! "a"
   = Some 1%nat)
  /\ connections (Cleanup 30 120 ["a"; "b"] (Set_ "a" 1 100 [] pool_of_six))
       !! "a" = Some 1%nat.
Proof.
  apply (use_protects_from_cleanup "a" 1 100 120 30 ["a"; "b"] []
           pool_of_six).
  - unfold minDuration. lia.
  - lia.
Defined.

(** The eviction of a [Set] at capacity removes exactly five connections:
    when the counter agrees with the map and is above 5, and the [range]
    yields every key once, [cleanupOldestLocked(5)] leaves five keys fewer,
    lowers the counter by 5 and changes no connection it keeps. *)
Theorem eviction_removes_five (order : list string) (p : UDPConnectionPool) :
  ranges_over order p -> size_agrees p -> 5 < currentSize p ->
  currentSize p < 2 ^ 63 ->
  let p' := cleanupOldestLocked 5 order p in
  (base.size (connections p') + 5 = base.size (connections p))%nat
  /\ currentSize p' = currentSize p - 5 /\ size_agrees p'
  /\ (forall k : string,
        connections p' !! k = None \/ connections p' !! k = connections p !! k).
Proof. exact (evicts_five order p). Qed.

Lemma pool_of_six_ranges :
  ranges_over ["a"; "b"; "c"; "d"; "e"; "f"] pool_of_six.
Proof.
  split.
  - apply NoDup_ListNoDup.
    repeat (apply List.NoDup_cons;
            [cbn; intros H; repeat (destruct H as [H|H]; [discriminate H|]);
             exact H|]).
    apply List.NoDup_nil.
  - intros k. rewrite !elem_of_cons, elem_of_nil. cbn [pool_of_six connections].
    split.
    + intros [->|[->|[->|[->|[->|[->|[]]]]]]]; vm_compute; eauto.
    + intros Hs.
      destruct (decide (k = "a")) as [->|Ha]; [tauto|].
      destruct (decide (k = "b")) as [->|Hb]; [tauto|].
      destruct (decide (k = "c")) as [->|Hc]; [tauto|].
      destruct (decide (k = "d")) as [->|Hd]; [tauto|].
      destruct (decide (k = "e")) as [->|He]; [tauto|].
      destruct (decide (k = "f")) as [->|Hf]; [tauto|].
      exfalso. cbn [list_to_map foldr fst snd uncurry] in Hs.
      rewrite !lookup_insert_ne, lookup_empty in Hs by congruence.
      destruct Hs as [x Hx]. discriminate Hx.
Qed.

Lemma pool_of_six_size : size_agrees pool_of_six.
Proof. vm_compute. reflexivity. Qed.

(** The pool of six connections. *)
Lemma eviction_removes_five_witness :
  let p' := cleanupOldestLocked 5 ["a"; "b"; "c"; "d"; "e"; "f"] pool_of_six in
  (base.size (connections p') + 5 = base.size (connections pool_of_six))%nat
  /\ currentSize p' = currentSize pool_of_six - 5 /\ size_agrees p'
  /\ (forall k : string,
        connections p' !! k = None
        \/ connections p' !! k = connections pool_of_six !! k).
Proof.
  apply (eviction_removes_five ["a"; "b"; "c"; "d"; "e"; "f"] pool_of_six).
  - exact pool_of_six_ranges.
  - exact pool_of_six_size.
  - cbn. lia.
  - cbn. lia.
Defined.

Lemma fold_remove_maxSize (l : list string) (p : UDPConnectionPool) :
  maxSize (fold_left remove_key l p) = maxSize p.
Proof.
  revert p. induction l as [|x l IH]; intros p; cbn [fold_left];
    [reflexivity|].
  rewrite IH. unfold remove_key. destruct (connections p !! x); reflexivity.
Qed.

(** The capacity holds for a pool of more than five places: when the
    counter agrees with the map and is at most [maxSize], a [Set] of a key
    that is not in the map leaves the counter in agreement with the map
    and at most [maxSize]. *)
Theorem set_keeps_capacity (key : string) (a : nat) (now : Z)
    (order : list string) (p : UDPConnectionPool) :
  ranges_over order p -> size_agrees p -> connections p !! key = None ->
  5 < maxSize p -> maxSize p < 2 ^ 63 - 1 -> currentSize p <= maxSize p ->
  let p' := Set_ key a now order p in
  size_agrees p' /\ currentSize p' <= maxSize p'
  /\ maxSize p' = maxSize p /\ connections p' !! key = Some a.
Proof.
  intros Hro Hsz Hkey Hfive Hmax Hcap. cbv zeta. unfold Set_. cbv zeta.
  destruct (Z.leb_spec (maxSize p) (currentSize p)) as [Hfull|Hroom].
  - destruct (evicts_five order p Hro Hsz ltac:(lia) ltac:(lia))
      as (Hcount & Hcur & Hsz' & Hkeep).
    cbv zeta in Hcount, Hcur, Hsz', Hkeep.
    set (q := cleanupOldestLocked 5 order p) in *.
    assert (maxSize q = maxSize p) as Hms.
    { unfold q, cleanupOldestLocked.
      destruct (currentSize p <=? 5); [reflexivity|].
      apply fold_remove_maxSize. }
    assert (connections q !! key = None) as Hq.
    { destruct (Hkeep key) as [H|H]; [exact H|]. rewrite H. exact Hkey. }
    unfold size_agrees in *. cbn [currentSize connections maxSize].
    rewrite map_size_insert_None by exact Hq.
    rewrite wrap_int_small by lia. rewrite Hms.
    repeat split; try lia. apply lookup_insert_eq.
  - unfold size_agrees in *. cbn [currentSize connections maxSize].
    rewrite map_size_insert_None by exact Hkey.
    rewrite wrap_int_small by lia.
    repeat split; try lia. apply lookup_insert_eq.
Qed.

(** The pool of six connections, which is full, and a seventh client. *)
Lemma set_keeps_capacity_witness :
  let p' := Set_ "g" 6 60 ["a"; "b"; "c"; "d"; "e"; "f"] pool_of_six in
  size_agrees p' /\ currentSize p' <= maxSize p'
  /\ maxSize p' = maxSize pool_of_six /\ connections p' !! "g" = Some 6%nat.
Proof.
  apply (set_keeps_capacity "g" 6 60 ["a"; "b"; "c"; "d"; "e"; "f"]
           pool_of_six).
  - exact pool_of_six_ranges.
  - exact pool_of_six_size.
  - vm_compute. reflexivity.
  - cbn. lia.
  - cbn. lia.
  - cbn. lia.
Defined.

(** A pool of at most five places has no capacity: while the counter is at
    most 5 a [Set] evicts nothing, so that a [Set] at capacity takes the
    counter above [maxSize]. *)
Theorem small_pool_never_evicts (key : string) (a : nat) (now : Z)
    (order : list string) (p : UDPConnectionPool) :
  0 <= currentSize p <= 5 ->
  let p' := Set_ key a now order p in
  connections p' = <[key := a]> (connections p)
  /\ currentSize p' = currentSize p + 1
  /\ (maxSize p <= currentSize p -> maxSize p' < currentSize p').
Proof.
  intros Hcur. cbv zeta. unfold Set_, cleanupOldestLocked. cbv zeta.
  assert ((currentSize p <=? 5) = true) as -> by (apply Z.leb_le; lia).
  destruct (maxSize p <=? currentSize p);
    cbn [connections currentSize maxSize]; rewrite wrap_int_small by lia;
    repeat split; lia.
Qed.

(** A pool of two places that holds two connections. *)
Lemma small_pool_never_evicts_witness :
  let p := Set_ "b" 2 20 ["a"]
             (Set_ "a" 1 10 [] (NewUDPConnectionPool fresh_mem 2 1420)) in
  let p' := Set_ "c" 3 30 ["a"; "b"] p in
  connections p' = <["c" := 3%nat]> (connections p)
  /\ currentSize p' = currentSize p + 1
  /\ (maxSize p <= currentSize p -> maxSize p' < currentSize p').
Proof.
  apply (small_pool_never_evicts "c" 3 30 ["a"; "b"]
           (Set_ "b" 2 20 ["a"]
              (Set_ "a" 1 10 [] (NewUDPConnectionPool fresh_mem 2 1420)))).
  vm_compute. split; discriminate.
Defined.

Lemma replace_first_keeps (p : UDPConnectionPool) (key k : string)
    (oldest : list string) :
  In k oldest -> ~ lastUsed_of p key < lastUsed_of p k ->
  In k (replace_first p key oldest).
Proof.
  intros Hin Hnot. induction oldest as [|oldKey rest IH];
    cbn [replace_first]; [exact Hin|].
  destruct (Time_Before (lastUsed_of p key) (lastUsed_of p oldKey)) eqn:Hb.
  - destruct Hin as [->|Hin]; [|right; exact Hin].
    apply Z.ltb_lt in Hb. contradiction.
  - destruct Hin as [->|Hin]; [left; reflexivity|right; exact (IH Hin)].
Qed.

Lemma scan_step_min (p : UDPConnectionPool) (count : Z) (k : string)
    (oldest : list string) (key : string) :
  1 <= count ->
  (forall x : string,
     In x oldest \/ x = key -> x <> k -> lastUsed_of p k < lastUsed_of p x) ->
  In k oldest \/ k = key -> In k (scan_step p count oldest key).
Proof.
  intros Hcount Hmin Hk. unfold scan_step.
  destruct (Z.ltb_spec (Z.of_nat (length oldest)) count) as [Hlt|Hge].
  - apply in_or_app. cbn. destruct Hk as [Hk| ->]; tauto.
  - destruct (decide (key = k)) as [->|Hne].
    + destruct oldest as [|oldKey rest]; [cbn [length] in Hge; lia|].
      cbn [replace_first].
      destruct (Time_Before (lastUsed_of p k) (lastUsed_of p oldKey)) eqn:Hb;
        [left; reflexivity|].
      destruct (decide (oldKey = k)) as [->|Hne]; [left; reflexivity|].
      apply Z.ltb_ge in Hb.
      pose proof (Hmin oldKey ltac:(left; left; reflexivity) Hne). lia.
    + destruct Hk as [Hk|Hk]; [|congruence].
      apply replace_first_keeps; [exact Hk|].
      pose proof (Hmin key ltac:(right; reflexivity) Hne). lia.
Qed.

Lemma scan_min (p : UDPConnectionPool) (count : Z) (k : string) :
  1 <= count ->
  forall order oldest : list string,
    (forall x : string,
       In x oldest \/ In x order -> x <> k ->
       lastUsed_of p k < lastUsed_of p x) ->
    In k oldest \/ In k order ->
    In k (fold_left (scan_step p count) order oldest).
Proof.
  intros Hcount. induction order as [|key rest IH];
    intros oldest Hmin Hk; cbn [fold_left].
  - destruct Hk as [Hk|[]]. exact Hk.
  - apply IH.
    + intros x [Hx|Hx] Hne.
      * apply list_elem_of_In, scan_step_elem in Hx as [->|Hx].
        -- apply Hmin; [right; left; reflexivity|exact Hne].
        -- apply Hmin; [left; apply list_elem_of_In; exact Hx|exact Hne].
      * apply Hmin; [right; right; exact Hx|exact Hne].
    + destruct Hk as [Hk|[Hk|Hk]].
      * left. apply scan_step_min; [exact Hcount| |left; exact Hk].
        intros x [Hx| ->] Hne; apply Hmin; try exact Hne; cbn; tauto.
      * left. apply scan_step_min; [exact Hcount| |right; congruence].
        intros x [Hx| ->] Hne; apply Hmin; try exact Hne; cbn; tauto.
      * right. exact Hk.
Qed.

(** The eviction always takes the connection that was used the longest
    ago: a key of the [range] whose connection was last used strictly
    before that of every other key is removed, its connection is shut down
    and its creation flag is cleared, whatever the order of the [range]. *)
Theorem eviction_takes_oldest (count : Z) (order : list string)
    (p : UDPConnectionPool) (k : string) :
  1 <= count -> count < currentSize p -> In k order ->
  (forall x : string,
     In x order -> x <> k -> lastUsed_of p k < lastUsed_of p x) ->
  let p' := cleanupOldestLocked count order p in
  connections p' !! k = None
  /\ (k ∉ creationLock p')
  /\ forall a : nat, connections p !! k = Some a -> is_shut_down (mem p' a).
Proof.
  intros Hcount Hbig Hin Hmin. cbv zeta. unfold cleanupOldestLocked.
  assert ((currentSize p <=? count) = false) as -> by (apply Z.leb_gt; lia).
  apply fold_remove_removes.
  apply scan_min; [exact Hcount| |right; exact Hin].
  intros x [[]|Hx] Hne. exact (Hmin x Hx Hne).
Qed.

(** The pool of six connections, where that of [f] is the oldest. *)
Lemma eviction_takes_oldest_witness :
  let p' := cleanupOldestLocked 5 ["a"; "b"; "c"; "d"; "e"; "f"] pool_of_six in
  connections p' !! "f" = None
  /\ ("f" ∉ creationLock p')
  /\ forall a : nat,
       connections pool_of_six !! "f" = Some a -> is_shut_down (mem p' a).
Proof.
  apply (eviction_takes_oldest 5 ["a"; "b"; "c"; "d"; "e"; "f"] pool_of_six
           "f").
  - lia.
  - cbn. lia.
  - cbn. tauto.
  - intros x Hx Hne. cbn in Hx.
    destruct Hx as [<-|[<-|[<-|[<-|[<-|[<-|[]]]]]]]; vm_compute;
      try reflexivity.
    congruence.
Defined.

(** From a new pool, the counter is the number of connections after every
    sequence of operations in which each [Set] is for a key that is not in
    the map at that time. *)
Theorem fresh_pool_counter (m : nat -> UDPConnection) (maxSize mtu : Z)
    (ops : list pool_op) :
  sets_fresh ops (NewUDPConnectionPool m maxSize mtu) ->
  Z.of_nat (length ops) < 2 ^ 63 ->
  size_agrees (run_ops ops (NewUDPConnectionPool m maxSize mtu)).
Proof.
  intros Hfresh Hlen. apply run_ops_size; [reflexivity|exact Hfresh|].
  cbn [NewUDPConnectionPool connections]. rewrite map_size_empty. lia.
Qed.

(** Two clients arrive, the first leaves, old connections are cleaned. *)
Lemma fresh_pool_counter_witness :
  size_agrees
    (run_ops [OpSet "a" 1 10 []; OpSet "b" 2 20 ["a"]; OpDelete "a";
              OpCleanup 30 100 ["b"]]
       (NewUDPConnectionPool fresh_mem 1000 1420)).
Proof.
  apply (fresh_pool_counter fresh_mem 1000 1420
           [OpSet "a" 1 10 []; OpSet "b" 2 20 ["a"]; OpDelete "a";
            OpCleanup 30 100 ["b"]]).
  - vm_compute. repeat split; reflexivity.
  - cbn. lia.
Defined.


(** ** The dispatch of a datagram and the reader of a connection *)

Section Dispatch.
Variable IP_String : list Byte.byte -> string.

(** What [handleSocks5UDPPacketSync] does with a datagram: a datagram the
    parser rejects is dropped and nothing changes; a datagram of a client
    that has a connection is forwarded to it, payload only, and the
    connection is marked as used; a datagram of a client without a
    connection starts a creation when none is under way and is ignored
    otherwise. No datagram changes the map or the counter. *)
Theorem dispatch_outcomes (connKey : string) (data : list Byte.byte)
    (now : Z) (p : UDPConnectionPool) :
  match handleSocks5UDPPacketSync IP_String connKey data now p with
  | (Dropped, p') =>
      p' = p /\ (parseSocks5HeaderFast IP_String data).2 = false
  | (Forwarded a payload, p') =>
      (exists (host : string) (port : Z) (headerLen : nat),
         parseSocks5HeaderFast IP_String data = (host, port, headerLen, true)
         /\ payload = payload_of data headerLen)
      /\ connections p !! connKey = Some a
      /\ p' = (Get connKey now p).2
  | (Ignored, p') =>
      p' = p /\ (parseSocks5HeaderFast IP_String data).2 = true
      /\ connections p !! connKey = None /\ connKey ∈ creationLock p
  | (Creating host port payload, p') =>
      (exists headerLen : nat,
         parseSocks5HeaderFast IP_String data = (host, port, headerLen, true)
         /\ payload = payload_of data headerLen)
      /\ connections p !! connKey = None /\ (connKey ∉ creationLock p)
      /\ creationLock p' = {[connKey]} ∪ creationLock p
      /\ mem p' = mem p
  end
  /\ connections
       (handleSocks5UDPPacketSync IP_String connKey data now p).2
     = connections p
  /\ currentSize
       (handleSocks5UDPPacketSync IP_String connKey data now p).2
     = currentSize p.
Proof.
  unfold handleSocks5UDPPacketSync.
  destruct (parseSocks5HeaderFast IP_String data)
    as [[[host port] headerLen] ok].
  destruct ok; cbn [negb snd]; [|repeat split].
  unfold Get. destruct (connections p !! connKey) as [a|] eqn:Hk.
  - cbn [snd connections currentSize]. repeat split. eauto.
  - unfold creationLock_LoadOrStore.
    destruct (decide (connKey ∈ creationLock p)) as [Hin|Hin];
      cbn [snd connections currentSize creationLock mem];
      repeat split; eauto.
Qed.




End Dispatch.


(** Once the connection is in the pool, the datagrams of the client go to
    it: after the [Set] of the creation, a datagram the parser accepts is
    forwarded to the stored connection, payload only. *)
Theorem datagram_after_set (IP_String : list Byte.byte -> string)
    (connKey : string) (a : nat) (t : Z) (order : list string)
    (data : list Byte.byte) (now : Z) (p : UDPConnectionPool) :
  forall (host : string) (port : Z) (headerLen : nat),
    parseSocks5HeaderFast IP_String data = (host, port, headerLen, true) ->
    (handleSocks5UDPPacketSync IP_String connKey data now
       (Set_ connKey a t order p)).1
    = Forwarded a (payload_of data headerLen).
Proof.
  intros host port headerLen Hparse. unfold handleSocks5UDPPacketSync.
  rewrite Hparse. cbn [negb]. unfold Get, Set_. cbv zeta.
  cbn [connections]. rewrite lookup_insert_eq. reflexivity.
Qed.

(** A datagram to 10.0.0.1:53 after the connection of the client is set. *)
Lemma datagram_after_set_witness :
  let IP_String := fun _ : list Byte.byte => EmptyString in
  let data :=
    request_datagram Byte.x01 [Byte.x0a; Byte.x00; Byte.x00; Byte.x01]
      Byte.x00 Byte.x35 [Byte.xff] in
  (handleSocks5UDPPacketSync IP_String "c" data 2
     (Set_ "c" 1 1 [] (NewUDPConnectionPool fresh_mem 1000 1420))).1
  = Forwarded 1 (payload_of data 10).
Proof.
  intros IP_String data.
  apply (datagram_after_set IP_String "c" 1 1 [] data 2
           (NewUDPConnectionPool fresh_mem 1000 1420) EmptyString 53 10%nat).
  reflexivity.
Defined.

Lemma reader_sees_signal (a : nat) (connKey : string) (read : read_result)
    (now : Z) (p : UDPConnectionPool) :
  readerDone (mem p a) <> [] ->
  (reader_turn a connKey read now p).1 = ReaderReturns
  /\ connections (reader_turn a connKey read now p).2 = connections p
  /\ currentSize (reader_turn a connKey read now p).2 = currentSize p
  /\ creationLock (reader_turn a connKey read now p).2 = creationLock p.
Proof.
  intros Hsig. unfold reader_turn.
  destruct (readerDone (mem p a)); [congruence|]. repeat split.
Qed.

(** The reader of a removed connection stops: after [Delete], [Cleanup] or
    the eviction removed a key, the next turn of the reader of the
    connection it had returns, whatever the read would give, without
    touching the map, the counter or the creation flags. *)
Theorem reader_stops_after_removal (key connKey : string) (a : nat)
    (read : read_result) (now : Z) (p : UDPConnectionPool) :
  connections p !! key = Some a ->
  forall removed : list string,
    In key removed ->
    let p' := fold_left remove_key removed p in
    (reader_turn a connKey read now p').1 = ReaderReturns
    /\ connections (reader_turn a connKey read now p').2 = connections p'
    /\ currentSize (reader_turn a connKey read now p').2 = currentSize p'
    /\ creationLock (reader_turn a connKey read now p').2 = creationLock p'.
Proof.
  intros Hk removed Hin. cbv zeta. apply reader_sees_signal.
  destruct (fold_remove_removes removed p key Hin) as (_ & _ & Hshut).
  exact (proj2 (Hshut a Hk)).
Qed.

(** The pool of six connections after [Delete] of the key [a]. *)
Lemma reader_stops_after_removal_witness :
  let p' := fold_left remove_key ["a"] pool_of_six in
  (reader_turn 1 "a" ReadError 70 p').1 = ReaderReturns
  /\ connections (reader_turn 1 "a" ReadError 70 p').2 = connections p'
  /\ currentSize (reader_turn 1 "a" ReadError 70 p').2 = currentSize p'
  /\ creationLock (reader_turn 1 "a" ReadError 70 p').2 = creationLock p'.
Proof.
  apply (reader_stops_after_removal "a" "a" 1 ReadError 70 pool_of_six).
  - reflexivity.
  - left. reflexivity.
Defined.

(** What a turn of the reader does when no signal is there: a timeout
    changes nothing and the loop goes on; data mark the connection as used
    and are sent to the client; any other error ends the reader after a
    [Delete] of its key, which removes whatever connection the key has at
    that time. *)
Theorem reader_turn_outcomes (a : nat) (connKey : string) (now : Z)
    (p : UDPConnectionPool) :
  readerDone (mem p a) = [] ->
  reader_turn a connKey ReadTimeout now p = (ReaderContinues, p)
  /\ (forall bytes : list Byte.byte,
        let r := reader_turn a connKey (ReadData bytes) now p in
        r.1 = ReaderResponds bytes /\ lastUsed (mem r.2 a) = now
        /\ connections r.2 = connections p
        /\ currentSize r.2 = currentSize p)
  /\ (let r := reader_turn a connKey ReadError now p in
      r.1 = ReaderReturns /\ connections r.2 !! connKey = None
      /\ (connKey ∉ creationLock r.2)
      /\ (forall b : nat,
            connections p !! connKey = Some b -> is_shut_down (mem r.2 b))
      /\ (forall k : string,
            k <> connKey -> connections r.2 !! k = connections p !! k)).
Proof.
  intros Hsig. unfold reader_turn. rewrite Hsig. cbv zeta.
  cbn [fst snd mem connections currentSize]. unfold Delete.
  split; [reflexivity|]. split.
  - intros bytes. rewrite store_same. repeat split.
  - split; [reflexivity|]. split; [|split; [|split]].
    + rewrite remove_key_lookup, decide_True by reflexivity. reflexivity.
    + rewrite remove_key_lock. tauto.
    + intros b Hb. exact (remove_key_shuts p connKey b Hb).
    + intros k Hk. rewrite remove_key_lookup, decide_False by congruence.
      reflexivity.
Qed.

(** The reader of the connection of [a] in the pool of six. *)
Lemma reader_turn_outcomes_witness :
  reader_turn 1 "a" ReadTimeout 70 pool_of_six = (ReaderContinues, pool_of_six)
  /\ (forall bytes : list Byte.byte,
        let r := reader_turn 1 "a" (ReadData bytes) 70 pool_of_six in
        r.1 = ReaderResponds bytes /\ lastUsed (mem r.2 1%nat) = 70
        /\ connections r.2 = connections pool_of_six
        /\ currentSize r.2 = currentSize pool_of_six)
  /\ (let r := reader_turn 1 "a" ReadError 70 pool_of_six in
      r.1 = ReaderReturns /\ connections r.2 !! "a" = None
      /\ ("a" ∉ creationLock r.2)
      /\ (forall b : nat,
            connections pool_of_six !! "a" = Some b ->
            is_shut_down (mem r.2 b))
      /\ (forall k : string,
            k <> "a" -> connections r.2 !! k = connections pool_of_six !! k)).
Proof.
  apply (reader_turn_outcomes 1 "a" 70 pool_of_six). reflexivity.
Defined.


(** ** The DNS cache across calls *)

Lemma Resolve_miss (d : DNSCache) (host : string) (env : resolve_env) :
  res_lookups (Resolve d host env) = [host] ->
  res_err (Resolve d host env) = None ->
  exists chosen : list Byte.byte,
    res_ip (Resolve d host env) = Some chosen
    /\ res_cache (Resolve d host env)
       = {| cache := <[host := {| ip := chosen;
                                  timestamp := now_write env |}]> (cache d);
            ttl := ttl d |}.
Proof.
  unfold Resolve. cbv zeta.
  destruct (match cache d !! host with
            | Some entry =>
                if Time_Sub (now_read env) (timestamp entry) <? ttl d
                then Some (ip entry) else None
            | None => None
            end) as [cached|]; [discriminate|].
  destruct (LookupIP env host) as [ips [err|]]; [discriminate|].
  destruct ips as [|first rest]; [discriminate|].
  intros _ _. eexists. split; reflexivity.
Qed.

(** An answer is served from the cache for as long as it is fresh: after a
    call of [Resolve] that made a lookup and succeeded, a call for the same
    host whose clock reading is less than the TTL after the insertion makes
    no lookup, returns the same address and leaves the cache as it is. *)
Theorem resolve_again_within_ttl (d : DNSCache) (host : string)
    (env1 env2 : resolve_env) :
  minDuration < ttl d ->
  res_lookups (Resolve d host env1) = [host] ->
  res_err (Resolve d host env1) = None ->
  now_read env2 - now_write env1 < ttl d ->
  let r2 := Resolve (res_cache (Resolve d host env1)) host env2 in
  res_lookups r2 = [] /\ res_ip r2 = res_ip (Resolve d host env1)
  /\ res_err r2 = None /\ res_cache r2 = res_cache (Resolve d host env1).
Proof.
  intros Httl Hlook Herr Hfresh. cbv zeta.
  destruct (Resolve_miss d host env1 Hlook Herr) as (chosen & Hip & Hcache).
  rewrite Hip, Hcache. unfold Resolve at 1 2 3 4. cbv zeta.
  cbn [cache ttl]. rewrite lookup_insert_eq. cbn [timestamp ip].
  apply (Time_Sub_lt_conv _ _ _ Httl) in Hfresh. apply Z.ltb_lt in Hfresh.
  rewrite Hfresh. repeat split.
Qed.

(** A new cache of five seconds, a lookup at 100 written at 101, and a
    second call at 102. *)
Lemma resolve_again_within_ttl_witness :
  let env2 := {| now_read := 102; LookupIP := fun _ => ([], None);
                 now_write := 103 |} in
  let r2 :=
    Resolve (res_cache (Resolve empty_cache "h" lookup_v6_v4)) "h" env2 in
  res_lookups r2 = []
  /\ res_ip r2 = res_ip (Resolve empty_cache "h" lookup_v6_v4)
  /\ res_err r2 = None
  /\ res_cache r2 = res_cache (Resolve empty_cache "h" lookup_v6_v4).
Proof.
  intros env2.
  apply (resolve_again_within_ttl empty_cache "h" lookup_v6_v4 env2).
  - vm_compute. reflexivity.
  - reflexivity.
  - reflexivity.
  - vm_compute. reflexivity.
Defined.

(** What [Resolve] leaves alone: it never changes the TTL nor the entry of
    another host; a failure leaves the whole cache as it was, so that
    failures are not remembered and a stale entry is not removed; a call
    returns an address exactly when it returns no error, and an address
    that was looked up is the one the cache holds for the host afterwards. *)
Theorem resolve_frame (d : DNSCache) (host : string) (env : resolve_env) :
  let r := Resolve d host env in
  ttl (res_cache r) = ttl d
  /\ (forall other : string,
        other <> host -> cache (res_cache r) !! other = cache d !! other)
  /\ (res_err r <> None -> res_ip r = None /\ res_cache r = d)
  /\ (res_err r = None -> res_ip r <> None)
  /\ (res_err r = None -> res_lookups r = [host] ->
      exists entry : cacheEntry,
        cache (res_cache r) !! host = Some entry
        /\ res_ip r = Some (ip entry) /\ timestamp entry = now_write env).
Proof.
  cbv zeta. unfold Resolve. cbv zeta.
  destruct (match cache d !! host with
            | Some entry =>
                if Time_Sub (now_read env) (timestamp entry) <? ttl d
                then Some (ip entry) else None
            | None => None
            end) as [cached|].
  - cbn [res_cache res_err res_ip res_lookups].
    repeat split; try congruence; discriminate.
  - destruct (LookupIP env host) as [ips [err|]].
    + cbn [res_cache res_err res_ip res_lookups].
      repeat split; try congruence; discriminate.
    + destruct ips as [|first rest];
        cbn [res_cache res_err res_ip res_lookups cache ttl].
      * repeat split; try congruence; discriminate.
      * split; [reflexivity|]. split.
        { intros other Hne. apply lookup_insert_ne. congruence. }
        split; [congruence|]. split; [discriminate|].
        intros _ _. eexists. rewrite lookup_insert_eq.
        split; [reflexivity|]. split; reflexivity.
Qed.


(** ** Emitting an interval and parsing it again *)

Lemma digit_char_digit (u : Z) :
  0 <= u < 10 ->
  is_digit (strconv.digit_char u) = true
  /\ Z.of_nat (nat_of_ascii (strconv.digit_char u)) - 48 = u.
Proof.
  intros Hu. unfold strconv.digit_char, is_digit.
  rewrite nat_ascii_embedding by lia.
  split; [|lia]. apply andb_true_iff. rewrite !Z.leb_le. lia.
Qed.

Lemma formatBits_digits (fuel : nat) :
  forall (u : Z) (acc : string),
    0 <= u < 10 ^ Z.of_nat (S fuel) ->
    exists s : string,
      strconv.formatBits (S fuel) u acc = s +:+ acc
      /\ digits s /\ decimal_value s = u.
Proof.
  induction fuel as [|fuel IH]; intros u acc Hu.
  - change (10 ^ Z.of_nat 1) with 10 in Hu.
    cbn [strconv.formatBits].
    assert ((u <? 10) = true) as -> by (apply Z.ltb_lt; lia).
    destruct (digit_char_digit u Hu) as [Hd Hv].
    exists (String (strconv.digit_char u) EmptyString).
    split; [reflexivity|]. split.
    + split; [discriminate|]. cbn [all_digits]. rewrite Hd. reflexivity.
    + unfold decimal_value. cbn [decimal_value_from]. lia.
  - change (strconv.formatBits (S (S fuel)) u acc)
      with (if u <? 10 then String (strconv.digit_char u) acc
            else strconv.formatBits (S fuel) (u / 10)
                   (String (strconv.digit_char (u mod 10)) acc)).
    destruct (Z.ltb_spec u 10) as [Hlt|Hge].
    + destruct (digit_char_digit u ltac:(lia)) as [Hd Hv].
      exists (String (strconv.digit_char u) EmptyString).
      split; [reflexivity|]. split.
      * split; [discriminate|]. cbn [all_digits]. rewrite Hd. reflexivity.
      * unfold decimal_value. cbn [decimal_value_from]. lia.
    + pose proof (Z.mod_pos_bound u 10 ltac:(lia)) as Hmod.
      destruct (digit_char_digit (u mod 10) Hmod) as [Hd Hv].
      assert (0 <= u / 10 < 10 ^ Z.of_nat (S fuel)) as Hdiv.
      { split; [apply Z.div_pos; lia|].
        apply Z.div_lt_upper_bound; [lia|].
        replace (Z.of_nat (S (S fuel))) with (Z.succ (Z.of_nat (S fuel)))
          in Hu by lia.
        rewrite Z.pow_succ_r in Hu by lia. lia. }
      destruct (IH (u / 10) (String (strconv.digit_char (u mod 10)) acc)
                  Hdiv) as (s & Hs & [Hne Hds] & Hval).
      exists (s +:+ String (strconv.digit_char (u mod 10)) EmptyString).
      split; [|split; [split|]].
      * rewrite Hs, string_app_assoc, string_app_cons, string_app_nil_l.
        reflexivity.
      * destruct s; [congruence|discriminate].
      * rewrite all_digits_app, Hds. cbn [all_digits]. rewrite Hd.
        reflexivity.
      * unfold decimal_value in *. rewrite decimal_value_from_snoc, Hval, Hv.
        pose proof (Z.div_mod u 10 ltac:(lia)). lia.
Qed.

Lemma FormatUint_digits (u : Z) :
  0 <= u <= maxUint32 ->
  digits (strconv.FormatUint u) /\ decimal_value (strconv.FormatUint u) = u.
Proof.
  intros Hu. unfold strconv.FormatUint.
  destruct (formatBits_digits 19 u EmptyString) as (s & Hs & Hd & Hv).
  - unfold maxUint32 in Hu. change (10 ^ Z.of_nat 20) with (10 ^ 20). lia.
  - rewrite Hs, string_app_nil_r. split; assumption.
Qed.

(** What [formatMagicHeaderInterval] emits, [parseMagicHeaderInterval]
    reads back: for 32-bit bounds in order, the literal of the interval is
    accepted and gives the two bounds again, so that the value of an H
    field survives the way through the IPC text. *)
Theorem format_then_parse (lo hi : Z) :
  0 <= lo -> lo <= hi -> hi <= maxUint32 ->
  parseMagicHeaderInterval (formatMagicHeaderInterval lo hi)
  = (lo, hi, None).
Proof.
  intros Hlo Hle Hhi.
  destruct (FormatUint_digits lo ltac:(lia)) as [[Hnea Hda] Hva].
  destruct (FormatUint_digits hi ltac:(lia)) as [[Hneb Hdb] Hvb].
  set (a := strconv.FormatUint lo) in *.
  set (b := strconv.FormatUint hi) in *.
  destruct (TrimSpace_digits a b Hnea Hneb Hda Hdb) as [Ht1 Ht2].
  unfold formatMagicHeaderInterval. fold a b.
  unfold parseMagicHeaderInterval.
  destruct (Z.eqb_spec lo hi) as [Heq|Hne].
  - rewrite Ht1, (string_eqb_empty a Hnea), (Split_digits a Hda).
    cbn [length Nat.ltb Nat.leb orb].
    rewrite (string_eqb_empty a Hnea).
    rewrite (ParseUint_digits a (conj Hnea Hda)) by lia.
    rewrite Hva. congruence.
  - change ("-" +:+ b) with (String "-" b). rewrite Ht2.
    assert (String.eqb (a +:+ String "-" b) "" = false) as ->.
    { apply String.eqb_neq. destruct a; [congruence|discriminate]. }
    rewrite (Split_range a b Hda Hdb).
    cbn [length Nat.ltb Nat.leb orb].
    rewrite (string_eqb_empty a Hnea).
    rewrite (ParseUint_digits a (conj Hnea Hda)) by lia.
    rewrite (string_eqb_empty b Hneb).
    rewrite (ParseUint_digits b (conj Hneb Hdb)) by lia.
    rewrite Hva, Hvb.
    assert ((hi <? lo) = false) as -> by (apply Z.ltb_ge; lia).
    reflexivity.
Qed.

(** The interval from 5 to 10. *)
Lemma format_then_parse_witness :
  parseMagicHeaderInterval (formatMagicHeaderInterval 5 10) = (5, 10, None).
Proof.
  apply (format_then_parse 5 10).
  - lia.
  - lia.
  - unfold maxUint32. lia.
Defined.
